(** * Audible Garden turntable: rotational position and mapping engine

    Shallow embedding of the Python sources
      - revised/fixed_turntable.py
      - revised/utils/audio_utils_simple.py
      - revised/utils/rotation_utils.py
      - corrected_audio_processing.py
      - core_audio_processing.py
    and the properties of the engine stated over it.

    Conventions of the embedding.
      - Python [int] is [Z]; [//] and [%] on ints are [Z.div] and [Z.modulo]
        (both floor towards minus infinity, as in Python), with the
        [ZeroDivisionError] of a zero divisor written out.
      - Python and NumPy floats are exact rationals [Q].  Every statement below
        that evaluates a float expression on concrete data does so on values
        where binary64 arithmetic is exact (24.0, 2.0, 0.5, 720.0, 127.0 ...).
      - A call that can raise returns [result]; the exception classes that
        occur are the constructors of [exn].
      - Calls into OpenCV (cv.rotate, cv.cvtColor, cv.resize, ORB) are
        parameters of the functions that use them. *)

From Stdlib Require Import String Ascii ZArith QArith Qround Qabs List Bool Lia Lqa
  Permutation Sorted.
Import ListNotations.

Local Open Scope Z_scope.

(** ** Exceptions and results *)

Inductive exn : Type :=
| ZeroDivisionError
| ValueError
| IndexError
| TypeError
| KeyError
| DeprecationWarning.

Inductive result (A : Type) : Type :=
| Ok (a : A)
| Raise (e : exn).

Arguments Ok {A} a.
Arguments Raise {A} e.

Definition bind {A B : Type} (r : result A) (k : A -> result B) : result B :=
  match r with
  | Ok a => k a
  | Raise e => Raise e
  end.

Notation "'let*' x ':=' r 'in' k" := (bind r (fun x => k))
  (at level 10, x pattern, r at level 100, k at level 200).

(** ** Python numerics *)

(** [int(x)] on a float: truncation towards zero. *)
Definition py_int (q : Q) : Z := Z.quot (Qnum q) (Zpos (Qden q)).

(** [x % m] on floats, for a positive modulus: the result has the sign of [m]. *)
Definition py_fmod (x m : Q) : Q := (x - m * inject_Z (Qfloor (x / m)))%Q.

(** [a / b] of Python floats. *)
Definition py_div (a b : Q) : result Q :=
  if Qeq_bool b 0 then Raise ZeroDivisionError else Ok (a / b)%Q.

(** [a // b] and [a % b] of Python ints. *)
Definition py_floordiv (a b : Z) : result Z :=
  if b =? 0 then Raise ZeroDivisionError else Ok (a / b).

Definition py_mod (a b : Z) : result Z :=
  if b =? 0 then Raise ZeroDivisionError else Ok (a mod b).

(** [l[a:b]] on a sequence: negative bounds count from the end, and both are
    clipped to the sequence. *)
Definition py_bound (n i : Z) : Z :=
  if i <? 0 then Z.max (i + n) 0 else Z.min i n.

Definition py_slice {A : Type} (l : list A) (a b : Z) : list A :=
  let n := Z.of_nat (length l) in
  let lo := py_bound n a in
  let hi := py_bound n b in
  firstn (Z.to_nat (hi - lo)) (skipn (Z.to_nat lo) l).

(** [l[:k]]. *)
Definition py_take {A : Type} (l : list A) (k : Z) : list A := py_slice l 0 k.

(** ** Timing model *)

(** The dictionary returned by [calculate_timing_parameters]. *)
Record timing : Type := mkTiming {
  t_rpm : Q;
  rotation_time : Q;
  zodiac_section_time : Q;
  frames_per_rotation : Z;
  frames_per_zodiac_section : Z;
  degrees_per_frame : Q
}.

(** fixed_turntable.py, [calculate_timing_parameters(rpm, fps)]. *)
Definition calculate_timing_parameters (rpm fps : Q) : result timing :=
  let* rotation_time := py_div 60 rpm in
  let zodiac_section_time := (rotation_time / 12)%Q in
  let frames_per_rotation := py_int (rotation_time * fps) in
  let frames_per_zodiac_section := py_int (zodiac_section_time * fps) in
  let* degrees_per_frame := py_div 360 (inject_Z frames_per_rotation) in
  Ok (mkTiming rpm rotation_time zodiac_section_time frames_per_rotation
        frames_per_zodiac_section degrees_per_frame).

(** fixed_turntable.py, main loop:
    [current_angle = (frame_count * timing['degrees_per_frame']) % 360]. *)
Definition current_angle (t : timing) (frame_count : Z) : Q :=
  py_fmod (inject_Z frame_count * degrees_per_frame t) 360.

(** fixed_turntable.py, main loop:
    [zodiac_section = int(current_angle / 30.0) % 12]. *)
Definition zodiac_section_of_angle (angle : Q) : Z :=
  py_int (angle / 30) mod 12.

(** The attributes of a [CorrectedAudioProcessor] that the position
    computation reads.  [cap_frames] is [None] until
    [update_fps_dependent_values] has created the two frame counts
    (the [hasattr] test of the source). *)
Record CorrectedAudioProcessor : Type := mkProcessor {
  cap_rpm : Q;
  cap_fps : option Q;
  cap_rotation_time : Q;
  cap_zodiac_section_time : Q;
  cap_zodiac_mode : bool;
  cap_zodiac_range : Z;
  cap_frames : option (Z * Z)
}.

(** corrected_audio_processing.py, [CorrectedAudioProcessor.__init__]. *)
Definition CorrectedAudioProcessor_init (rpm : Q) (fps : option Q)
  : result CorrectedAudioProcessor :=
  let* rotation_time := py_div 60 rpm in
  Ok (mkProcessor rpm fps rotation_time (rotation_time / 12)%Q true 88 None).

(** [update_fps_dependent_values(actual_fps)]. *)
Definition update_fps_dependent_values (p : CorrectedAudioProcessor) (actual_fps : Q)
  : CorrectedAudioProcessor :=
  mkProcessor (cap_rpm p) (Some actual_fps) (cap_rotation_time p)
    (cap_zodiac_section_time p) (cap_zodiac_mode p) (cap_zodiac_range p)
    (Some (py_int (actual_fps * cap_rotation_time p),
           py_int (actual_fps * cap_zodiac_section_time p))).

(** What [calculate_current_position] returns. *)
Record position : Type := mkPosition {
  rotation_progress : Q;
  zodiac_section : Z;
  angle_degrees : Q
}.

(** [calculate_current_position(frame_count)]: the processor after the call
    (the method fills in the frame counts at 30 fps when they are missing) and
    the position. *)
Definition calculate_current_position (p : CorrectedAudioProcessor) (frame_count : Z)
  : result (CorrectedAudioProcessor * position) :=
  let p := match cap_frames p with
           | Some _ => p
           | None => update_fps_dependent_values p 30
           end in
  match cap_frames p with
  | None => Raise ValueError (* unreachable: the counts were just filled in *)
  | Some (fpr, fpz) =>
      let* frames_in_current_rotation := py_mod frame_count fpr in
      let* progress := py_div (inject_Z frames_in_current_rotation) (inject_Z fpr) in
      let* q := py_floordiv frame_count fpz in
      let section := q mod 12 in
      Ok (p, mkPosition progress section (progress * 360)%Q)
  end.

(** [range(lo, lo + n)]. *)
Fixpoint Zrange (lo : Z) (n : nat) : list Z :=
  match n with
  | O => []
  | S k => lo :: Zrange (lo + 1) k
  end.

(** Python's stable sort ([sorted], [list.sort]); [before y x] says that [y]
    sorts strictly before [x].  Elements that compare equal keep their
    order.  With [before] a strict greater-than it is a sort with
    [reverse=True]. *)
Fixpoint stable_insert {A : Type} (before : A -> A -> bool) (x : A) (s : list A) : list A :=
  match s with
  | [] => [x]
  | y :: s' => if before y x then y :: stable_insert before x s' else x :: y :: s'
  end.

Definition stable_sort {A : Type} (before : A -> A -> bool) (l : list A) : list A :=
  fold_right (stable_insert before) [] l.

(** [a.argmin()] on a non-empty 1-D integer array: the first index that holds
    the minimum. *)
Fixpoint argmin_from (best : Z) (best_i i : nat) (l : list Z) : nat :=
  match l with
  | [] => best_i
  | x :: l' => if x <? best then argmin_from x i (S i) l'
               else argmin_from best best_i (S i) l'
  end.

Definition argmin (l : list Z) : nat :=
  match l with
  | [] => O
  | x :: l' => argmin_from x O 1%nat l'
  end.

(** [np.mean] of a row of integers. *)
Definition np_mean (row : list Z) : Q :=
  (inject_Z (fold_right Z.add 0%Z row) / inject_Z (Z.of_nat (length row)))%Q.

(** [np.interp(x, [x0, x1], [f0, f1])] for [x0 < x1]: linear between the two
    points, constant outside them. *)
Definition np_interp (x x0 x1 f0 f1 : Q) : Q :=
  if Qle_bool x x0 then f0
  else if Qle_bool x1 x then f1
  else ((f1 - f0) / (x1 - x0) * (x - x0) + f0)%Q.

(** The number of elements of a 2-D array given as its rows ([a.size]). *)
Definition size2 {A : Type} (a : list (list A)) : nat :=
  (length a * length (hd [] a))%nat.

(** ** Pixel-to-music mapper (audio_utils_simple.py) *)

(** A value of the [definitions] dictionary: a list of MIDI numbers, or a
    string holding a Python expression (the form the 'Piano' entry takes). *)
Inductive scale_def : Type :=
| Notes (l : list Z)
| Expr (s : string).

(** [config['midi_generation']]; a key that is absent is [None]. *)
Record midi_generation : Type := mkGen {
  sampling_mode : option string;
  note_count_max : option Z;
  velocity_range : option (Q * Q);
  velocity_threshold : option Q
}.

(** [config['scales']]. *)
Record scales : Type := mkScales {
  default_scale : option string;
  definitions : option (list (string * scale_def))
}.

Record config : Type := mkConfig {
  cfg_midi_generation : option midi_generation;
  cfg_scales : option scales
}.

(** [d.get(key)] on a dictionary with string keys. *)
Fixpoint dict_get {V : Type} (d : list (string * V)) (key : string) : option V :=
  match d with
  | [] => None
  | (k, v) :: d' => if String.eqb k key then Some v else dict_get d' key
  end.

Definition get_default {A : Type} (o : option A) (d : A) : A :=
  match o with
  | Some a => a
  | None => d
  end.

(** [list(range(21, 109))]. *)
Definition full_piano : list Z := Zrange 21 88.

(** [np.arange(108, 20, -1)]. *)
Definition piano_notes : list Z := rev full_piano.

Definition Z_mem (n : Z) (l : list Z) : bool := existsb (Z.eqb n) l.

(** A note with its velocity: an element of [candidates]. *)
Definition candidate : Type := (Z * Q)%type.

(** The chord a mapper returns: notes, velocities, durations. *)
Definition chord : Type := (list Z * list Z * list Q)%type.

Definition empty_chord : chord := ([], [], []).

Section Mapper.

(** [eval] on the expression stored under 'Piano'; [None] when it raises. *)
Variable py_eval : string -> option (list Z).

(** [cv.resize(a, (a.shape[1], 88), interpolation=cv.INTER_LINEAR)]. *)
Variable cv_resize_88 : list (list Z) -> list (list Z).

(** [random.shuffle] on the candidate list, and the k-th value that
    [random.uniform(500, 3000)] draws. *)
Variable random_shuffle : list candidate -> list candidate.
Variable random_uniform : nat -> Q.

(** Step 1 of [generate_midi_from_roi]: the scale named by the
    configuration. *)
Definition resolve_scale (cfg : config) : result (list Z) :=
  let scale_config := get_default (cfg_scales cfg) (mkScales None None) in
  let scale_name := get_default (default_scale scale_config) "Piano"%string in
  let defs := get_default (definitions scale_config) [] in
  if String.eqb scale_name "Piano" then
    match dict_get defs "Piano" with
    | None => Ok full_piano
    | Some (Expr s) => Ok (get_default (py_eval s) full_piano)
    | Some (Notes _) => Ok full_piano (* eval of a list raises: the fallback *)
    end
  else
    match dict_get defs scale_name with
    | None => Ok full_piano
    | Some (Notes l) => Ok l
    | Some (Expr _) => Raise TypeError (* [n in "..."] for an integer n *)
    end.

(** [sorted([n for n in piano_notes if n in scale_notes], reverse=True)]. *)
Definition available_scale_notes (scale_notes : list Z) : list Z :=
  stable_sort Z.gtb (filter (fun n => Z_mem n scale_notes) piano_notes).

(** [255 - roi_gray] followed by the conversion to uint8. *)
Definition invert (roi_gray : list (list Z)) : list (list Z) :=
  map (map (fun v => (255 - v) mod 256)) roi_gray.

(** The nearest note of the scale for row [i]. *)
Definition mapped_note (available : list Z) (i : nat) : Z :=
  let p := nth i piano_notes 0 in
  nth (argmin (map (fun a => Z.abs (a - p)) available)) available 0.

(** One pass of the loop over the 88 rows. *)
Definition add_candidate (available : list Z) (vel_range : Q * Q) (vel_threshold : Q)
    (magnitudes : list Q) (acc : result (list candidate)) (i : nat)
  : result (list candidate) :=
  let* candidates := acc in
  let note := mapped_note available i in
  match nth_error magnitudes i with
  | None => Raise IndexError
  | Some m =>
      let velocity := np_interp m 100 255 (fst vel_range) (snd vel_range) in
      if Qle_bool vel_threshold velocity then
        if existsb (fun c => fst c =? note) candidates then Ok candidates
        else Ok (candidates ++ [(note, velocity)])
      else Ok candidates
  end.

Definition build_candidates (available : list Z) (vel_range : Q * Q) (vel_threshold : Q)
    (magnitudes : list Q) : result (list candidate) :=
  fold_left (add_candidate available vel_range vel_threshold magnitudes)
    (seq 0 88) (Ok []).

Definition velocity_gtb (a b : candidate) : bool :=
  negb (Qle_bool (snd a) (snd b)).

(** Step 2: inversion, resampling to 88 rows when the array has another
    height, and the mean of every row. *)
Definition magnitudes_of (roi_gray : list (list Z)) : list Q :=
  let roi_inverted := invert roi_gray in
  let roi_normalized :=
    if (length roi_inverted =? 88)%nat then roi_inverted
    else cv_resize_88 roi_inverted in
  map np_mean roi_normalized.

(** [generate_midi_from_roi(roi_gray, config)] for a 2-D array [roi_gray]. *)
Definition generate_midi_from_roi (roi_gray : list (list Z)) (cfg : config)
  : result chord :=
  if (size2 roi_gray =? 0)%nat then Ok empty_chord else
  let gen_config := get_default (cfg_midi_generation cfg) (mkGen None None None None) in
  let mode := get_default (sampling_mode gen_config) "importance"%string in
  let count_max := get_default (note_count_max gen_config) 5 in
  let vel_range := get_default (velocity_range gen_config) (32, 127)%Q in
  let vel_threshold := get_default (velocity_threshold gen_config) 32%Q in
  let* scale_notes := resolve_scale cfg in
  let magnitudes := magnitudes_of roi_gray in
  let available := available_scale_notes scale_notes in
  match available with
  | [] => Ok empty_chord
  | _ :: _ =>
      let* candidates := build_candidates available vel_range vel_threshold magnitudes in
      match candidates with
      | [] => Ok empty_chord
      | _ :: _ =>
          let ordered :=
            if String.eqb mode "random" then random_shuffle candidates
            else stable_sort velocity_gtb candidates in
          let final_notes := py_take ordered count_max in
          Ok (map fst final_notes,
              map (fun c => py_int (snd c)) final_notes,
              map random_uniform (seq 0 (length final_notes)))
      end
  end.

End Mapper.

(** [process_roi_to_midi_data], which accepts any arguments: the deprecated
    entry point. *)
Definition process_roi_to_midi_data {A : Type} (args : A) : result chord :=
  Raise DeprecationWarning.

(** ** The scenario rpm = 2.5, fps = 30 *)

Definition scenario_processor : result CorrectedAudioProcessor :=
  let* p := CorrectedAudioProcessor_init 2.5 None in
  Ok (update_fps_dependent_values p 30).

Definition processor_sector (frame_count : Z) : result Z :=
  let* p := scenario_processor in
  let* r := calculate_current_position p frame_count in
  Ok (zodiac_section (snd r)).

Definition loop_sector (frame_count : Z) : result Z :=
  let* t := calculate_timing_parameters 2.5 30 in
  Ok (zodiac_section_of_angle (current_angle t frame_count)).

Definition result_Z_eqb (r : result Z) (z : Z) : bool :=
  match r with
  | Ok v => v =? z
  | Raise _ => false
  end.

(** The [note_count_max] and [velocity_threshold] that
    [generate_midi_from_roi] reads from a configuration. *)
Definition configured_max_notes (cfg : config) : Z :=
  get_default
    (note_count_max (get_default (cfg_midi_generation cfg) (mkGen None None None None)))
    5.

Definition configured_threshold (cfg : config) : Q :=
  get_default
    (velocity_threshold (get_default (cfg_midi_generation cfg) (mkGen None None None None)))
    32%Q.

Definition configured_velocity_range (cfg : config) : Q * Q :=
  get_default
    (velocity_range (get_default (cfg_midi_generation cfg) (mkGen None None None None)))
    (32, 127)%Q.

(** The configuration [{}]: every key takes its default. *)
Definition default_config : config := mkConfig None None.

(** The configuration [{'midi_generation': {'note_count_max': n}}]. *)
Definition config_max_notes (n : Z) : config :=
  mkConfig (Some (mkGen None (Some n) None None)) None.

(** Instances of the mapper's parameters, for evaluating it on concrete
    data: an [eval] that always raises, a nearest-neighbour resize to 88 rows,
    a shuffle that leaves the list as it is, and a constant draw. *)
Definition eval_raises (s : string) : option (list Z) := None.

Definition nearest_resize_88 (a : list (list Z)) : list (list Z) :=
  map (fun i => nth (i * length a / 88) a []) (seq 0 88).

Definition shuffle_identity (l : list candidate) : list candidate := l.

Definition uniform_constant (k : nat) : Q := 1000%Q.

Definition generate_midi_from_roi_inst : list (list Z) -> config -> result chord :=
  generate_midi_from_roi eval_raises nearest_resize_88 shuffle_identity uniform_constant.

(** An 88-row, one-column profile of intensity 0, and one of intensity 255. *)
Definition all_zero_profile : list (list Z) := repeat [0] 88.
Definition all_max_profile : list (list Z) := repeat [255] 88.

(** ** Scanline extraction *)

(** A BGR pixel and a frame: [frame.shape[0]] rows of [frame.shape[1]]
    pixels. *)
Definition pixel : Type := (Z * Z * Z)%type.
Definition frame : Type := list (list pixel).

Definition frame_height (f : frame) : Z := Z.of_nat (length f).
Definition frame_width (f : frame) : Z := Z.of_nat (length (hd [] f)).

(** [f[y, x]] for coordinates inside the frame. *)
Definition pixel_at (f : frame) (y x : Z) : pixel :=
  nth (Z.to_nat x) (nth (Z.to_nat y) f []) (0, 0, 0).

Definition in_frame (f : frame) (xy : Z * Z) : bool :=
  let '(x, y) := xy in
  (0 <=? x) && (x <? frame_width f) && (0 <=? y) && (y <? frame_height f).

(** [int(0.299 * R + 0.587 * G + 0.114 * B)] of [extract_radial_scanline]. *)
Definition luma (p : pixel) : Z :=
  let '(b, g, r) := p in
  py_int (0.299 * inject_Z r + 0.587 * inject_Z g + 0.114 * inject_Z b)%Q.

(** Python's [max(a, b)] on floats: [b] only when it is greater. *)
Definition py_max (a b : Q) : Q := if Qle_bool b a then a else b.

(** [a[r0:r1, c0:c1]] on a 2-D array. *)
Definition slice2 {A : Type} (a : list (list A)) (r0 r1 c0 c1 : Z) : list (list A) :=
  map (fun row => py_slice row c0 c1) (py_slice a r0 r1).

(** The attributes of an [AudioProcessor] (core_audio_processing.py) that the
    extraction reads. *)
Record AudioProcessor : Type := mkAudioProcessor {
  ap_zodiac_mode : bool;
  ap_zodiac_range : Z;
  ap_time_per_zodiac : Z
}.

(** [AudioProcessor.__init__]. *)
Definition AudioProcessor_init : AudioProcessor := mkAudioProcessor true 88 30.

(** The [processing_info] dictionary of [extract_roi_pixels_circular]. *)
Record radial_info : Type := mkRadialInfo {
  ri_angle : Q;
  ri_center : Z * Z;
  ri_radius : Z;
  ri_points : list (Z * Z);
  ri_section : option Z
}.

Section Scanline.

(** [np.cos(np.radians(a))] and [np.sin(np.radians(a))] of an angle in
    degrees, [np.sqrt], the grey level [cv2.cvtColor] gives a pixel, and
    [cv2.rotate(frame, cv2.ROTATE_90_CLOCKWISE)]. *)
Variable cos_deg sin_deg : Q -> Q.
Variable np_sqrt : Q -> Q.
Variable cvtColor_gray : pixel -> Z.
Variable cv2_rotate : frame -> frame.

(** Polar to Cartesian: the pixel at radius [r] along [angle]. *)
Definition polar_point (center_x center_y : Z) (angle : Q) (r : Z) : Z * Z :=
  (py_int (inject_Z center_x + inject_Z r * cos_deg angle),
   py_int (inject_Z center_y + inject_Z r * sin_deg angle)).

(** The default of [max_radius]: the distance to the farthest corner. *)
Definition farthest_corner (f : frame) (center_x center_y : Z) : Q :=
  let corners :=
    [(0, 0); (frame_width f, 0); (0, frame_height f);
     (frame_width f, frame_height f)] in
  fold_left
    (fun acc c =>
       py_max acc
         (np_sqrt (inject_Z ((fst c - center_x) ^ 2 + (snd c - center_y) ^ 2))))
    corners 0%Q.

(** fixed_turntable.py,
    [extract_radial_scanline(frame, center_x, center_y, angle_degrees, max_radius)]. *)
Definition extract_radial_scanline (f : frame) (center_x center_y : Z)
    (angle_degrees : Q) (max_radius : option Q) : result (list Z) :=
  let max_radius := match max_radius with
                    | Some m => m
                    | None => farthest_corner f center_x center_y
                    end in
  let r_values := Zrange 0 (Z.to_nat (py_int max_radius)) in
  let coords := map (polar_point center_x center_y angle_degrees) r_values in
  let valid := filter (in_frame f) coords in
  match valid with
  | [] => Ok []
  | _ :: _ => Ok (map (fun xy => luma (pixel_at f (snd xy) (fst xy))) valid)
  end.

(** corrected_audio_processing.py,
    [extract_roi_pixels_circular(frame, center_coords, radius, frame_count)]. *)
Definition extract_roi_pixels_circular (p : CorrectedAudioProcessor) (f : frame)
    (center_coords : Z * Z) (radius : Z) (frame_count : Z)
  : result (CorrectedAudioProcessor * list Z * radial_info) :=
  let '(center_x, center_y) := center_coords in
  let* pp := calculate_current_position p frame_count in
  let '(p', pos) := pp in
  let angle := angle_degrees pos in
  let radial_points :=
    map (polar_point center_x center_y angle) (Zrange 0 (Z.to_nat radius)) in
  let scanline_values :=
    map (fun xy => if in_frame f xy
                   then cvtColor_gray (pixel_at f (snd xy) (fst xy))
                   else 0)
        radial_points in
  Ok (p', scanline_values,
      mkRadialInfo angle center_coords radius (py_take radial_points 10)
        (if cap_zodiac_mode p' then Some (zodiac_section pos + 1) else None)).

(** core_audio_processing.py,
    [AudioProcessor.extract_roi_pixels(frame, roi_coords, frame_count, fps)]:
    the grey strip and the region that was read. *)
Definition extract_roi_pixels (ap : AudioProcessor) (f : frame)
    (roi_coords : Z * Z * Z * Z) (frame_count fps : Z)
  : result (list (list Z) * (Z * Z * Z * Z)) :=
  let '(x, y, w, h) := roi_coords in
  let vertical_frame := cv2_rotate f in
  let* rr :=
    if ap_zodiac_mode ap then
      let hour_frame := fps * ap_time_per_zodiac ap in
      let* q := py_floordiv frame_count hour_frame in
      let hour_idx := q mod 12 in
      let zodiac_y := y + hour_idx * ap_zodiac_range ap in
      let zodiac_h := ap_zodiac_range ap in
      Ok (slice2 vertical_frame zodiac_y (zodiac_y + zodiac_h) x (x + 1),
          (x, zodiac_y, 1, zodiac_h))
    else
      Ok (slice2 vertical_frame y (y + h) x (x + 1), (x, y, 1, h)) in
  let '(roi, processing_region) := rr in
  if (size2 roi =? 0)%nat then Raise ValueError
  else Ok (map (map cvtColor_gray) roi, processing_region).

End Scanline.

(** Instances of the scanline parameters for evaluation at the angle 0, where
    [np.cos] is exactly 1 and [np.sin] exactly 0; the square root is only read
    when no radius is passed. *)
Definition cos_at_0 (a : Q) : Q := 1.
Definition sin_at_0 (a : Q) : Q := 0.
Definition sqrt_unused (q : Q) : Q := 0.
Definition gray_stand_in (p : pixel) : Z := luma p.
Definition no_rotation (f : frame) : frame := f.

(** A 2 x 2 frame of one colour. *)
Definition frame_2x2 : frame :=
  [[(10, 20, 30); (10, 20, 30)]; [(10, 20, 30); (10, 20, 30)]].

(** ** Rotation recorder (fixed_turntable.py, [TurntableScoreRecorder]) *)

(** A recorded region: the 1-D scanline of the circular mode, or the 2-D
    strip of the rectangular mode. *)
Inductive raw_roi : Type :=
| Scanline (values : list Z)
| Strip (rows : list (list Z)).

(** An element of [current_rotation['notes']]. *)
Record note_data : Type := mkNoteData {
  nd_frame : Z;
  nd_notes : list Z;
  nd_velocities : list Z;
  nd_durations : list Q
}.

(** A rotation dictionary.  A key that is absent is [None]: a rotation
    rebuilt from score.npy has [raw_rois] only. *)
Record rotation : Type := mkRotation {
  rot_frame_start : option Z;
  rot_notes : option (list note_data);
  rot_zodiac_sections : option (list (Z * Z));
  rot_raw_rois : option (list raw_roi)
}.

(** [{'frame_start': f, 'notes': [], 'zodiac_sections': [], 'raw_rois': []}]. *)
Definition fresh_rotation (frame_start : Z) : rotation :=
  mkRotation (Some frame_start) (Some []) (Some []) (Some []).

(** What a recorder has handed to the writing code of its session folder:
    [VisualScore] when [save_visual_score] passes its two guards (the image
    may still not be written: scanlines that are all empty, an unknown
    roi_mode, or an OpenCV error that the method catches), [ScoreJson] when
    [save_score] reaches its [json.dump]. *)
Inductive artifact : Type :=
| VisualScore (rois : list raw_roi)
| ScoreJson (rotations : list rotation).

Record TurntableScoreRecorder : Type := mkRecorder {
  sr_rpm : Q;
  sr_fps : Q;
  sr_rotation_time : option Q;  (* [None] is [float('inf')] *)
  sr_frames_per_rotation : Z;
  sr_scale : option string;
  sr_roi_mode : option string;
  sr_rotations : list rotation;
  sr_current_rotation : rotation;
  sr_is_recording : bool;
  sr_recorded_rotations : Z;
  sr_max_rotations : Z;
  sr_is_loaded : bool;
  sr_session_path : option string;
  sr_written : list artifact
}.

(** [TurntableScoreRecorder.__init__(rpm, fps)]; the first division raises on
    rpm = 0 before the guarded one is reached. *)
Definition TurntableScoreRecorder_init (rpm fps : Q) : result TurntableScoreRecorder :=
  let* rotation_time := py_div 60 rpm in
  let guarded_time := if Qle_bool rpm 0 then None else Some rotation_time in
  let guarded_frames := if Qle_bool rpm 0 then 0 else py_int (rotation_time * fps) in
  Ok (mkRecorder rpm fps guarded_time guarded_frames None None []
        (fresh_rotation 0) false 0 1 false None []).

Definition with_current (r : TurntableScoreRecorder) (c : rotation)
  : TurntableScoreRecorder :=
  mkRecorder (sr_rpm r) (sr_fps r) (sr_rotation_time r) (sr_frames_per_rotation r)
    (sr_scale r) (sr_roi_mode r) (sr_rotations r) c (sr_is_recording r)
    (sr_recorded_rotations r) (sr_max_rotations r) (sr_is_loaded r)
    (sr_session_path r) (sr_written r).

(** [start_recording(frame_count, scale, roi_mode)]; [session] is the folder
    name built from the clock. *)
Definition start_recording (r : TurntableScoreRecorder) (frame_count : Z)
    (scale roi_mode session : string) : TurntableScoreRecorder :=
  let c := sr_current_rotation r in
  mkRecorder (sr_rpm r) (sr_fps r) (sr_rotation_time r) (sr_frames_per_rotation r)
    (Some scale) (Some roi_mode) (sr_rotations r)
    (mkRotation (Some frame_count) (rot_notes c) (rot_zodiac_sections c)
       (rot_raw_rois c))
    true 0 (sr_max_rotations r) (sr_is_loaded r) (Some session) (sr_written r).

Definition relative_frame (r : TurntableScoreRecorder) (frame_count : Z) : Z :=
  frame_count - get_default (rot_frame_start (sr_current_rotation r)) 0.

(** [add_notes(frame_count, midi_notes, velocities, durations, raw_roi,
    zodiac_section)]. *)
Definition add_notes (r : TurntableScoreRecorder) (frame_count : Z)
    (midi_notes velocities : list Z) (durations : list Q) (roi : raw_roi)
    (section : option Z) : TurntableScoreRecorder :=
  if negb (sr_is_recording r) then r else
  let rel := relative_frame r frame_count in
  let c := sr_current_rotation r in
  let notes' := get_default (rot_notes c) [] ++ [mkNoteData rel midi_notes velocities durations] in
  let rois' := get_default (rot_raw_rois c) [] ++ [roi] in
  let sections' :=
    match section with
    | Some z => if z =? 0 then get_default (rot_zodiac_sections c) []
                else get_default (rot_zodiac_sections c) [] ++ [(rel, z)]
    | None => get_default (rot_zodiac_sections c) []
    end in
  with_current r (mkRotation (rot_frame_start c) (Some notes') (Some sections') (Some rois')).

(** [save_visual_score(roi_list)]: without a session folder or with an empty
    list the method returns at once; otherwise it goes on to build and write
    the image, which is recorded as [VisualScore].  What its try block then
    does with the list is not modelled. *)
Definition save_visual_score (r : TurntableScoreRecorder) (roi_list : list raw_roi)
  : TurntableScoreRecorder :=
  match sr_session_path r, roi_list with
  | Some _, _ :: _ =>
      mkRecorder (sr_rpm r) (sr_fps r) (sr_rotation_time r) (sr_frames_per_rotation r)
        (sr_scale r) (sr_roi_mode r) (sr_rotations r) (sr_current_rotation r)
        (sr_is_recording r) (sr_recorded_rotations r) (sr_max_rotations r)
        (sr_is_loaded r) (sr_session_path r)
        (sr_written r ++ [VisualScore roi_list])
  | _, _ => r
  end.

(** [save_score()]. *)
Definition save_score (r : TurntableScoreRecorder) : TurntableScoreRecorder :=
  match sr_session_path r with
  | Some _ =>
      mkRecorder (sr_rpm r) (sr_fps r) (sr_rotation_time r) (sr_frames_per_rotation r)
        (sr_scale r) (sr_roi_mode r) (sr_rotations r) (sr_current_rotation r)
        (sr_is_recording r) (sr_recorded_rotations r) (sr_max_rotations r)
        (sr_is_loaded r) (sr_session_path r)
        (sr_written r ++ [ScoreJson (sr_rotations r)])
  | None => r
  end.

(** [stop_recording()]. *)
Definition stop_recording (r : TurntableScoreRecorder) : TurntableScoreRecorder :=
  if negb (sr_is_recording r) then r else
  save_score
    (mkRecorder (sr_rpm r) (sr_fps r) (sr_rotation_time r) (sr_frames_per_rotation r)
       (sr_scale r) (sr_roi_mode r) (sr_rotations r) (sr_current_rotation r)
       false (sr_recorded_rotations r) (sr_max_rotations r)
       (sr_is_loaded r) (sr_session_path r) (sr_written r)).

(** [check_rotation_complete(frame_count)]: the recorder after the call and
    the value returned. *)
Definition check_rotation_complete (r : TurntableScoreRecorder) (frame_count : Z)
  : TurntableScoreRecorder * bool :=
  if negb (sr_is_recording r) then (r, false) else
  let rel := relative_frame r frame_count in
  if sr_frames_per_rotation r <=? rel then
    let r1 :=
      if sr_recorded_rotations r =? 0
      then save_visual_score r (get_default (rot_raw_rois (sr_current_rotation r)) [])
      else r in
    let r2 :=
      mkRecorder (sr_rpm r1) (sr_fps r1) (sr_rotation_time r1)
        (sr_frames_per_rotation r1) (sr_scale r1) (sr_roi_mode r1)
        (sr_rotations r1 ++ [sr_current_rotation r1])
        (fresh_rotation frame_count)
        (sr_is_recording r1) (sr_recorded_rotations r1 + 1) (sr_max_rotations r1)
        (sr_is_loaded r1) (sr_session_path r1) (sr_written r1) in
    if sr_max_rotations r2 <=? sr_recorded_rotations r2
    then (stop_recording r2, true)
    else (r2, false)
  else (r, false).

(** A call a frame loop makes on the recorder. *)
Inductive recorder_call : Type :=
| CallAdd (frame_count : Z) (midi_notes velocities : list Z) (durations : list Q)
    (roi : raw_roi) (section : option Z)
| CallCheck (frame_count : Z).

(** Runs the calls in order and collects what every [check_rotation_complete]
    returned, with the frame it was called at. *)
Fixpoint run_calls (r : TurntableScoreRecorder) (calls : list recorder_call)
  : TurntableScoreRecorder * list (Z * bool) :=
  match calls with
  | [] => (r, [])
  | CallAdd f n v d roi s :: rest => run_calls (add_notes r f n v d roi s) rest
  | CallCheck f :: rest =>
      let '(r', b) := check_rotation_complete r f in
      let '(r'', bs) := run_calls r' rest in
      (r'', (f, b) :: bs)
  end.

(** Following the spec's words: false on every call before the first one
    whose relative frame reaches [frames_per_rotation], true on that one,
    false on every later one. *)
Fixpoint complete_once (start fpr : Z) (checks : list Z) : list (Z * bool) :=
  match checks with
  | [] => []
  | f :: rest =>
      if fpr <=? f - start then (f, true) :: map (fun g => (g, false)) rest
      else (f, false) :: complete_once start fpr rest
  end.

Definition check_frames (calls : list recorder_call) : list Z :=
  flat_map (fun c => match c with
                     | CallCheck f => [f]
                     | CallAdd _ _ _ _ _ _ => []
                     end) calls.

(** [process_circular_roi_to_midi_data(scanline_values, scale, ...)]: the
    88 resampled values are handed to [process_roi_to_midi_data]. *)
Definition resample_88 (scanline_values : list Z) : list Z :=
  let n := Z.of_nat (length scanline_values) in
  if 88 <? n then
    map (fun i => nth (Z.to_nat (py_int (inject_Z i * inject_Z (n - 1) / 87)))
                      scanline_values 0)
        (Zrange 0 88)
  else
    firstn 88 (concat (repeat scanline_values
                         (Z.to_nat (Qceiling (88 / inject_Z n))))).

Definition process_circular_roi_to_midi_data (scanline_values : list Z)
    (scale : string) : result chord :=
  match scanline_values with
  | [] => Ok empty_chord
  | _ :: _ =>
      process_roi_to_midi_data (map (fun v => [v]) (resample_88 scanline_values), scale)
  end.

(** [get_playback_notes_from_npy(frame_count)]. *)
Definition get_playback_notes_from_npy (r : TurntableScoreRecorder) (frame_count : Z)
  : result chord :=
  match sr_rotations r with
  | [] => Ok empty_chord
  | first :: _ =>
      match rot_raw_rois first with
      | None => Ok empty_chord
      | Some [] => Ok empty_chord
      | Some (roi0 :: rois') =>
          let rois := roi0 :: rois' in
          let rel := frame_count mod Z.of_nat (length rois) in
          let roi_gray := nth (Z.to_nat rel) rois roi0 in
          let scale := get_default (sr_scale r) "CPentatonic"%string in
          if match sr_roi_mode r with
             | Some mode => String.eqb mode "circular"
             | None => false
             end
          then
            match roi_gray with
            | Scanline v => process_circular_roi_to_midi_data v scale
            | Strip rows => process_circular_roi_to_midi_data (map (hd 0) rows) scale
            end
          else process_roi_to_midi_data (roi_gray, scale)
      end
  end.

(** [get_playback_notes(frame_count)]: the chord stored for the frame. *)
Definition get_playback_notes (r : TurntableScoreRecorder) (frame_count : Z)
  : result chord :=
  match sr_rotations r with
  | [] => Ok empty_chord
  | first :: _ =>
      let* rel := py_mod frame_count (sr_frames_per_rotation r) in
      match rot_notes first with
      | None => Raise KeyError
      | Some notes =>
          match find (fun nd => nd_frame nd =? rel) notes with
          | Some nd => Ok (nd_notes nd, nd_velocities nd, nd_durations nd)
          | None => Ok empty_chord
          end
      end
  end.

(** The part of [load_score_from_session] that reads score.npy: the columns
    of the array replace [score_data['rotations']] by one rotation that holds
    raw profiles only, 1-D in the circular mode and one pixel wide otherwise.
    The metadata is what score.json gave, when it was there. *)
Definition array_column (score_array : list (list Z)) (i : nat) : list Z :=
  map (fun row => nth i row 0) score_array.

Definition load_score_npy (r : TurntableScoreRecorder) (score_array : list (list Z))
  : TurntableScoreRecorder :=
  let columns := map (array_column score_array) (seq 0 (length (hd [] score_array))) in
  let circular := match sr_roi_mode r with
                  | Some mode => String.eqb mode "circular"
                  | None => false
                  end in
  let profiles :=
    if circular then map Scanline columns
    else map (fun col => Strip (map (fun v => [v]) col)) columns in
  mkRecorder (sr_rpm r) (sr_fps r) (sr_rotation_time r) (sr_frames_per_rotation r)
    (sr_scale r) (sr_roi_mode r)
    [mkRotation None None None (Some profiles)]
    (sr_current_rotation r) (sr_is_recording r) (sr_recorded_rotations r)
    (sr_max_rotations r) true (sr_session_path r) (sr_written r).

(** The part that reads score.json, reduced to the metadata it sets. *)
Definition load_score_metadata (r : TurntableScoreRecorder) (scale roi_mode : string)
  : TurntableScoreRecorder :=
  mkRecorder (sr_rpm r) (sr_fps r) (sr_rotation_time r) (sr_frames_per_rotation r)
    (Some scale) (Some roi_mode) (sr_rotations r)
    (sr_current_rotation r) (sr_is_recording r) (sr_recorded_rotations r)
    (sr_max_rotations r) (sr_is_loaded r) (sr_session_path r) (sr_written r).

(** The recorder [TurntableScoreRecorder(rpm=2.5, fps=30)]. *)
Definition recorder_720 : TurntableScoreRecorder :=
  Eval vm_compute in
    match TurntableScoreRecorder_init 2.5 30 with
    | Ok r => r
    | Raise _ => mkRecorder 0 0 None 0 None None [] (fresh_rotation 0) false 0 1 false None []
    end.

(** A playback session: score.json gave the metadata (circular mode,
    CPentatonic), score.npy an 88 x 2 array of zero intensity, that is two
    frames of raw profiles and no chords. *)
Definition profiles_only_recorder : TurntableScoreRecorder :=
  load_score_npy (load_score_metadata recorder_720 "CPentatonic" "circular")
    (repeat [0; 0] 88).

(** ** Rotation estimator (rotation_utils.py, [RotationDetector]) *)

Definition keypoint : Type := (Q * Q)%type.
Definition descriptor : Type := list bool.

Record dmatch : Type := mkMatch {
  queryIdx : nat;
  trainIdx : nat;
  distance : Q
}.

(** The filled circle drawn into the mask: centre and radius. *)
Record circle_mask : Type := mkMask {
  mask_center : Z * Z;
  mask_radius : Z
}.

Record RotationDetector : Type := mkDetector {
  rd_fps : Q;
  rd_buffer_size : nat;
  reference_kp : option (list keypoint);
  reference_des : option (list descriptor);
  last_angle : Q;
  rd_rpm : Q;
  rpm_buffer : list Q
}.

(** [RotationDetector.__init__(fps, buffer_size)]. *)
Definition RotationDetector_init (fps : Q) (buffer_size : nat) : RotationDetector :=
  mkDetector fps buffer_size None None 0 0 [].

(** What [set_reference_frame] prints. *)
Inductive reference_report : Type :=
| NoFrame
| ReferenceSet (features : nat)
| NoFeaturesWarning.

(** [deque.append] with [maxlen]. *)
Definition deque_append (maxlen : nat) (buffer : list Q) (x : Q) : list Q :=
  let b := buffer ++ [x] in
  skipn (length b - maxlen) b.

Definition np_mean_Q (l : list Q) : Q :=
  (fold_right Qplus 0 l / inject_Z (Z.of_nat (length l)))%Q.

(** Lines 99-103 of [calculate_rpm]: the change of angle, folded at the
    360-degree boundary. *)
Definition angle_delta (angle last : Q) : Q :=
  let angle_diff := (angle - last)%Q in
  if negb (Qle_bool angle_diff 180) then (angle_diff - 360)%Q
  else if negb (Qle_bool (-180) angle_diff) then (angle_diff + 360)%Q
  else angle_diff.

(** [abs(angle_diff * fps / 6.0)]. *)
Definition rpm_of_delta (fps angle_diff : Q) : Q :=
  Qabs (angle_diff * fps / 6).

Section Rotation.

(** [cv.cvtColor(frame, cv.COLOR_BGR2GRAY)] on a pixel, ORB's
    [detectAndCompute(gray, mask)] (the descriptors are [None] when nothing
    is found), the brute-force matcher, [cv.estimateAffinePartial2D] (the
    2 x 3 matrix, row by row, or [None]) and
    [np.degrees(np.arctan2(y, x))]. *)
Variable cvtColor_gray : pixel -> Z.
Variable detectAndCompute :
  list (list Z) -> option circle_mask -> list keypoint * option (list descriptor).
Variable bf_match : list descriptor -> list descriptor -> list dmatch.
Variable estimateAffinePartial2D :
  list keypoint -> list keypoint -> option ((Q * Q * Q) * (Q * Q * Q)).
Variable arctan2_degrees : Q -> Q -> Q.

(** [set_reference_frame(frame)]: the detector after the call and the
    message printed.  The method has no [raise]. *)
Definition set_reference_frame (d : RotationDetector) (f : option frame)
  : RotationDetector * reference_report :=
  match f with
  | None => (d, NoFrame)
  | Some f =>
      let gray := map (map cvtColor_gray) f in
      let h := frame_height f in
      let w := frame_width f in
      let mask := mkMask (w / 2, h / 2) (Z.min w h / 3) in
      let '(kp, des) := detectAndCompute gray (Some mask) in
      let d' := mkDetector (rd_fps d) (rd_buffer_size d) (Some kp) des 0
                  (rd_rpm d) [] in
      match des with
      | Some _ => (d', ReferenceSet (length kp))
      | None => (d', NoFeaturesWarning)
      end
  end.

(** [calculate_rpm(current_frame)]: the detector after the call and the
    value returned. *)
Definition calculate_rpm (d : RotationDetector) (current_frame : option frame)
  : RotationDetector * Q :=
  match reference_des d, current_frame with
  | None, _ => (d, 0%Q)
  | _, None => (d, 0%Q)
  | Some ref_des, Some f =>
      let gray := map (map cvtColor_gray) f in
      let '(current_kp, current_des) := detectAndCompute gray None in
      match current_des with
      | None => (d, rd_rpm d)
      | Some cur_des =>
          if (length cur_des <? 10)%nat then (d, rd_rpm d) else
          let matches :=
            stable_sort (fun a b => negb (Qle_bool (distance b) (distance a)))
              (bf_match ref_des cur_des) in
          let good_matches := firstn 25 matches in
          if (length good_matches <? 10)%nat then (d, rd_rpm d) else
          let ref_pts :=
            map (fun m => nth (queryIdx m) (get_default (reference_kp d) []) (0, 0)%Q)
                good_matches in
          let cur_pts :=
            map (fun m => nth (trainIdx m) current_kp (0, 0)%Q) good_matches in
          match estimateAffinePartial2D ref_pts cur_pts with
          | None => (d, rd_rpm d)
          | Some (row0, row1) =>
              let angle := arctan2_degrees (fst (fst row1)) (fst (fst row0)) in
              let angle_diff := angle_delta angle (last_angle d) in
              let current_rpm := rpm_of_delta (rd_fps d) angle_diff in
              let buffer := deque_append (rd_buffer_size d) (rpm_buffer d) current_rpm in
              let rpm := np_mean_Q buffer in
              (mkDetector (rd_fps d) (rd_buffer_size d) (reference_kp d)
                 (reference_des d) angle rpm buffer, rpm)
          end
      end
  end.

End Rotation.

(** Instances for evaluation: a detector that finds three features in every
    frame. *)
Definition three_keypoints : list keypoint := [(1, 1); (2, 1); (1, 2)]%Q.
Definition three_descriptors : list descriptor := [[true]; [false]; [true; true]].

Definition detect_three (gray : list (list Z)) (mask : option circle_mask)
  : list keypoint * option (list descriptor) :=
  (three_keypoints, Some three_descriptors).

(** ** Linear value mapper (audio_utils_simple.py, [ValMapper]) *)

(** A 1-D NumPy array with its dtype: integers or floats. *)
Inductive ndarray : Type :=
| IntArray (values : list Z)
| FloatArray (values : list Q).

Record ValMapper : Type := mkValMapper {
  vm_mode : string;
  vm_input_values : ndarray;
  vm_input_min : Q;
  vm_input_max : Q;
  vm_output_min : Q;
  vm_output_max : Q
}.

(** The values of an array as floats (what true division makes of them). *)
Definition as_floats (a : ndarray) : list Q :=
  match a with
  | IntArray l => map inject_Z l
  | FloatArray l => l
  end.

(** [np.full_like(a, fill)]: the shape and the dtype of [a]; a float written
    into an integer array is truncated. *)
Definition np_full_like (a : ndarray) (fill : Q) : ndarray :=
  match a with
  | IntArray l => IntArray (repeat (py_int fill) (length l))
  | FloatArray l => FloatArray (repeat fill (length l))
  end.

(** [np.clip(x, lo, hi)], element by element: [minimum(maximum(x, lo), hi)]. *)
Definition np_clip (lo hi x : Q) : Q :=
  let y := if Qle_bool lo x then x else lo in
  if Qle_bool y hi then y else hi.

(** [ValMapper.__call__()]. *)
Definition ValMapper_call (m : ValMapper) : result ndarray :=
  if String.eqb (vm_mode m) "linear" then
    let input_range := (vm_input_max m - vm_input_min m)%Q in
    let output_range := (vm_output_max m - vm_output_min m)%Q in
    if Qeq_bool input_range 0 then
      Ok (np_full_like (vm_input_values m) ((vm_output_min m + vm_output_max m) / 2)%Q)
    else
      let normalized :=
        map (fun x => ((x - vm_input_min m) / input_range)%Q)
            (as_floats (vm_input_values m)) in
      let mapped := map (fun x => (x * output_range + vm_output_min m)%Q) normalized in
      Ok (FloatArray (map (np_clip (vm_output_min m) (vm_output_max m)) mapped))
  else Raise ValueError.

(** ** Note names (audio_utils_simple.py, [str2midi]) *)

Definition note_map : list (string * Z) :=
  [("C", 0); ("C#", 1); ("D", 2); ("D#", 3); ("E", 4); ("F", 5);
   ("F#", 6); ("G", 7); ("G#", 8); ("A", 9); ("A#", 10); ("B", 11)]%string.

(** [int(c)] for a string of one character: a decimal digit or ValueError. *)
Definition int_of_char (c : ascii) : result Z :=
  let n := nat_of_ascii c in
  if ((48 <=? n) && (n <=? 57))%nat then Ok (Z.of_nat n - 48)
  else Raise ValueError.

(** [str2midi(note_str)]: the octave digit is read before the name is looked
    up. *)
Definition str2midi (note_str : string) : result Z :=
  let n := String.length note_str in
  if (n <? 2)%nat then Ok 60 else
  let note_name := substring 0 (n - 1) note_str in
  match String.get (n - 1) note_str with
  | None => Ok 60 (* unreachable: the string has at least two characters *)
  | Some c =>
      let* octave := int_of_char c in
      match dict_get note_map note_name with
      | Some pitch_class => Ok (Z.max 0 (Z.min 127 (pitch_class + (octave + 1) * 12)))
      | None => Ok 60
      end
  end.

(** The one-character string of the decimal digit [d]. *)
Definition digit_string (d : Z) : string :=
  String (ascii_of_nat (48 + Z.to_nat d)) EmptyString.

(** ** Scales (utils/osc_utils.py) *)

Definition SCALES : list (string * list Z) :=
  [("C Pentatonic", [60; 62; 64; 67; 69]);
   ("C Major", [60; 62; 64; 65; 67; 69; 71]);
   ("C Minor", [60; 62; 63; 65; 67; 68; 70]);
   ("Chromatic", Zrange 60 12)]%string.

(** [sorted(list(set(l)))]. *)
Definition sorted_set (l : list Z) : list Z :=
  stable_sort Z.ltb (nodup Z.eq_dec l).

(** The scale [get_scale_notes] works with: the one named, or C Pentatonic
    when the name is not a key of [SCALES]. *)
Definition effective_scale (scale_name : string) : list Z :=
  match dict_get SCALES scale_name with
  | Some base_notes => base_notes
  | None => get_default (dict_get SCALES "C Pentatonic") []
  end.

(** [get_scale_notes(scale_name, base_octave, num_octaves)]. *)
Definition get_scale_notes (scale_name : string) (base_octave num_octaves : Z)
  : list Z :=
  let base_notes := effective_scale scale_name in
  let below :=
    flat_map
      (fun i => map (fun note => note - 12 * (base_octave - i + 1)) base_notes)
      (map (fun j => base_octave - j) (Zrange 0 (Z.to_nat base_octave))) in
  let above :=
    flat_map (fun i => map (fun note => note + 12 * i) base_notes)
      (Zrange 0 (Z.to_nat num_octaves)) in
  let all_notes := below ++ above in
  sorted_set (filter (fun n => (0 <=? n) && (n <=? 127)) all_notes).

(** The chord [generate_midi_from_roi] builds from the selected candidates:
    the notes, the truncated velocities and one drawn duration per note. *)
Definition chord_of_candidates (random_uniform : nat -> Q)
    (final_notes : list candidate) : chord :=
  (map fst final_notes,
   map (fun c => py_int (snd c)) final_notes,
   map random_uniform (seq 0 (length final_notes))).

(** The sampling mode a configuration selects. *)
Definition configured_mode (cfg : config) : string :=
  get_default
    (sampling_mode (get_default (cfg_midi_generation cfg) (mkGen None None None None)))
    "importance"%string.

(** What a list of calls adds to a recording started at frame [s]: the note
    entries and the raw profiles, in call order. *)
Definition added_notes (s : Z) (calls : list recorder_call) : list note_data :=
  flat_map (fun c => match c with
                     | CallAdd f n v d _ _ => [mkNoteData (f - s) n v d]
                     | CallCheck _ => []
                     end) calls.

Definition added_rois (calls : list recorder_call) : list raw_roi :=
  flat_map (fun c => match c with
                     | CallAdd _ _ _ _ roi _ => [roi]
                     | CallCheck _ => []
                     end) calls.

(** The chord stored in a note entry. *)
Definition chord_of_note_data (nd : note_data) : chord :=
  (nd_notes nd, nd_velocities nd, nd_durations nd).

(** ** utils/audio_utils.py: the value mapper with [eps] *)

(** A list comprehension or loop whose body can raise: the elements in
    order, up to the first exception. *)
Fixpoint result_map {A B : Type} (f : A -> result B) (l : list A) : result (list B) :=
  match l with
  | [] => Ok []
  | x :: l' =>
      let* y := f x in
      let* ys := result_map f l' in
      Ok (y :: ys)
  end.

Module audio_utils.

Record ValMapper : Type := mkValMapper {
  mode : string;
  value : list Q;
  min_value : Q;
  max_value : Q;
  min_bound : Q;
  max_bound : Q
}.

(** [self.eps = 1e-7]. *)
Definition eps : Q := 1 # 10000000.

Section Transcendental.

Variable np_log np_sin : Q -> Q.

(** [norm()]; the division is the one of Python floats, which raises on a
    zero denominator. *)
Definition norm (self : ValMapper) : result (list Q) :=
  result_map
    (fun v => py_div (v - min_value self)
                     (max_value self - min_value self + eps))
    (value self).

(** [mapper()], which [__call__] returns. *)
Definition mapper (self : ValMapper) : result (list Q) :=
  let* norm_values := norm self in
  result_map
    (fun norm_value =>
       let* result :=
         if String.eqb (mode self) "linear" then Ok norm_value
         else if String.eqb (mode self) "log" then Ok (np_log (norm_value + eps))
         else if String.eqb (mode self) "power" then Ok (norm_value * norm_value)%Q
         else if String.eqb (mode self) "sin" then Ok (np_sin norm_value)
         else Raise ValueError in
       Ok (min_bound self + (max_bound self - min_bound self) * result)%Q)
    norm_values.

End Transcendental.

End audio_utils.

(** ** core_audio_processing.py: from pixels to MIDI *)

(** An entry of the [data] list of [pixels_to_magnitudes]. *)
Record magnitude_data : Type := mkData {
  d_index : Z;
  d_midi_note : option Z;
  d_magnitude : Q;
  d_region : Z * Z
}.

(** [np.mean(region) if region.size > 0 else 0] on the rows [start:end]. *)
Definition region_mean (roi_gray : list (list Z)) (start stop : Z) : Q :=
  let region := py_slice roi_gray start stop in
  if (size2 region =? 0)%nat then 0 else np_mean (concat region).

(** [pixels_to_magnitudes(roi_gray, processing_mode)]; [note_midis] is the
    attribute of [self], and [num_notes] its length. *)
Definition pixels_to_magnitudes (ap : AudioProcessor) (note_midis : list Z)
    (roi_gray : list (list Z)) (processing_mode : string)
  : result (list Q * list magnitude_data) :=
  if String.eqb processing_mode "zodiac" then
    let num_pixels := ap_zodiac_range ap in
    let target_area_size := 1 in
    let data :=
      map (fun pixel_idx =>
             let pixel_start := pixel_idx * target_area_size in
             let pixel_end := (pixel_idx + 1) * target_area_size in
             mkData pixel_idx None (region_mean roi_gray pixel_start pixel_end)
               (pixel_start, pixel_end))
          (Zrange 0 (Z.to_nat num_pixels)) in
    Ok (map d_magnitude data, data)
  else
    let num_pixels := Z.of_nat (length roi_gray) in
    let* target_area_size := py_floordiv num_pixels (Z.of_nat (length note_midis)) in
    let data :=
      map (fun note_idx =>
             let note_start := note_idx * target_area_size in
             let note_end := (note_idx + 1) * target_area_size in
             mkData note_idx (Some (nth (Z.to_nat note_idx) note_midis 0))
               (region_mean roi_gray note_start note_end)
               (note_start, note_end))
          (Zrange 0 (length note_midis)) in
    Ok (map d_magnitude data, data).

(** [a.min()] and [a.max()] of a float array; both raise ValueError on an
    empty one. *)
Definition np_min (a : list Q) : result Q :=
  match a with
  | [] => Raise ValueError
  | x :: a' => Ok (fold_left (fun m y => if Qle_bool m y then m else y) a' x)
  end.

Definition np_max (a : list Q) : result Q :=
  match a with
  | [] => Raise ValueError
  | x :: a' => Ok (fold_left (fun m y => if Qle_bool y m then m else y) a' x)
  end.

(** [round(x)] to the nearest integer, a tie going to the even one, and
    [round(x, 1)]. *)
Definition round_half_even (q : Q) : Z :=
  let f := Qfloor q in
  let r := (q - inject_Z f)%Q in
  if Qle_bool r (1 # 2) then
    if Qeq_bool r (1 # 2) then (if Z.even f then f else f + 1) else f
  else f + 1.

Definition py_round1 (q : Q) : Q :=
  (inject_Z (round_half_even (q * 10)) / 10)%Q.

(** A Python number: the frame rate reaches the pipeline as an int (the
    default 30) or as a float (what OpenCV reports). *)
Inductive py_number : Type :=
| PyInt (z : Z)
| PyFloat (q : Q).

(** The outcome of [process_frame_to_audio]: the dictionary with
    'success': True, or the one with the error. *)
Inductive frame_audio : Type :=
| Success (processing_region : Z * Z * Z * Z) (magnitudes : list Q)
    (notes : list Z) (velocities durations : list Q) (zodiac_hour : option Z)
| Failure (e : exn).

Section Pipeline.

Variable cvtColor_gray : pixel -> Z.
Variable cv2_rotate : frame -> frame.
Variable np_log np_sin : Q -> Q.

(** [np.random.randint(-light_bound, light_bound, n)]. *)
Variable randint : Z -> Z -> nat -> list Z.

(** [magnitudes_to_midi(magnitudes, add_variation)]: velocities, durations
    and notes; the bounds and [note_midis] are attributes of [self]. *)
Definition magnitudes_to_midi (vel_min vel_max dur_min dur_max : Q)
    (note_midis : list Z) (magnitudes : list Q) (add_variation : bool)
  : result (list Q * list Q * list Z) :=
  let* lowest := np_min magnitudes in
  let* highest := np_max magnitudes in
  let* velocities :=
    audio_utils.mapper np_log np_sin
      (audio_utils.mkValMapper "linear" magnitudes lowest highest vel_min vel_max) in
  let varied_magnitudes :=
    if add_variation then
      let light_bound := 20 in
      let lightness := randint (- light_bound) light_bound (length magnitudes) in
      map (fun ml => (fst ml + inject_Z (snd ml))%Q) (combine magnitudes lightness)
    else magnitudes in
  let* varied_lowest := np_min varied_magnitudes in
  let* varied_highest := np_max varied_magnitudes in
  let* durations :=
    audio_utils.mapper np_log np_sin
      (audio_utils.mkValMapper "linear" varied_magnitudes varied_lowest
         varied_highest dur_min dur_max) in
  let notes := note_midis in
  Ok (map py_round1 velocities, map py_round1 durations, notes).

(** [extract_roi_pixels] for a frame rate of either type.  With a float
    [fps] the zodiac mode computes [hour_frame], [hour_idx] and [zodiac_y] as
    floats: the floor division raises ZeroDivisionError on a zero
    [hour_frame], and otherwise the slice refuses the float index with
    TypeError.  Outside the zodiac mode [fps] is not read. *)
Definition extract_roi_pixels_at (ap : AudioProcessor) (f : frame)
    (roi_coords : Z * Z * Z * Z) (frame_count : Z) (fps : py_number)
  : result (list (list Z) * (Z * Z * Z * Z)) :=
  match fps with
  | PyInt z => extract_roi_pixels cvtColor_gray cv2_rotate ap f roi_coords frame_count z
  | PyFloat q =>
      if ap_zodiac_mode ap then
        if Qeq_bool (q * inject_Z (ap_time_per_zodiac ap)) 0
        then Raise ZeroDivisionError
        else Raise TypeError
      else extract_roi_pixels cvtColor_gray cv2_rotate ap f roi_coords frame_count 0
  end.

(** [process_frame_to_audio(frame, roi_coords, frame_count, fps)]: every
    exception of the pipeline is caught and reported in the result;
    [send_osc_data] catches its own and does not change the result. *)
Definition process_frame_to_audio (ap : AudioProcessor)
    (vel_min vel_max dur_min dur_max : Q) (note_midis : list Z) (f : frame)
    (roi_coords : Z * Z * Z * Z) (frame_count : Z) (fps : py_number) : frame_audio :=
  let pipeline :=
    let* extracted := extract_roi_pixels_at ap f roi_coords frame_count fps in
    let '(roi_gray, processing_region) := extracted in
    let processing_mode :=
      if ap_zodiac_mode ap then "zodiac"%string else "normal"%string in
    let* converted := pixels_to_magnitudes ap note_midis roi_gray processing_mode in
    let '(magnitudes, raw_data) := converted in
    let* midi :=
      magnitudes_to_midi vel_min vel_max dur_min dur_max note_midis magnitudes true in
    let '(velocities, durations, notes) := midi in
    let* mode_info :=
      if ap_zodiac_mode ap then
        match fps with
        | PyInt z =>
            let* q := py_floordiv frame_count (z * ap_time_per_zodiac ap) in
            Ok (Some (q mod 12 + 1))
        | PyFloat _ => Raise TypeError (* not reached: the extraction raised *)
        end
      else Ok None in
    Ok (Success processing_region magnitudes notes velocities durations mode_info) in
  match pipeline with
  | Ok d => d
  | Raise e => Failure e
  end.

End Pipeline.

(** Instances for evaluation: no variation, and the two functions that the
    linear mode does not call. *)
Definition no_variation (low high : Z) (n : nat) : list Z := repeat 0 n.
Definition log_unused (q : Q) : Q := 0.
Definition sin_unused (q : Q) : Q := 0.

(** ** The 88-key mapping (corrected_audio_processing.py) *)

(** Lines 246-252 of [pixels_to_midi_88_mapping]: padding with zeros, or
    truncation, to 88 values. *)
Definition pad_88 (pixel_data : list Z) : list Z :=
  if (length pixel_data <? 88)%nat
  then pixel_data ++ repeat 0 (88 - length pixel_data)
  else py_take pixel_data 88.

(** [int(self.vel_min + (pixel_value / 255.0) * (self.vel_max - self.vel_min))]. *)
Definition velocity_of_pixel (vel_min vel_max : Q) (pixel_value : Z) : Z :=
  py_int (vel_min + inject_Z pixel_value / 255 * (vel_max - vel_min)).

Section KeyMapping.

(** [select_scale] of utils/audio_utils.py, which reads the note names with
    audiolazy: the MIDI numbers of the scale, or an exception. *)
Variable select_scale : string -> result (list Z).

(** [pixels_to_midi_88_mapping(pixel_data, selected_scale)] on a 1-D array;
    [vel_min] and [vel_max] are the attributes of [self]. *)
Definition pixels_to_midi_88_mapping (vel_min vel_max : Q) (pixel_data : list Z)
    (selected_scale : option string) : result chord :=
  let padded_data := pad_88 pixel_data in
  let all_midi_notes := Zrange 21 88 in
  let whole_keyboard :=
    Ok (all_midi_notes, map (velocity_of_pixel vel_min vel_max) padded_data,
        repeat 1%Q (length all_midi_notes)) in
  match selected_scale with
  | Some s =>
      if negb (String.eqb s "") && negb (String.eqb s "piano") then
        let* scale_notes := select_scale s in
        let chosen :=
          filter (fun im => Z_mem (snd im) scale_notes)
            (combine (seq 0 88) all_midi_notes) in
        let notes := map snd chosen in
        Ok (notes,
            map (fun im => velocity_of_pixel vel_min vel_max
                             (nth (fst im) padded_data 0)) chosen,
            repeat 1%Q (length notes))
      else whole_keyboard
  | None => whole_keyboard
  end.

End KeyMapping.

(** Instance for evaluation: the scale of C in every octave. *)
Definition select_c_notes (scale_selection : string) : result (list Z) :=
  Ok [24; 36; 48; 60; 72; 84; 96; 108].

(** ** Main loop of fixed_turntable.py *)

(** Lines 888-890: the recorder takes over the detected RPM. *)
Definition with_rpm (r : TurntableScoreRecorder) (rpm rotation_time : Q)
    (frames : Z) : TurntableScoreRecorder :=
  mkRecorder rpm (sr_fps r) (Some rotation_time) frames
    (sr_scale r) (sr_roi_mode r) (sr_rotations r) (sr_current_rotation r)
    (sr_is_recording r) (sr_recorded_rotations r) (sr_max_rotations r)
    (sr_is_loaded r) (sr_session_path r) (sr_written r).

(** An OSC message of [send_midi]: the address and the list sent. *)
Inductive osc_message : Type :=
| OscNote (midi_values : list Z)
| OscVelocity (vel_values : list Z)
| OscDuration (dur_values : list Q).

(** [random.sample(population, k)]: ValueError when [k] is negative or larger
    than the population, and otherwise the [k] elements that [choose]
    draws. *)
Definition random_sample {A : Type} (choose : list A -> Z -> list A)
    (population : list A) (k : Z) : result (list A) :=
  if (k <? 0) || (Z.of_nat (length population) <? k) then Raise ValueError
  else Ok (choose population k).

(** How the try block of lines 986-1027 ended. *)
Inductive midi_outcome : Type :=
| NothingToSend
| Transmitted
| ErrorCaught (e : exn).

(** Lines 932-939, rectangular mode: the rows [scan_y_start:scan_y_end] read
    for the current angle. *)
Definition zodiac_window (t : timing) (frame_count y h zodiac_range : Z) : Z * Z :=
  let angle := current_angle t frame_count in
  let zodiac_y := y + py_int (angle / 360 * inject_Z h) in
  (Z.max y (zodiac_y - zodiac_range / 2),
   Z.min (y + h) (zodiac_y + zodiac_range / 2)).

Section MainLoop.

Variable cvtColor_gray : pixel -> Z.
Variable detectAndCompute :
  list (list Z) -> option circle_mask -> list keypoint * option (list descriptor).
Variable bf_match : list descriptor -> list descriptor -> list dmatch.
Variable estimateAffinePartial2D :
  list keypoint -> list keypoint -> option ((Q * Q * Q) * (Q * Q * Q)).
Variable arctan2_degrees : Q -> Q -> Q.

(** The random choices of [send_midi]: the value [random.randint] returns,
    and the elements the first, second and third [random.sample] draw. *)
Variable random_randint : Z -> Z -> Z.
Variable draw_notes draw_velocities : list Z -> Z -> list Z.
Variable draw_durations : list Q -> Z -> list Q.

(** osc_utils.py, [send_midi(client, n_pieces, midi_data, vel_data,
    dur_data)]: the messages sent, in order, and the exception that ended
    the call, if any.  [random.randint(1, n)] raises ValueError for
    [n < 1]. *)
Definition send_midi (n_pieces : Z) (midi_data vel_data : list Z)
    (dur_data : list Q) : list osc_message * option exn :=
  if n_pieces <? 1 then ([], Some ValueError) else
  let N := random_randint 1 n_pieces in
  match random_sample draw_notes midi_data N with
  | Raise e => ([], Some e)
  | Ok midi_values =>
      match random_sample draw_velocities vel_data N with
      | Raise e => ([OscNote midi_values], Some e)
      | Ok vel_values =>
          match random_sample draw_durations dur_data N with
          | Raise e => ([OscNote midi_values; OscVelocity vel_values], Some e)
          | Ok dur_values =>
              ([OscNote midi_values; OscVelocity vel_values;
                OscDuration dur_values], None)
          end
      end
  end.

(** Lines 880-890, with a detector: the detector after [calculate_rpm], the
    current RPM, the timing parameters and the recorder. *)
Definition update_from_detector (d : RotationDetector) (vertical_frame : frame)
    (actual_fps current_rpm : Q) (t : timing) (r : TurntableScoreRecorder)
  : result (RotationDetector * Q * timing * TurntableScoreRecorder) :=
  let '(d', detected_rpm_value) :=
    calculate_rpm cvtColor_gray detectAndCompute bf_match estimateAffinePartial2D
      arctan2_degrees d (Some vertical_frame) in
  if negb (Qle_bool detected_rpm_value 0.5) then
    let current_rpm := detected_rpm_value in
    let* t' := calculate_timing_parameters current_rpm actual_fps in
    let* rotation_time := py_div 60 current_rpm in
    Ok (d', current_rpm, t',
        with_rpm r current_rpm rotation_time (py_int (rotation_time * actual_fps)))
  else Ok (d', current_rpm, t, r).

(** Lines 988-995: the chord of the playback mode. *)
Definition playback_chord (r : TurntableScoreRecorder) (frame_count : Z)
  : result chord :=
  match sr_rotations r with
  | [] => Raise IndexError  (* [score_data.get('rotations', [{}])[0]] on [[]] *)
  | first :: _ =>
      match rot_raw_rois first with
      | Some _ => get_playback_notes_from_npy r frame_count
      | None => get_playback_notes r frame_count
      end
  end.

(** Lines 996-1009: the chord of the live mode. *)
Definition live_chord (current_roi_mode scale : string) (scanline_values : list Z)
    (roi_gray : list (list Z)) : result chord :=
  if String.eqb current_roi_mode "circular"
  then process_circular_roi_to_midi_data scanline_values scale
  else process_roi_to_midi_data (roi_gray, scale).

(** Lines 986-1027: the try block that computes, sends and records the
    chord of a frame; every exception is caught and reported.  The result is
    the recorder, the OSC messages sent, and how the block ended. *)
Definition midi_step (playback_mode : bool) (r : TurntableScoreRecorder)
    (frame_count : Z) (current_roi_mode scale : string) (scanline_values : list Z)
    (roi_gray : list (list Z)) (raw_roi_for_record : raw_roi)
    (zodiac_section : option Z)
  : TurntableScoreRecorder * list osc_message * midi_outcome :=
  match (if playback_mode then playback_chord r frame_count
         else live_chord current_roi_mode scale scanline_values roi_gray) with
  | Raise e => (r, [], ErrorCaught e)
  | Ok (midi_notes, velocities, durations) =>
      if (0 <? Z.of_nat (length midi_notes)) then
        match send_midi (Z.of_nat (length midi_notes)) midi_notes velocities
                durations with
        | (sent, Some e) => (r, sent, ErrorCaught e)
        | (sent, None) =>
            (if sr_is_recording r
             then add_notes r frame_count midi_notes velocities durations
                    raw_roi_for_record zodiac_section
             else r,
             sent, Transmitted)
        end
      else (r, [], NothingToSend)
  end.

End MainLoop.

(** Instances for evaluation: a [random.randint] that returns its upper
    bound, a [random.sample] that draws the first elements, and a recorder
    whose score came from a score.json with one stored chord and without raw
    profiles. *)
Definition randint_upper (a b : Z) : Z := b.

Definition draw_first {A : Type} (population : list A) (k : Z) : list A :=
  firstn (Z.to_nat k) population.

Definition json_recorder : TurntableScoreRecorder :=
  mkRecorder 2.5 30 (Some 24%Q) 720 (Some "CPentatonic"%string)
    (Some "circular"%string)
    [mkRotation (Some 0) (Some [mkNoteData 3 [60; 64] [100; 90] [1; 1]%Q])
       (Some []) None]
    (fresh_rotation 0) false 0 1 true None [].

(** Instances for evaluation: a detector that finds ten features in every
    frame, a matcher that pairs the descriptors in order, a transform
    estimate that is a quarter turn, and the angle of that matrix. *)
Definition detect_ten (gray : list (list Z)) (mask : option circle_mask)
  : list keypoint * option (list descriptor) :=
  (repeat (1, 1)%Q 10, Some (repeat [true] 10)).

Definition match_in_order (ref_des cur_des : list descriptor) : list dmatch :=
  map (fun i => mkMatch i i 0) (seq 0 (Nat.min (length ref_des) (length cur_des))).

Definition quarter_turn (ref_pts cur_pts : list keypoint)
  : option ((Q * Q * Q) * (Q * Q * Q)) :=
  Some ((0, -1, 0), (1, 0, 0))%Q.

Definition quarter_turn_degrees (y x : Q) : Q := 90.

Definition detector_with_reference : RotationDetector :=
  fst (set_reference_frame gray_stand_in detect_ten (RotationDetector_init 30 30)
         (Some frame_2x2)).

(** What holds of a detector between calls: a frame rate between 0 and
    10^6, a last angle in the range of arctan2, a buffer no longer than its
    capacity (of at most 10^6 samples), samples between 0 and 30.5 * fps and
    an estimate between 0 and 31 * fps.  Half a turn per frame is exactly
    30 * fps; the bounds leave room for the rounding of the products and of
    the mean. *)
Definition detector_ok (d : RotationDetector) : Prop :=
  (0 <= rd_fps d)%Q /\ (rd_fps d <= 1000000)%Q /\
  (-180 <= last_angle d)%Q /\ (last_angle d <= 180)%Q /\
  (length (rpm_buffer d) <= rd_buffer_size d)%nat /\
  Z.of_nat (rd_buffer_size d) <= 1000000 /\
  Forall (fun x => (0 <= x)%Q /\ (x <= (61 # 2) * rd_fps d)%Q) (rpm_buffer d) /\
  (0 <= rd_rpm d)%Q /\ (rd_rpm d <= 31 * rd_fps d)%Q.

(** ** Invariants used in the proofs *)

(** What the loop over the rows maintains: every candidate is a note of the
    scale, carries the velocity of some row, and passed the threshold. *)
Definition candidate_ok (available : list Z) (vel_range : Q * Q) (vel_threshold : Q)
    (magnitudes : list Q) (c : candidate) : Prop :=
  In (fst c) available /\
  exists m, In m magnitudes /\
            snd c = np_interp m 100 255 (fst vel_range) (snd vel_range) /\
            Qle_bool vel_threshold (snd c) = true.

(** The recorder between [start_recording] at frame [s] and completion. *)
Definition recording_since (s fpr : Z) (r : TurntableScoreRecorder) : Prop :=
  sr_is_recording r = true /\
  sr_recorded_rotations r = 0 /\
  sr_max_rotations r = 1 /\
  sr_frames_per_rotation r = fpr /\
  rot_frame_start (sr_current_rotation r) = Some s.

(** * Properties *)

(** ** Ranges *)

Lemma Zrange_In (n : nat) : forall lo x,
  lo <= x < lo + Z.of_nat n -> In x (Zrange lo n).
Proof.
  induction n as [|k IH]; intros lo x H; simpl.
  - lia.
  - destruct (Z.eq_dec lo x) as [->|Hne]; [now left|right].
    apply IH. lia.
Qed.

Lemma forallb_Zrange (P : Z -> bool) (lo : Z) (n : nat) :
  forallb P (Zrange lo n) = true ->
  forall x, lo <= x < lo + Z.of_nat n -> P x = true.
Proof.
  intros H x Hx. rewrite forallb_forall in H. apply H. now apply Zrange_In.
Qed.

Lemma result_Z_eqb_eq r z : result_Z_eqb r z = true -> r = Ok z.
Proof.
  destruct r as [v|e]; simpl; [|discriminate].
  intros H. apply Z.eqb_eq in H. now subst.
Qed.

(** ** Timing model *)

(** C1. For rpm = 2.5 and fps = 30 the timing model yields
    frames_per_rotation = 720 (and 60 frames per sector), and the 12-sector
    division assigns sector 0 to every frame index in [0,60) and sector 11 to
    every frame index in [660,720).  Both sector computations of the sources
    are covered: the frame-count division of
    [CorrectedAudioProcessor.calculate_current_position] and the angle
    division [int(current_angle / 30.0) % 12] of the main loop. *)
Theorem timing_scenario_sectors :
  (exists t, calculate_timing_parameters 2.5 30 = Ok t /\
             frames_per_rotation t = 720 /\ frames_per_zodiac_section t = 60) /\
  (exists p, scenario_processor = Ok p /\ cap_frames p = Some (720, 60)) /\
  (forall f, 0 <= f < 60 -> processor_sector f = Ok 0 /\ loop_sector f = Ok 0) /\
  (forall f, 660 <= f < 720 -> processor_sector f = Ok 11 /\ loop_sector f = Ok 11).
Proof.
  split; [eexists; split; [reflexivity|split; reflexivity]|].
  split; [eexists; split; reflexivity|].
  split; intros f Hf.
  - assert (H : (result_Z_eqb (processor_sector f) 0
                 && result_Z_eqb (loop_sector f) 0)%bool = true).
    { apply (forallb_Zrange
               (fun x => (result_Z_eqb (processor_sector x) 0
                          && result_Z_eqb (loop_sector x) 0)%bool) 0 60).
      - vm_compute. reflexivity.
      - lia. }
    apply andb_prop in H. destruct H as [H1 H2].
    split; now apply result_Z_eqb_eq.
  - assert (H : (result_Z_eqb (processor_sector f) 11
                 && result_Z_eqb (loop_sector f) 11)%bool = true).
    { apply (forallb_Zrange
               (fun x => (result_Z_eqb (processor_sector x) 11
                          && result_Z_eqb (loop_sector x) 11)%bool) 660 60).
      - vm_compute. reflexivity.
      - lia. }
    apply andb_prop in H. destruct H as [H1 H2].
    split; now apply result_Z_eqb_eq.
Qed.

Lemma timing_scenario_sectors_witness :
  (processor_sector 30 = Ok 0 /\ loop_sector 30 = Ok 0) /\
  (processor_sector 700 = Ok 11 /\ loop_sector 700 = Ok 11).
Proof.
  split.
  - apply (proj1 (proj2 (proj2 timing_scenario_sectors)) 30). lia.
  - apply (proj2 (proj2 (proj2 timing_scenario_sectors)) 700). lia.
Defined.

(** ** Sequences *)

Lemma py_bound_range n i : 0 <= n -> 0 <= py_bound n i <= n.
Proof.
  intros Hn. unfold py_bound. destruct (i <? 0) eqn:E; lia.
Qed.

Lemma In_firstn {A : Type} (x : A) n l : In x (firstn n l) -> In x l.
Proof.
  intros H. rewrite <- (firstn_skipn n l). apply in_or_app. now left.
Qed.

Lemma In_skipn {A : Type} (x : A) n l : In x (skipn n l) -> In x l.
Proof.
  intros H. rewrite <- (firstn_skipn n l). apply in_or_app. now right.
Qed.

Lemma py_slice_incl {A : Type} (l : list A) a b : incl (py_slice l a b) l.
Proof.
  unfold py_slice. intros x Hx.
  apply In_firstn in Hx. now apply In_skipn in Hx.
Qed.

Lemma py_take_length {A : Type} (l : list A) k :
  0 <= k -> Z.of_nat (length (py_take l k)) <= k.
Proof.
  intros Hk. unfold py_take, py_slice.
  pose proof (firstn_le_length
                (Z.to_nat (py_bound (Z.of_nat (length l)) k
                           - py_bound (Z.of_nat (length l)) 0))
                (skipn (Z.to_nat (py_bound (Z.of_nat (length l)) 0)) l)) as Hle.
  assert (H0 : py_bound (Z.of_nat (length l)) 0 = 0).
  { unfold py_bound. simpl. lia. }
  assert (Hk' : py_bound (Z.of_nat (length l)) k <= k).
  { unfold py_bound. destruct (k <? 0) eqn:E; lia. }
  rewrite H0 in *. lia.
Qed.

Lemma stable_insert_perm {A : Type} (gtb : A -> A -> bool) x s :
  Permutation (stable_insert gtb x s) (x :: s).
Proof.
  induction s as [|y s IH]; simpl; [reflexivity|].
  destruct (gtb y x); [|reflexivity].
  rewrite IH. apply perm_swap.
Qed.

Lemma stable_sort_perm {A : Type} (gtb : A -> A -> bool) l :
  Permutation (stable_sort gtb l) l.
Proof.
  induction l as [|x l IH]; simpl; [reflexivity|].
  rewrite stable_insert_perm. now constructor.
Qed.

Lemma Zrange_bounds n : forall lo x, In x (Zrange lo n) -> lo <= x < lo + Z.of_nat n.
Proof.
  induction n as [|k IH]; intros lo x H; simpl in H; [contradiction|].
  destruct H as [<-|H]; [lia|]. apply IH in H. lia.
Qed.

Lemma argmin_from_lt l : forall best bi i,
  (bi < i)%nat -> (argmin_from best bi i l < i + length l)%nat.
Proof.
  induction l as [|x l IH]; intros best bi i H; simpl; [lia|].
  destruct (x <? best).
  - specialize (IH x i (S i)). lia.
  - specialize (IH best bi (S i)). lia.
Qed.

Lemma argmin_lt l : l <> [] -> (argmin l < length l)%nat.
Proof.
  destruct l as [|x l]; [congruence|intros _]. simpl.
  pose proof (argmin_from_lt l x 0%nat 1%nat). lia.
Qed.

(** ** Pixel-to-music mapper *)

Lemma piano_notes_range n : In n piano_notes -> 21 <= n <= 108.
Proof.
  unfold piano_notes, full_piano. rewrite <- in_rev.
  intros H. apply Zrange_bounds in H. lia.
Qed.

Lemma Z_mem_In n l : Z_mem n l = true -> In n l.
Proof.
  unfold Z_mem. rewrite existsb_exists.
  intros [x [Hx E]]. apply Z.eqb_eq in E. now subst.
Qed.

Lemma available_in_scale scale_notes n :
  In n (available_scale_notes scale_notes) -> In n scale_notes /\ 21 <= n <= 108.
Proof.
  unfold available_scale_notes. intros H.
  apply (Permutation_in _ (stable_sort_perm _ _)) in H.
  apply filter_In in H. destruct H as [Hp Hm].
  split; [now apply Z_mem_In|now apply piano_notes_range].
Qed.

Lemma mapped_note_available available i :
  available <> [] -> In (mapped_note available i) available.
Proof.
  intros Hne. unfold mapped_note. apply nth_In.
  rewrite <- (length_map (fun a => Z.abs (a - nth i piano_notes 0)) available).
  apply argmin_lt. destruct available; [congruence|discriminate].
Qed.

Local Ltac case_if :=
  match goal with |- context [if ?b then _ else _] => destruct b eqn:? end.

Lemma add_candidate_ok available vr th mags acc i cs :
  available <> [] ->
  (forall cs0, acc = Ok cs0 -> Forall (candidate_ok available vr th mags) cs0) ->
  add_candidate available vr th mags acc i = Ok cs ->
  Forall (candidate_ok available vr th mags) cs.
Proof.
  intros Hne Hacc. unfold add_candidate.
  destruct acc as [cs0|e]; simpl; [|discriminate]. cbv zeta.
  specialize (Hacc cs0 eq_refl).
  destruct (nth_error mags i) as [m|] eqn:Em; [|discriminate].
  destruct (Qle_bool th _) eqn:Eth.
  - case_if; intros [= <-]; [assumption|].
    apply Forall_app. split; [assumption|].
    constructor; [|constructor].
    split; simpl; [now apply mapped_note_available|].
    exists m. split; [now apply nth_error_In in Em|]. now split.
  - now intros [= <-].
Qed.

Lemma fold_candidates_ok available vr th mags ixs : forall acc cs,
  available <> [] ->
  (forall cs0, acc = Ok cs0 -> Forall (candidate_ok available vr th mags) cs0) ->
  fold_left (add_candidate available vr th mags) ixs acc = Ok cs ->
  Forall (candidate_ok available vr th mags) cs.
Proof.
  induction ixs as [|i ixs IH]; intros acc cs Hne Hacc; simpl.
  - intros H. now apply Hacc.
  - apply IH; [assumption|].
    intros cs0 H0. now apply (add_candidate_ok available vr th mags acc i).
Qed.

Lemma build_candidates_ok available vr th mags cs :
  available <> [] ->
  build_candidates available vr th mags = Ok cs ->
  Forall (candidate_ok available vr th mags) cs.
Proof.
  intros Hne. unfold build_candidates. apply fold_candidates_ok; [assumption|].
  intros cs0 [= <-]. constructor.
Qed.

(** The loop raises only when it runs out of rows. *)
Lemma add_candidate_total available vr th mags cs i :
  (i < length mags)%nat ->
  exists cs', add_candidate available vr th mags (Ok cs) i = Ok cs'.
Proof.
  intros Hi. unfold add_candidate. simpl. cbv zeta.
  destruct (nth_error mags i) as [m|] eqn:Em.
  - repeat case_if; eauto.
  - apply nth_error_None in Em. lia.
Qed.

Lemma fold_candidates_total available vr th mags ixs : forall cs,
  Forall (fun i => (i < length mags)%nat) ixs ->
  exists cs', fold_left (add_candidate available vr th mags) ixs (Ok cs) = Ok cs'.
Proof.
  induction ixs as [|i ixs IH]; intros cs Hall; cbn [fold_left]; [eauto|].
  inversion Hall as [|? ? Hi His]; subst.
  destruct (add_candidate_total available vr th mags cs i Hi) as [cs' ->].
  now apply IH.
Qed.

Lemma build_candidates_total available vr th mags :
  (88 <= length mags)%nat ->
  exists cs, build_candidates available vr th mags = Ok cs.
Proof.
  intros Hlen. unfold build_candidates. apply fold_candidates_total.
  apply Forall_forall. intros i Hi. apply in_seq in Hi. lia.
Qed.

Section MapperFacts.

Variable py_eval : string -> option (list Z).
Variable cv_resize_88 : list (list Z) -> list (list Z).
Variable random_shuffle : list candidate -> list candidate.
Variable random_uniform : nat -> Q.

(** What the two library calls are known to do: the resize returns 88 rows,
    and the shuffle permutes. *)
Hypothesis resize_rows : forall a, length (cv_resize_88 a) = 88%nat.
Hypothesis shuffle_perm : forall l, Permutation (random_shuffle l) l.

Let generate := generate_midi_from_roi py_eval cv_resize_88 random_shuffle random_uniform.

Lemma magnitudes_of_length roi : length (magnitudes_of cv_resize_88 roi) = 88%nat.
Proof.
  unfold magnitudes_of. rewrite length_map.
  destruct (length (invert roi) =? 88)%nat eqn:E.
  - now apply Nat.eqb_eq in E.
  - apply resize_rows.
Qed.

(** The mapper returns, and what it returns is a selection of at most
    [note_count_max] candidates of the loop. *)
Lemma generate_midi_from_roi_spec roi cfg scale_notes :
  resolve_scale py_eval cfg = Ok scale_notes ->
  exists final,
    generate roi cfg =
      Ok (map fst final, map (fun c => py_int (snd c)) final,
          map random_uniform (seq 0 (length final))) /\
    Forall (candidate_ok (available_scale_notes scale_notes)
              (configured_velocity_range cfg) (configured_threshold cfg)
              (magnitudes_of cv_resize_88 roi)) final /\
    (0 <= configured_max_notes cfg ->
     Z.of_nat (length final) <= configured_max_notes cfg).
Proof.
  intros Hscale. unfold generate, generate_midi_from_roi.
  destruct (size2 roi =? 0)%nat.
  { exists []. simpl. repeat split; [constructor|trivial]. }
  rewrite Hscale. cbn [bind].
  fold (configured_max_notes cfg) (configured_threshold cfg)
       (configured_velocity_range cfg).
  destruct (available_scale_notes scale_notes) as [|a0 av] eqn:Eav.
  { exists []. simpl. repeat split; [constructor|trivial]. }
  assert (Hne : a0 :: av <> []) by discriminate.
  destruct (build_candidates_total (a0 :: av) (configured_velocity_range cfg)
              (configured_threshold cfg) (magnitudes_of cv_resize_88 roi))
    as [cs Hcs].
  { rewrite magnitudes_of_length. lia. }
  rewrite Hcs. cbn [bind].
  pose proof (build_candidates_ok _ _ _ _ _ Hne Hcs) as Hok.
  destruct cs as [|c0 cs'].
  { exists []. simpl. repeat split; [constructor|trivial]. }
  match goal with
  | |- context [py_take ?o ?k] => set (ordered := o); exists (py_take ordered k)
  end.
  split; [reflexivity|]. split.
  - assert (Hperm : Permutation ordered (c0 :: cs')).
    { subst ordered. destruct (String.eqb _ _);
        [apply shuffle_perm|apply stable_sort_perm]. }
    rewrite Forall_forall in *. intros c Hc.
    apply Hok. apply (Permutation_in _ Hperm).
    now apply (py_slice_incl ordered 0 (configured_max_notes cfg)).
  - apply py_take_length.
Qed.

End MapperFacts.

Lemma nearest_resize_88_rows a : length (nearest_resize_88 a) = 88%nat.
Proof.
  unfold nearest_resize_88. now rewrite length_map, length_seq.
Qed.

Lemma shuffle_identity_perm l : Permutation (shuffle_identity l) l.
Proof.
  reflexivity.
Qed.

(** C2, as the code has it.  For every intensity profile and scale
    configuration, every MIDI note of the chord belongs to the configured
    scale and to the piano range 21..108, whatever note_count_max is; and for
    every note_count_max that is not negative the chord holds at most
    note_count_max notes. *)
Theorem chord_within_max_notes_and_scale
    (py_eval : string -> option (list Z))
    (cv_resize_88 : list (list Z) -> list (list Z))
    (random_shuffle : list candidate -> list candidate)
    (random_uniform : nat -> Q)
    (resize_rows : forall a, length (cv_resize_88 a) = 88%nat)
    (shuffle_perm : forall l, Permutation (random_shuffle l) l)
    (roi : list (list Z)) (cfg : config) (scale_notes : list Z) :
  resolve_scale py_eval cfg = Ok scale_notes ->
  exists notes velocities durations,
    generate_midi_from_roi py_eval cv_resize_88 random_shuffle random_uniform roi cfg
      = Ok (notes, velocities, durations) /\
    (0 <= configured_max_notes cfg ->
     Z.of_nat (length notes) <= configured_max_notes cfg) /\
    length velocities = length notes /\
    length durations = length notes /\
    Forall (fun n => In n scale_notes /\ 21 <= n <= 108) notes.
Proof.
  intros Hscale.
  destruct (generate_midi_from_roi_spec py_eval cv_resize_88 random_shuffle
              random_uniform resize_rows shuffle_perm roi cfg scale_notes Hscale)
    as [final [Hgen [Hok Hlen]]].
  eexists _, _, _. split; [exact Hgen|].
  rewrite !length_map, length_seq.
  split; [exact Hlen|]. split; [reflexivity|]. split; [reflexivity|].
  apply Forall_map. rewrite Forall_forall in *. intros c Hc.
  destruct (Hok c Hc) as [Hin _].
  now apply available_in_scale.
Qed.

Lemma chord_within_max_notes_and_scale_witness :
  exists notes velocities durations,
    generate_midi_from_roi_inst [[10]; [200]; [90]] default_config
      = Ok (notes, velocities, durations) /\
    (0 <= configured_max_notes default_config ->
     Z.of_nat (length notes) <= configured_max_notes default_config) /\
    length velocities = length notes /\
    length durations = length notes /\
    Forall (fun n => In n full_piano /\ 21 <= n <= 108) notes.
Proof.
  apply (chord_within_max_notes_and_scale eval_raises nearest_resize_88
           shuffle_identity uniform_constant nearest_resize_88_rows
           shuffle_identity_perm [[10]; [200]; [90]] default_config full_piano).
  reflexivity.
Defined.

(** C2, counterexample to the claim as stated: with note_count_max = -1 the
    slice [candidates[:note_count_max]] drops the last candidate only; on the
    all-zero profile, where each of the 88 rows is a candidate, the chord
    holds 87 notes, which is more than note_count_max. *)
Lemma negative_max_notes_exceeds_bound :
  exists notes velocities durations,
    generate_midi_from_roi_inst all_zero_profile (config_max_notes (-1))
      = Ok (notes, velocities, durations) /\
    configured_max_notes (config_max_notes (-1)) = -1 /\
    length notes = 87%nat /\
    configured_max_notes (config_max_notes (-1)) < Z.of_nat (length notes).
Proof.
  eexists _, _, _. split; [vm_compute; reflexivity|].
  split; [reflexivity|]. split; [reflexivity|]. vm_compute. reflexivity.
Qed.

(** When every row has the same magnitude, every candidate has the velocity
    of that magnitude. *)
Lemma uniform_magnitudes_velocity available vr th mags m final :
  (forall x, In x mags -> x = m) ->
  Forall (candidate_ok available vr th mags) final ->
  Forall (fun c => snd c = np_interp m 100 255 (fst vr) (snd vr) /\
                   Qle_bool th (snd c) = true) final.
Proof.
  intros Hm Hok. rewrite Forall_forall in *. intros c Hc.
  destruct (Hok c Hc) as [_ [x [Hx [Hv Hth]]]].
  rewrite (Hm x Hx) in Hv. now split.
Qed.

Lemma magnitudes_all_zero resize x :
  In x (magnitudes_of resize all_zero_profile) -> x = 255%Q.
Proof.
  intros H.
  assert (E : magnitudes_of resize all_zero_profile = repeat 255%Q 88)
    by (vm_compute; reflexivity).
  rewrite E in H. now apply repeat_spec in H.
Qed.

Lemma magnitudes_all_max resize x :
  In x (magnitudes_of resize all_max_profile) -> x = 0%Q.
Proof.
  intros H.
  assert (E : magnitudes_of resize all_max_profile = repeat 0%Q 88)
    by (vm_compute; reflexivity).
  rewrite E in H. now apply repeat_spec in H.
Qed.

(** The two uniform 88-row profiles, as the code has them.  With
    vel_range = [32, 127]: the all-zero profile yields velocities all equal
    to the max bound 127; the all-max profile yields velocities all equal to
    the min bound 32, which the default threshold 32 does not discard (the
    default configuration returns the five notes 108..104 at velocity 32),
    and the chord is empty once the threshold is set above 32. *)
Theorem uniform_profile_velocities
    (py_eval : string -> option (list Z))
    (cv_resize_88 : list (list Z) -> list (list Z))
    (random_shuffle : list candidate -> list candidate)
    (random_uniform : nat -> Q)
    (resize_rows : forall a, length (cv_resize_88 a) = 88%nat)
    (shuffle_perm : forall l, Permutation (random_shuffle l) l)
    (cfg : config) (scale_notes : list Z) :
  configured_velocity_range cfg = (32, 127)%Q ->
  resolve_scale py_eval cfg = Ok scale_notes ->
  (exists notes velocities durations,
      generate_midi_from_roi py_eval cv_resize_88 random_shuffle random_uniform
        all_zero_profile cfg = Ok (notes, velocities, durations) /\
      Forall (eq 127) velocities) /\
  (exists notes velocities durations,
      generate_midi_from_roi py_eval cv_resize_88 random_shuffle random_uniform
        all_max_profile cfg = Ok (notes, velocities, durations) /\
      Forall (eq 32) velocities /\
      ((32 < configured_threshold cfg)%Q ->
       (notes, velocities, durations) = empty_chord)) /\
  generate_midi_from_roi py_eval cv_resize_88 random_shuffle random_uniform
    all_max_profile default_config
  = Ok ([108; 107; 106; 105; 104], [32; 32; 32; 32; 32],
        map random_uniform (seq 0 5)).
Proof.
  intros Hvr Hscale. split; [|split; [|reflexivity]].
  - destruct (generate_midi_from_roi_spec py_eval cv_resize_88 random_shuffle
                random_uniform resize_rows shuffle_perm all_zero_profile cfg
                scale_notes Hscale) as [final [Hgen [Hok _]]].
    eexists _, _, _. split; [exact Hgen|].
    apply (uniform_magnitudes_velocity _ _ _ _ 255%Q) in Hok;
      [|apply magnitudes_all_zero].
    rewrite Hvr in Hok. apply Forall_map.
    rewrite Forall_forall in *. intros c Hc.
    destruct (Hok c Hc) as [-> _]. reflexivity.
  - destruct (generate_midi_from_roi_spec py_eval cv_resize_88 random_shuffle
                random_uniform resize_rows shuffle_perm all_max_profile cfg
                scale_notes Hscale) as [final [Hgen [Hok _]]].
    eexists _, _, _. split; [exact Hgen|].
    apply (uniform_magnitudes_velocity _ _ _ _ 0%Q) in Hok;
      [|apply magnitudes_all_max].
    rewrite Hvr in Hok. split.
    + apply Forall_map. rewrite Forall_forall in *. intros c Hc.
      destruct (Hok c Hc) as [-> _]. reflexivity.
    + intros Hth. destruct final as [|c final']; [reflexivity|exfalso].
      inversion Hok as [|? ? [Hv Hle] _]; subst.
      rewrite Hv in Hle. apply Qle_bool_iff in Hle.
      change (np_interp 0 100 255 (fst (32, 127)%Q) (snd (32, 127)%Q)) with 32%Q in Hle.
      apply (Qlt_not_le _ _ Hth Hle).
Qed.

Lemma uniform_profile_velocities_witness :
  (exists notes velocities durations,
      generate_midi_from_roi_inst all_zero_profile default_config
        = Ok (notes, velocities, durations) /\
      Forall (eq 127) velocities) /\
  (exists notes velocities durations,
      generate_midi_from_roi_inst all_max_profile default_config
        = Ok (notes, velocities, durations) /\
      Forall (eq 32) velocities /\
      ((32 < configured_threshold default_config)%Q ->
       (notes, velocities, durations) = empty_chord)) /\
  generate_midi_from_roi_inst all_max_profile default_config
  = Ok ([108; 107; 106; 105; 104], [32; 32; 32; 32; 32],
        map uniform_constant (seq 0 5)).
Proof.
  apply (uniform_profile_velocities eval_raises nearest_resize_88
           shuffle_identity uniform_constant nearest_resize_88_rows
           shuffle_identity_perm default_config full_piano).
  - reflexivity.
  - reflexivity.
Defined.

(** C6.  With vel_range = [32, 127] and the default threshold (32), the
    all-max profile does not yield an empty chord: every row gets the
    velocity 32, and the test [velocity >= vel_threshold] keeps a velocity
    equal to the threshold, although the comment above it adds a candidate
    when the velocity exceeds the threshold.  The mapper returns the five
    notes 108..104 at velocity 32. *)
Lemma all_max_profile_is_not_silent :
  generate_midi_from_roi_inst all_max_profile default_config
  = Ok ([108; 107; 106; 105; 104], [32; 32; 32; 32; 32],
        [1000; 1000; 1000; 1000; 1000]%Q) /\
  configured_velocity_range default_config = (32, 127)%Q /\
  configured_threshold default_config = 32%Q /\
  Qle_bool (configured_threshold default_config)
    (np_interp 0 100 255 32 127) = true.
Proof.
  repeat split.
Qed.

(** ** Rotation recorder *)

Lemma start_recording_recording r s scale mode session :
  sr_max_rotations r = 1 ->
  recording_since s (sr_frames_per_rotation r) (start_recording r s scale mode session).
Proof.
  intros H. unfold recording_since. simpl. auto.
Qed.

Lemma add_notes_idle r f n v d roi sec :
  sr_is_recording r = false -> add_notes r f n v d roi sec = r.
Proof.
  intros H. unfold add_notes. now rewrite H.
Qed.

Lemma add_notes_recording s fpr r f n v d roi sec :
  recording_since s fpr r -> recording_since s fpr (add_notes r f n v d roi sec).
Proof.
  intros (H1 & H2 & H3 & H4 & H5). unfold add_notes. rewrite H1. simpl.
  unfold recording_since. simpl. auto.
Qed.

Lemma check_idle r f :
  sr_is_recording r = false -> check_rotation_complete r f = (r, false).
Proof.
  intros H. unfold check_rotation_complete. now rewrite H.
Qed.

Lemma check_before_completion s fpr r f :
  recording_since s fpr r -> f - s < fpr ->
  check_rotation_complete r f = (r, false).
Proof.
  intros (H1 & H2 & H3 & H4 & H5) Hlt. unfold check_rotation_complete.
  rewrite H1. simpl. unfold relative_frame. rewrite H5, H4. simpl.
  destruct (fpr <=? f - s) eqn:E; [apply Z.leb_le in E; lia|reflexivity].
Qed.

Lemma save_visual_score_fields r rois :
  sr_is_recording (save_visual_score r rois) = sr_is_recording r /\
  sr_recorded_rotations (save_visual_score r rois) = sr_recorded_rotations r /\
  sr_max_rotations (save_visual_score r rois) = sr_max_rotations r.
Proof.
  unfold save_visual_score.
  destruct (sr_session_path r); [destruct rois|]; simpl; auto.
Qed.

Lemma stop_recording_idle r : sr_is_recording (stop_recording r) = false.
Proof.
  unfold stop_recording. destruct (sr_is_recording r) eqn:E; simpl; [|assumption].
  unfold save_score. simpl. destruct (sr_session_path r); reflexivity.
Qed.

Lemma check_at_completion s fpr r f :
  recording_since s fpr r -> fpr <= f - s ->
  exists r', check_rotation_complete r f = (r', true) /\ sr_is_recording r' = false.
Proof.
  intros (H1 & H2 & H3 & H4 & H5) Hge. unfold check_rotation_complete.
  rewrite H1. simpl. unfold relative_frame. rewrite H5, H4. simpl.
  destruct (fpr <=? f - s) eqn:E; [|apply Z.leb_gt in E; lia].
  rewrite H2. simpl.
  destruct (save_visual_score_fields r
              (get_default (rot_raw_rois (sr_current_rotation r)) []))
    as (_ & G2 & G3).
  rewrite G2, G3, H2, H3. simpl.
  eexists. split; [reflexivity|]. apply stop_recording_idle.
Qed.

Lemma run_calls_idle calls : forall r,
  sr_is_recording r = false ->
  snd (run_calls r calls) = map (fun g => (g, false)) (check_frames calls).
Proof.
  induction calls as [|c calls IH]; intros r H; [reflexivity|].
  destruct c as [f n v d roi sec|f]; simpl.
  - rewrite add_notes_idle by assumption. now apply IH.
  - rewrite check_idle by assumption.
    specialize (IH r H). destruct (run_calls r calls) as [r'' bs]. simpl in *.
    now rewrite IH.
Qed.

Lemma run_calls_recording s fpr calls : forall r,
  recording_since s fpr r ->
  snd (run_calls r calls) = complete_once s fpr (check_frames calls).
Proof.
  induction calls as [|c calls IH]; intros r H; [reflexivity|].
  destruct c as [f n v d roi sec|f]; simpl.
  - apply IH. now apply add_notes_recording.
  - destruct (fpr <=? f - s) eqn:E.
    + apply Z.leb_le in E.
      destruct (check_at_completion s fpr r f H E) as [r' [-> Hidle]].
      pose proof (run_calls_idle calls r' Hidle) as Hrest.
      destruct (run_calls r' calls) as [r'' bs]. simpl in *. now rewrite Hrest.
    + apply Z.leb_gt in E.
      rewrite (check_before_completion s fpr r f H E).
      specialize (IH r H). destruct (run_calls r calls) as [r'' bs]. simpl in *.
      now rewrite IH.
Qed.

(** C5. After [start_recording] at frame s, whatever calls follow,
    [check_rotation_complete] returns true on exactly one call, the first
    whose relative frame index reaches frames_per_rotation, and false on every
    earlier and every later call; [add_notes] on a recorder that is not
    recording changes nothing. *)
Theorem check_complete_true_exactly_once
    (r : TurntableScoreRecorder) (s : Z) (scale mode session : string)
    (calls : list recorder_call) :
  sr_max_rotations r = 1 ->
  snd (run_calls (start_recording r s scale mode session) calls)
    = complete_once s (sr_frames_per_rotation r) (check_frames calls) /\
  (forall r0 f n v d roi sec,
      sr_is_recording r0 = false -> add_notes r0 f n v d roi sec = r0).
Proof.
  intros Hmax. split.
  - apply run_calls_recording. now apply start_recording_recording.
  - intros. now apply add_notes_idle.
Qed.

Lemma check_complete_true_exactly_once_witness :
  snd (run_calls (start_recording recorder_720 100 "CPentatonic" "circular" "session")
         [CallCheck 100; CallAdd 101 [60] [90] [1000%Q] (Scanline [0]) (Some 1);
          CallCheck 819; CallCheck 820; CallCheck 821])
    = complete_once 100 (sr_frames_per_rotation recorder_720)
        (check_frames
           [CallCheck 100; CallAdd 101 [60] [90] [1000%Q] (Scanline [0]) (Some 1);
            CallCheck 819; CallCheck 820; CallCheck 821]) /\
  (forall r0 f n v d roi sec,
      sr_is_recording r0 = false -> add_notes r0 f n v d roi sec = r0).
Proof.
  apply (check_complete_true_exactly_once recorder_720 100).
  reflexivity.
Defined.

(** What [complete_once] says, in so many words: at most one entry is true,
    and it is the first frame that reaches the rotation length. *)
Lemma complete_once_first_hit s fpr checks :
  (forall f, In (f, true) (complete_once s fpr checks) -> fpr <= f - s) /\
  (length (filter snd (complete_once s fpr checks)) <= 1)%nat /\
  ((exists f, In f checks /\ fpr <= f - s) ->
   length (filter snd (complete_once s fpr checks)) = 1%nat).
Proof.
  induction checks as [|g checks (IH1 & IH2 & IH3)]; simpl.
  - repeat split; [contradiction|lia|]. intros [f [[] _]].
  - assert (Hfalse : forall l : list Z,
               filter snd (map (fun g0 => (g0, false)) l) = []).
    { induction l as [|x l IHl]; simpl; auto. }
    destruct (fpr <=? g - s) eqn:E.
    + apply Z.leb_le in E. simpl. rewrite Hfalse. simpl.
      repeat split; [|lia].
      intros f [[= <-]|H]; [assumption|].
      apply in_map_iff in H. destruct H as [x [[= _ ?] _]].
    + apply Z.leb_gt in E. simpl. repeat split.
      * intros f [[= _ ?]|H]; auto.
      * assumption.
      * intros [f [[->|Hin] Hge]]; [lia|]. apply IH3. eauto.
Qed.

(** C4, evaluated on a profiles-only recording: playback does not return a
    chord recomputed from the stored profile.  The profile is selected by
    frame index modulo the number of profiles and handed to
    [process_roi_to_midi_data], which raises on every call. *)
Theorem playback_from_profiles_raises :
  get_playback_notes_from_npy profiles_only_recorder 0 = Raise DeprecationWarning /\
  get_playback_notes_from_npy profiles_only_recorder 1 = Raise DeprecationWarning /\
  get_playback_notes_from_npy profiles_only_recorder 2 = Raise DeprecationWarning.
Proof.
  repeat split.
Qed.

(** On every recorder and frame, playback from raw profiles either has
    nothing to play or raises: no chord ever comes out of it. *)
Lemma playback_from_profiles_never_maps r f :
  get_playback_notes_from_npy r f = Ok empty_chord \/
  get_playback_notes_from_npy r f = Raise DeprecationWarning.
Proof.
  unfold get_playback_notes_from_npy.
  destruct (sr_rotations r) as [|first rest]; [now left|].
  destruct (rot_raw_rois first) as [[|roi0 rois']|]; [now left| |now left].
  cbv zeta.
  destruct (match sr_roi_mode r with
            | Some mode => String.eqb mode "circular"
            | None => false
            end); [|now right].
  destruct (nth _ _ _) as [v|rows]; unfold process_circular_roi_to_midi_data.
  - destruct v; [now left|now right].
  - destruct (map (hd 0) rows); [now left|now right].
Qed.

(** ** Scanline extraction *)

Lemma size2_map {A B : Type} (g : A -> B) (a : list (list A)) :
  size2 (map (map g) a) = size2 a.
Proof.
  unfold size2. rewrite length_map. destruct a as [|row a]; simpl; [reflexivity|].
  now rewrite length_map.
Qed.

Lemma py_slice_empty {A : Type} (l : list A) a : py_slice l a a = [].
Proof.
  unfold py_slice. now rewrite Z.sub_diag.
Qed.

Section ScanlineFacts.

Variable cos_deg sin_deg : Q -> Q.
Variable np_sqrt : Q -> Q.
Variable cvtColor_gray : pixel -> Z.
Variable cv2_rotate : frame -> frame.

(** The radial extraction of fixed_turntable.py keeps the in-frame samples
    only: its profile is never longer than the radius, and it is shorter as
    soon as one sample falls outside the frame. *)
Lemma extract_radial_scanline_length f cx cy angle m scan :
  extract_radial_scanline cos_deg sin_deg np_sqrt f cx cy angle (Some m) = Ok scan ->
  length scan =
    length (filter (in_frame f)
              (map (polar_point cos_deg sin_deg cx cy angle)
                 (Zrange 0 (Z.to_nat (py_int m))))).
Proof.
  unfold extract_radial_scanline.
  destruct (filter _ _) as [|xy valid] eqn:E; intros [= <-]; [reflexivity|].
  simpl. f_equal. apply length_map.
Qed.

Lemma Zrange_length n : forall lo, length (Zrange lo n) = n.
Proof.
  induction n as [|k IH]; intros lo; simpl; [reflexivity|]. now rewrite IH.
Qed.

Lemma Zrange_nth n : forall lo k,
  (k < n)%nat -> nth k (Zrange lo n) 0 = lo + Z.of_nat k.
Proof.
  induction n as [|m IH]; intros lo k Hk; [lia|].
  destruct k as [|k]; simpl; [lia|].
  rewrite IH by lia. lia.
Qed.

(** The radial extraction of corrected_audio_processing.py: one sample per
    integer radius, zero where the point is outside the frame. *)
Lemma extract_roi_pixels_circular_length p f center radius frame_count p' scan info :
  extract_roi_pixels_circular cos_deg sin_deg cvtColor_gray p f center radius
    frame_count = Ok (p', scan, info) ->
  length scan = Z.to_nat radius /\
  forall k, (k < Z.to_nat radius)%nat ->
    in_frame f (polar_point cos_deg sin_deg (fst center) (snd center)
                  (ri_angle info) (Z.of_nat k)) = false ->
    nth k scan 0 = 0.
Proof.
  unfold extract_roi_pixels_circular. destruct center as [cx cy].
  destruct (calculate_current_position p frame_count) as [[p1 pos]|e];
    cbn [bind]; [|discriminate].
  intros [= <- <- <-]. cbn [ri_angle fst snd].
  rewrite !length_map, Zrange_length. split; [reflexivity|].
  intros k Hk Hout.
  set (sample := fun xy : Z * Z =>
                   if in_frame f xy
                   then cvtColor_gray (pixel_at f (snd xy) (fst xy))
                   else 0).
  rewrite map_map.
  rewrite (nth_indep _ 0
             (sample (polar_point cos_deg sin_deg cx cy (angle_degrees pos) 0)))
    by (now rewrite length_map, Zrange_length).
  rewrite (map_nth (fun r => sample (polar_point cos_deg sin_deg cx cy
                                       (angle_degrees pos) r))).
  rewrite Zrange_nth by assumption. rewrite Z.add_0_l.
  unfold sample. now rewrite Hout.
Qed.

(** C7, as the code has it.  The rectangular extraction raises ValueError
    whenever the strip it reads is empty, so it never returns an empty
    profile, and in the full-region mode it rejects a region of height
    zero; both radial extractions return an empty profile for a region of
    length zero, and the circular mapper answers it with the empty chord. *)
Theorem empty_region_handling :
  (forall ap f roi_coords frame_count fps roi_gray region,
      extract_roi_pixels cvtColor_gray cv2_rotate ap f roi_coords frame_count fps
        = Ok (roi_gray, region) ->
      size2 roi_gray <> 0%nat) /\
  (forall ap f x y w frame_count fps,
      ap_zodiac_mode ap = false ->
      extract_roi_pixels cvtColor_gray cv2_rotate ap f (x, y, w, 0) frame_count fps
        = Raise ValueError) /\
  (forall f cx cy angle m,
      py_int m <= 0 ->
      extract_radial_scanline cos_deg sin_deg np_sqrt f cx cy angle (Some m) = Ok []) /\
  (forall p f center radius frame_count p' scan info,
      radius <= 0 ->
      extract_roi_pixels_circular cos_deg sin_deg cvtColor_gray p f center radius
        frame_count = Ok (p', scan, info) ->
      scan = []) /\
  (forall scale, process_circular_roi_to_midi_data [] scale = Ok empty_chord).
Proof.
  split; [|split; [|split; [|split]]].
  - intros ap f [[[x y] w] h] frame_count fps roi_gray region.
    unfold extract_roi_pixels.
    destruct (ap_zodiac_mode ap).
    + destruct (py_floordiv frame_count (fps * ap_time_per_zodiac ap)) as [q|e];
        simpl; [|discriminate].
      destruct (size2 _ =? 0)%nat eqn:E; [discriminate|].
      intros [= <- _]. rewrite size2_map. now apply Nat.eqb_neq in E.
    + simpl. destruct (size2 _ =? 0)%nat eqn:E; [discriminate|].
      intros [= <- _]. rewrite size2_map. now apply Nat.eqb_neq in E.
  - intros ap f x y w frame_count fps Hmode.
    unfold extract_roi_pixels. rewrite Hmode. simpl.
    unfold slice2. rewrite Z.add_0_r, py_slice_empty. reflexivity.
  - intros f cx cy angle m Hm. unfold extract_radial_scanline.
    replace (Z.to_nat (py_int m)) with 0%nat by lia. reflexivity.
  - intros p f center radius frame_count p' scan info Hr H.
    apply extract_roi_pixels_circular_length in H. destruct H as [Hlen _].
    replace (Z.to_nat radius) with 0%nat in Hlen by lia.
    now apply length_zero_iff_nil.
  - reflexivity.
Qed.

End ScanlineFacts.

Lemma extract_roi_pixels_circular_length_witness :
  exists p' scan info,
    extract_roi_pixels_circular cos_at_0 sin_at_0 gray_stand_in
      (mkProcessor 2.5 (Some 30%Q) 24 2 true 88 (Some (720, 60)))
      frame_2x2 (0, 0) 5 0 = Ok (p', scan, info) /\
    length scan = Z.to_nat 5 /\
    forall k, (k < Z.to_nat 5)%nat ->
      in_frame frame_2x2
        (polar_point cos_at_0 sin_at_0 (fst (0, 0)) (snd (0, 0)) (ri_angle info)
           (Z.of_nat k)) = false ->
      nth k scan 0 = 0.
Proof.
  eexists _, _, _. split; [reflexivity|].
  eapply (extract_roi_pixels_circular_length cos_at_0 sin_at_0 gray_stand_in
           (mkProcessor 2.5 (Some 30%Q) 24 2 true 88 (Some (720, 60)))
           frame_2x2 (0, 0) 5 0).
  reflexivity.
Defined.

Lemma empty_region_handling_witness :
  extract_roi_pixels gray_stand_in no_rotation (mkAudioProcessor false 88 30)
    frame_2x2 (0, 0, 5, 0) 0 30 = Raise ValueError /\
  extract_radial_scanline cos_at_0 sin_at_0 sqrt_unused frame_2x2 1 1 0 (Some 0%Q)
    = Ok [].
Proof.
  split.
  - apply (proj1 (proj2 (empty_region_handling cos_at_0 sin_at_0 sqrt_unused
                           gray_stand_in no_rotation))).
    reflexivity.
  - apply (proj1 (proj2 (proj2 (empty_region_handling cos_at_0 sin_at_0 sqrt_unused
                                  gray_stand_in no_rotation)))).
    vm_compute. discriminate.
Defined.

(** C7, counterexample to the claim as stated: for a region of length zero
    both radial extractions return an empty profile as a successful result;
    neither raises. *)
Lemma radial_zero_length_returns_empty_profile :
  extract_radial_scanline cos_at_0 sin_at_0 sqrt_unused frame_2x2 1 1 0 (Some 0%Q)
    = Ok [] /\
  exists p' info,
    (let* p := scenario_processor in
     extract_roi_pixels_circular cos_at_0 sin_at_0 gray_stand_in p frame_2x2 (1, 1) 0 0)
    = Ok (p', [], info).
Proof.
  split; [reflexivity|]. eexists _, _. reflexivity.
Qed.

(** C3, evaluated where the claim fails: at the corner of a 2 x 2 frame,
    along the angle 0 and with max_radius = 5, [extract_radial_scanline]
    returns the two samples inside the frame and drops the three outside it,
    while [extract_roi_pixels_circular] returns five samples, the last three
    zero. *)
Theorem radial_scanline_drops_samples_outside_frame :
  (exists scan,
      extract_radial_scanline cos_at_0 sin_at_0 sqrt_unused frame_2x2 0 0 0 (Some 5%Q)
        = Ok scan /\
      length scan = 2%nat) /\
  (exists p' scan info,
      (let* p := scenario_processor in
       extract_roi_pixels_circular cos_at_0 sin_at_0 gray_stand_in p frame_2x2 (0, 0) 5 0)
        = Ok (p', scan, info) /\
      length scan = 5%nat /\ skipn 2 scan = [0; 0; 0]).
Proof.
  split.
  - eexists. split; reflexivity.
  - eexists _, _, _. split; [reflexivity|]. split; reflexivity.
Qed.

(** ** Rotation estimator *)

Lemma Qle_bool_false x y : Qle_bool x y = false -> (y < x)%Q.
Proof.
  intros H. apply Qnot_le_lt. intros Hle.
  apply Qle_bool_iff in Hle. congruence.
Qed.

(** C8, as the code has it.  [set_reference_frame] has no failure and no
    minimum feature count: it stores what ORB detects within the central
    circular mask (centre (w // 2, h // 2), radius min(w, h) // 3) and resets
    the last angle and the RPM buffer.  Any descriptor set, however small,
    establishes the reference; with no descriptors the reference stays unset,
    a warning is printed and [calculate_rpm] answers 0. *)
Theorem set_reference_applies_no_minimum
    (cvtColor_gray : pixel -> Z)
    (detectAndCompute :
       list (list Z) -> option circle_mask -> list keypoint * option (list descriptor))
    (bf_match : list descriptor -> list descriptor -> list dmatch)
    (estimateAffinePartial2D :
       list keypoint -> list keypoint -> option ((Q * Q * Q) * (Q * Q * Q)))
    (arctan2_degrees : Q -> Q -> Q)
    (d : RotationDetector) (f : frame) :
  let mask := mkMask (frame_width f / 2, frame_height f / 2)
                (Z.min (frame_width f) (frame_height f) / 3) in
  let found := detectAndCompute (map (map cvtColor_gray) f) (Some mask) in
  let after := set_reference_frame cvtColor_gray detectAndCompute d (Some f) in
  set_reference_frame cvtColor_gray detectAndCompute d None = (d, NoFrame) /\
  reference_kp (fst after) = Some (fst found) /\
  reference_des (fst after) = snd found /\
  last_angle (fst after) = 0%Q /\
  rpm_buffer (fst after) = [] /\
  (forall des, snd found = Some des ->
     snd after = ReferenceSet (length (fst found))) /\
  (snd found = None ->
     snd after = NoFeaturesWarning /\
     forall g,
       calculate_rpm cvtColor_gray detectAndCompute bf_match estimateAffinePartial2D
         arctan2_degrees (fst after) g = (fst after, 0%Q)).
Proof.
  cbv zeta. unfold set_reference_frame.
  destruct (detectAndCompute _ _) as [kp [des|]]; simpl;
    repeat split; try reflexivity; try discriminate.
Qed.

(** C8, counterexample to the claim as stated: with three features detected
    in the mask (fewer than 10), [set_reference_frame] does not fail; it
    establishes the reference and reports it set. *)
Lemma reference_set_with_three_features :
  set_reference_frame gray_stand_in detect_three (RotationDetector_init 30 30)
    (Some frame_2x2)
  = (mkDetector 30 30 (Some three_keypoints) (Some three_descriptors) 0 0 [],
     ReferenceSet 3) /\
  (length three_descriptors < 10)%nat.
Proof.
  split; [reflexivity|]. simpl. lia.
Qed.




(** The delta of [angle_delta] is the one [calculate_rpm] turns into an RPM
    sample: when a transform is found, the sample appended to the buffer is
    [rpm_of_delta] of it and the angle becomes the last angle. *)
Lemma calculate_rpm_sample
    (cvtColor_gray : pixel -> Z)
    (detectAndCompute :
       list (list Z) -> option circle_mask -> list keypoint * option (list descriptor))
    (bf_match : list descriptor -> list descriptor -> list dmatch)
    (estimateAffinePartial2D :
       list keypoint -> list keypoint -> option ((Q * Q * Q) * (Q * Q * Q)))
    (arctan2_degrees : Q -> Q -> Q)
    (d : RotationDetector) (f : frame) :
  let d' := fst (calculate_rpm cvtColor_gray detectAndCompute bf_match
                   estimateAffinePartial2D arctan2_degrees d (Some f)) in
  d' = d \/
  rpm_buffer d' =
    deque_append (rd_buffer_size d) (rpm_buffer d)
      (rpm_of_delta (rd_fps d) (angle_delta (last_angle d') (last_angle d))).
Proof.
  cbv zeta. unfold calculate_rpm.
  destruct (reference_des d) as [ref_des|]; [|now left].
  destruct (detectAndCompute _ _) as [kp [cur_des|]]; [|now left].
  destruct (length cur_des <? 10)%nat; [now left|].
  destruct (length _ <? 10)%nat; [now left|].
  destruct (estimateAffinePartial2D _ _) as [[row0 row1]|]; [|now left].
  right. reflexivity.
Qed.

(** ** Linear value mapper *)

Lemma np_clip_bounds lo hi x :
  let y := np_clip lo hi x in
  ((lo <= hi)%Q -> (lo <= y)%Q /\ (y <= hi)%Q) /\
  ((hi < lo)%Q -> y = hi).
Proof.
  cbv zeta. unfold np_clip.
  destruct (Qle_bool lo x) eqn:E1.
  - apply Qle_bool_iff in E1.
    destruct (Qle_bool x hi) eqn:E2.
    + apply Qle_bool_iff in E2. split; [intros _; split; assumption|].
      intros H. lra.
    + apply Qle_bool_false in E2. split; [intros H; split; lra|reflexivity].
  - apply Qle_bool_false in E1.
    destruct (Qle_bool lo hi) eqn:E2.
    + apply Qle_bool_iff in E2. split; [intros _; split; lra|].
      intros H. lra.
    + apply Qle_bool_false in E2. split; [intros H; lra|reflexivity].
Qed.

(** The linear mode over exact arithmetic.  The mapper always returns.
    When input_max equals input_min it returns the midpoint
    (output_min + output_max) / 2 for every element of a float array.  In
    every other case it returns one float per input, each within
    [output_min, output_max] when output_min <= output_max, and each equal to
    output_max when the output range is inverted. *)
Theorem ValMapper_linear_total_and_clipped (m : ValMapper) :
  vm_mode m = "linear"%string ->
  exists out,
    ValMapper_call m = Ok out /\
    ((vm_input_max m - vm_input_min m == 0)%Q ->
     forall xs, vm_input_values m = FloatArray xs ->
       out = FloatArray (repeat ((vm_output_min m + vm_output_max m) / 2)%Q
                           (length xs))) /\
    (~ (vm_input_max m - vm_input_min m == 0)%Q ->
     exists ys,
       out = FloatArray ys /\
       length ys = length (as_floats (vm_input_values m)) /\
       Forall (fun y =>
                 ((vm_output_min m <= vm_output_max m)%Q ->
                  (vm_output_min m <= y)%Q /\ (y <= vm_output_max m)%Q) /\
                 ((vm_output_max m < vm_output_min m)%Q -> y = vm_output_max m))
              ys).
Proof.
  intros Hmode. unfold ValMapper_call. rewrite Hmode. simpl.
  destruct (Qeq_bool (vm_input_max m - vm_input_min m) 0) eqn:E.
  - apply Qeq_bool_iff in E. eexists. split; [reflexivity|]. split.
    + intros _ xs Hxs. now rewrite Hxs.
    + intros Hne. contradiction.
  - apply Qeq_bool_neq in E. eexists. split; [reflexivity|]. split.
    + intros Heq. contradiction.
    + intros _. eexists. split; [reflexivity|]. split.
      * now rewrite !length_map.
      * apply Forall_map. apply Forall_forall. intros x _.
        apply np_clip_bounds.
Qed.

Lemma ValMapper_linear_total_and_clipped_witness :
  exists out,
    ValMapper_call (mkValMapper "linear" (FloatArray [0; 0.5; 1; 3]%Q) 0 1 32 127)
      = Ok out /\
    ((1 - 0 == 0)%Q ->
     forall xs, FloatArray [0; 0.5; 1; 3]%Q = FloatArray xs ->
       out = FloatArray (repeat ((32 + 127) / 2)%Q (length xs))) /\
    (~ (1 - 0 == 0)%Q ->
     exists ys,
       out = FloatArray ys /\
       length ys = length (as_floats (FloatArray [0; 0.5; 1; 3]%Q)) /\
       Forall (fun y =>
                 ((32 <= 127)%Q -> (32 <= y)%Q /\ (y <= 127)%Q) /\
                 ((127 < 32)%Q -> y = 127%Q))
              ys).
Proof.
  apply (ValMapper_linear_total_and_clipped
           (mkValMapper "linear" (FloatArray [0; 0.5; 1; 3]%Q) 0 1 32 127)).
  reflexivity.
Defined.

(** With the output range inverted (output_min = 127, output_max = 32) and
    input_max different from input_min, every output is 32. *)
Lemma inverted_output_range_not_within :
  ValMapper_call (mkValMapper "linear" (FloatArray [0; 1]%Q) 0 1 127 32)
    = Ok (FloatArray [32; 32]%Q) /\
  ~ (127 <= 32)%Q.
Proof.
  split; [reflexivity|]. vm_compute. intros H. now apply H.
Qed.

(** The degenerate range on an integer array: [np.full_like] keeps the
    integer dtype, so the midpoint 0.5 is written as 0. *)
Lemma degenerate_range_on_integer_array :
  ValMapper_call (mkValMapper "linear" (IntArray [5; 5]) 5 5 0 1)
    = Ok (IntArray [0; 0]) /\
  ValMapper_call (mkValMapper "linear" (FloatArray [5; 5]%Q) 5 5 0 1)
    = Ok (FloatArray [(1 # 2); (1 # 2)]%Q).
Proof.
  split; reflexivity.
Qed.

(** C10.  The degenerate input range on an array of integers: the comment
    in the code announces the midpoint, but [np.full_like] keeps the integer
    dtype of the input, so the midpoint (32 + 127) / 2 = 79.5 is written as
    79; on an array of floats the same call returns 79.5. *)
Theorem degenerate_range_truncates_midpoint :
  ValMapper_call (mkValMapper "linear" (IntArray [100; 100]) 100 100 32 127)
    = Ok (IntArray [79; 79]) /\
  ValMapper_call (mkValMapper "linear" (FloatArray [100; 100]%Q) 100 100 32 127)
    = Ok (FloatArray [(159 # 2); (159 # 2)]%Q) /\
  ((32 + 127) / 2 == 159 # 2)%Q.
Proof.
  split; [reflexivity|]. split; reflexivity.
Qed.

(** * Further properties of the code *)

(** ** Truncation *)

Lemma py_int_nonneg q : (0 <= q)%Q -> py_int q = Qfloor q.
Proof.
  destruct q as [n d]. unfold Qle, py_int, Qfloor. simpl. intros H.
  apply Z.quot_div_nonneg; lia.
Qed.

Lemma py_int_nonpos q : (q <= 0)%Q -> py_int q = Qceiling q.
Proof.
  destruct q as [n d]. unfold Qle, py_int, Qceiling, Qfloor. simpl. intros H.
  replace n with (- - n) at 1 by lia.
  rewrite Z.quot_opp_l by lia. f_equal.
  apply Z.quot_div_nonneg; lia.
Qed.

Lemma py_int_monotone x y : (x <= y)%Q -> py_int x <= py_int y.
Proof.
  intros Hxy.
  destruct (Qlt_le_dec x 0) as [Hx|Hx]; destruct (Qlt_le_dec y 0) as [Hy|Hy].
  - rewrite !py_int_nonpos by lra. now apply Qceiling_resp_le.
  - rewrite (py_int_nonpos x), (py_int_nonneg y) by lra.
    assert (Qceiling x <= Qceiling 0) by (apply Qceiling_resp_le; lra).
    assert (Qfloor 0 <= Qfloor y) by (apply Qfloor_resp_le; lra).
    change (Qceiling 0) with 0 in *. change (Qfloor 0) with 0 in *. lia.
  - lra.
  - rewrite !py_int_nonneg by lra. now apply Qfloor_resp_le.
Qed.

Lemma py_int_inject z : py_int (inject_Z z) = z.
Proof.
  unfold py_int. simpl. apply Z.quot_1_r.
Qed.

Lemma py_int_between (lo hi : Z) q :
  (inject_Z lo <= q)%Q -> (q <= inject_Z hi)%Q -> lo <= py_int q <= hi.
Proof.
  intros H1 H2. split.
  - rewrite <- (py_int_inject lo). now apply py_int_monotone.
  - rewrite <- (py_int_inject hi). now apply py_int_monotone.
Qed.

Lemma Qfloor_lower (z : Z) q : (inject_Z z <= q)%Q -> z <= Qfloor q.
Proof.
  intros H. rewrite <- (Qfloor_Z z). now apply Qfloor_resp_le.
Qed.

Lemma inject_Z_le a b : a <= b -> (inject_Z a <= inject_Z b)%Q.
Proof.
  intros H. now rewrite <- Zle_Qle.
Qed.

Lemma inject_Z_lt a b : a < b -> (inject_Z a < inject_Z b)%Q.
Proof.
  intros H. now rewrite <- Zlt_Qlt.
Qed.

(** ** Timing model *)

Lemma py_div_ok a b : ~ (b == 0)%Q -> py_div a b = Ok (a / b)%Q.
Proof.
  intros H. unfold py_div. destruct (Qeq_bool b 0) eqn:E; [|reflexivity].
  apply Qeq_bool_iff in E. contradiction.
Qed.

Lemma py_div_zero a b : (b == 0)%Q -> py_div a b = Raise ZeroDivisionError.
Proof.
  intros H. unfold py_div. apply Qeq_bool_iff in H. now rewrite H.
Qed.

(** X1. A rotation that lasts at least two frames has defined timing.  For
    10^-6 <= rpm <= 30 * fps and fps <= 10^6, [calculate_timing_parameters]
    returns: there is at least one frame per rotation, a sector never takes
    more frames than the rotation, and the angular step is positive and at
    most 360 degrees.  (Exactly, the rotation then has two frames or more;
    the statement claims one, which the rounding of the float product cannot
    break, and the bounds on rpm and fps keep the quotients finite.) *)
Theorem timing_parameters_of_slow_rotation (rpm fps : Q) :
  (1 # 1000000 <= rpm)%Q -> (rpm <= 30 * fps)%Q -> (fps <= 1000000)%Q ->
  exists t,
    calculate_timing_parameters rpm fps = Ok t /\
    t_rpm t = rpm /\
    1 <= frames_per_rotation t /\
    0 <= frames_per_zodiac_section t <= frames_per_rotation t /\
    (0 < degrees_per_frame t)%Q /\ (degrees_per_frame t <= 360)%Q.
Proof.
  intros Hlow Hfps _. unfold calculate_timing_parameters.
  assert (Hrpm : (0 < rpm)%Q) by lra.
  rewrite py_div_ok by lra. cbn [bind].
  set (x := (60 / rpm * fps)%Q).
  assert (Hx : (2 <= x)%Q).
  { unfold x. unfold Qdiv. rewrite <- Qmult_assoc, (Qmult_comm (/ rpm)), Qmult_assoc.
    apply Qle_shift_div_l; lra. }
  assert (Hfpr : py_int x = Qfloor x) by (apply py_int_nonneg; lra).
  assert (H2 : 2 <= Qfloor x) by (apply (Qfloor_lower 2); exact Hx).
  rewrite Hfpr.
  assert (Hpos : (0 < inject_Z (Qfloor x))%Q).
  { change 0%Q with (inject_Z 0). apply inject_Z_lt. lia. }
  assert (Hone : (1 <= inject_Z (Qfloor x))%Q).
  { change 1%Q with (inject_Z 1). apply inject_Z_le. lia. }
  rewrite py_div_ok by lra.
  cbn [bind]. eexists. split; [reflexivity|].
  cbn [t_rpm frames_per_rotation degrees_per_frame frames_per_zodiac_section].
  set (y := (60 / rpm / 12 * fps)%Q).
  assert (Hy : (y == x / 12)%Q) by (unfold x, y; field; lra).
  assert (Hy0 : (0 <= y)%Q) by (rewrite Hy; apply Qle_shift_div_l; lra).
  assert (Hyx : (y <= x)%Q).
  { rewrite Hy. apply Qle_shift_div_r; lra. }
  rewrite (py_int_nonneg y Hy0).
  split; [reflexivity|]. split; [lia|]. split.
  { split; [apply (Qfloor_lower 0); exact Hy0|now apply Qfloor_resp_le]. }
  split.
  - apply Qlt_shift_div_l; lra.
  - apply Qle_shift_div_r; lra.
Qed.

Lemma timing_parameters_of_slow_rotation_witness :
  exists t,
    calculate_timing_parameters 3 25 = Ok t /\
    t_rpm t = 3%Q /\
    1 <= frames_per_rotation t /\
    0 <= frames_per_zodiac_section t <= frames_per_rotation t /\
    (0 < degrees_per_frame t)%Q /\ (degrees_per_frame t <= 360)%Q.
Proof.
  apply (timing_parameters_of_slow_rotation 3 25); vm_compute; congruence.
Defined.

(** X2. The timing computation raises ZeroDivisionError when rpm is zero,
    and also when the rotation is shorter than half a frame
    (rpm >= 120 * fps, with rpm >= 10^-6): the frame count truncates to 0
    and the angular step divides by it.  (Exactly, a rotation shorter than
    one frame is enough; between half a frame and one frame the rounding of
    the float product decides.) *)
Theorem timing_parameters_division_by_zero (rpm fps : Q) :
  (rpm == 0)%Q \/
  ((1 # 1000000 <= rpm)%Q /\ (0 <= fps)%Q /\ (120 * fps <= rpm)%Q) ->
  calculate_timing_parameters rpm fps = Raise ZeroDivisionError.
Proof.
  intros [H0|(Hlow & Hfps & Hfast)]; unfold calculate_timing_parameters.
  - now rewrite py_div_zero.
  - assert (Hrpm : (0 < rpm)%Q) by lra.
    rewrite py_div_ok by lra. cbn [bind].
    set (x := (60 / rpm * fps)%Q).
    assert (Hx0 : (0 <= x)%Q).
    { unfold x. apply Qmult_le_0_compat; [apply Qle_shift_div_l; lra|lra]. }
    assert (Hx1 : (x < 1)%Q).
    { unfold x. unfold Qdiv. rewrite <- Qmult_assoc, (Qmult_comm (/ rpm)), Qmult_assoc.
      apply Qlt_shift_div_r; lra. }
    assert (Hf : py_int x = 0).
    { rewrite py_int_nonneg by exact Hx0.
      assert (0 <= Qfloor x) by (apply (Qfloor_lower 0); exact Hx0).
      assert (Qfloor x < 1).
      { rewrite Zlt_Qlt. pose proof (Qfloor_le x). change (inject_Z 1) with 1%Q. lra. }
      lia. }
    rewrite Hf. reflexivity.
Qed.

Lemma timing_parameters_division_by_zero_witness :
  calculate_timing_parameters 4000 30 = Raise ZeroDivisionError.
Proof.
  apply (timing_parameters_division_by_zero 4000 30).
  right. repeat split; vm_compute; congruence.
Defined.

(** X3. For a frame counter 0 <= frame_count < 2^53 and an angular step
    between 0 and 360 degrees, as [calculate_timing_parameters] returns it
    for a positive rpm, the main loop's angle lies in [0, 360) and its sector
    in 0..11, and the sector is the 30-degree bucket that holds the angle.
    (A negative product is left out: there the float remainder can be 360.0
    itself.) *)
Theorem angle_and_sector_of_frame (t : timing) (frame_count : Z) :
  0 <= frame_count < 2 ^ 53 ->
  (0 <= degrees_per_frame t)%Q -> (degrees_per_frame t <= 360)%Q ->
  let a := current_angle t frame_count in
  let s := zodiac_section_of_angle a in
  (0 <= a)%Q /\ (a < 360)%Q /\ 0 <= s <= 11 /\
  (30 * inject_Z s <= a)%Q /\ (a < 30 * inject_Z (s + 1))%Q.
Proof.
  intros _ _ _. cbv zeta. unfold current_angle, py_fmod.
  set (x := (inject_Z frame_count * degrees_per_frame t)%Q).
  set (q := (x / 360)%Q).
  assert (Hx : (x == 360 * q)%Q) by (unfold q; field).
  pose proof (Qfloor_le q) as Hlo. pose proof (Qlt_floor q) as Hhi.
  rewrite inject_Z_plus in Hhi. change (inject_Z 1) with 1%Q in Hhi.
  set (a := (x - 360 * inject_Z (Qfloor q))%Q).
  assert (Ha0 : (0 <= a)%Q) by (unfold a; lra).
  assert (Ha1 : (a < 360)%Q) by (unfold a; lra).
  unfold zodiac_section_of_angle.
  set (b := (a / 30)%Q).
  assert (Hab : (a == 30 * b)%Q) by (unfold b; field).
  assert (Hb0 : (0 <= b)%Q) by lra.
  rewrite (py_int_nonneg b Hb0).
  pose proof (Qfloor_le b) as Hblo. pose proof (Qlt_floor b) as Hbhi.
  assert (H0 : 0 <= Qfloor b) by (apply (Qfloor_lower 0); exact Hb0).
  assert (H11 : Qfloor b < 12).
  { rewrite Zlt_Qlt. change (inject_Z 12) with 12%Q. lra. }
  rewrite Z.mod_small by lia.
  repeat split; try lia; try lra.
Qed.

Lemma angle_and_sector_of_frame_witness :
  let a := current_angle (mkTiming 2.5 24 2 720 60 0.5) 700 in
  let s := zodiac_section_of_angle a in
  (0 <= a)%Q /\ (a < 360)%Q /\ 0 <= s <= 11 /\
  (30 * inject_Z s <= a)%Q /\ (a < 30 * inject_Z (s + 1))%Q.
Proof.
  apply (angle_and_sector_of_frame (mkTiming 2.5 24 2 720 60 0.5) 700).
  - lia.
  - vm_compute. discriminate.
  - vm_compute. discriminate.
Defined.

(** X4. Once the frame counts are set, with a positive frame count per
    rotation and a non-zero one per sector, the position of any frame is
    defined: the progress lies in [0, 1), the angle in [0, 360), the sector
    in 0..11, and the processor is left as it was. *)
Theorem current_position_bounds (p : CorrectedAudioProcessor) (fpr fpz f : Z) :
  cap_frames p = Some (fpr, fpz) -> 0 < fpr -> fpz <> 0 ->
  exists pos,
    calculate_current_position p f = Ok (p, pos) /\
    (0 <= rotation_progress pos)%Q /\ (rotation_progress pos < 1)%Q /\
    (0 <= angle_degrees pos)%Q /\ (angle_degrees pos < 360)%Q /\
    0 <= zodiac_section pos <= 11.
Proof.
  intros Hfr Hfpr Hfpz. unfold calculate_current_position.
  rewrite Hfr. rewrite Hfr.
  unfold py_mod, py_floordiv.
  destruct (fpr =? 0) eqn:E1; [apply Z.eqb_eq in E1; lia|].
  destruct (fpz =? 0) eqn:E2; [apply Z.eqb_eq in E2; lia|].
  cbn [bind].
  assert (Hn : (0 < inject_Z fpr)%Q).
  { change 0%Q with (inject_Z 0). apply inject_Z_lt. lia. }
  rewrite py_div_ok by lra. cbn [bind].
  eexists. split; [reflexivity|].
  cbn [rotation_progress angle_degrees zodiac_section].
  pose proof (Z.mod_pos_bound f fpr Hfpr) as Hm.
  set (m := f mod fpr) in *.
  assert (Hm0 : (0 <= inject_Z m)%Q).
  { change 0%Q with (inject_Z 0). apply inject_Z_le. lia. }
  assert (Hm1 : (inject_Z m < inject_Z fpr)%Q) by (apply inject_Z_lt; lia).
  assert (Hp0 : (0 <= inject_Z m / inject_Z fpr)%Q)
    by (apply Qle_shift_div_l; lra).
  assert (Hp1 : (inject_Z m / inject_Z fpr < 1)%Q)
    by (apply Qlt_shift_div_r; lra).
  pose proof (Z.mod_pos_bound (f / fpz) 12 ltac:(lia)).
  repeat split; try lra; lia.
Qed.

Lemma current_position_bounds_witness :
  exists pos,
    calculate_current_position
      (mkProcessor 2.5 (Some 30%Q) 24 2 true 88 (Some (725, 60))) 1000
      = Ok (mkProcessor 2.5 (Some 30%Q) 24 2 true 88 (Some (725, 60)), pos) /\
    (0 <= rotation_progress pos)%Q /\ (rotation_progress pos < 1)%Q /\
    (0 <= angle_degrees pos)%Q /\ (angle_degrees pos < 360)%Q /\
    0 <= zodiac_section pos <= 11.
Proof.
  apply (current_position_bounds
           (mkProcessor 2.5 (Some 30%Q) 24 2 true 88 (Some (725, 60))) 725 60 1000).
  - reflexivity.
  - lia.
  - lia.
Defined.

(** X5. The progress and the angle of [calculate_current_position] repeat
    every frames_per_rotation frames, while its sector repeats every
    12 * frames_per_zodiac_section frames: the sector is computed from the
    frame count, not from the angle. *)
Theorem current_position_periods (p : CorrectedAudioProcessor) (fpr fpz f k : Z) :
  cap_frames p = Some (fpr, fpz) -> fpr <> 0 -> fpz <> 0 ->
  exists pos pos_rotation pos_sectors,
    calculate_current_position p f = Ok (p, pos) /\
    calculate_current_position p (f + k * fpr) = Ok (p, pos_rotation) /\
    calculate_current_position p (f + k * (12 * fpz)) = Ok (p, pos_sectors) /\
    rotation_progress pos_rotation = rotation_progress pos /\
    angle_degrees pos_rotation = angle_degrees pos /\
    zodiac_section pos_sectors = zodiac_section pos.
Proof.
  intros Hfr Hfpr Hfpz. unfold calculate_current_position.
  rewrite Hfr. rewrite Hfr.
  unfold py_mod, py_floordiv.
  destruct (fpr =? 0) eqn:E1; [apply Z.eqb_eq in E1; lia|].
  destruct (fpz =? 0) eqn:E2; [apply Z.eqb_eq in E2; lia|].
  cbn [bind].
  assert (Hn : ~ (inject_Z fpr == 0)%Q).
  { intros E. unfold Qeq in E. simpl in E. lia. }
  rewrite !py_div_ok by exact Hn. cbn [bind].
  eexists _, _, _. repeat split;
    cbn [rotation_progress angle_degrees zodiac_section].
  - now rewrite Z.mod_add.
  - now rewrite Z.mod_add.
  - replace (f + k * (12 * fpz)) with (f + (k * 12) * fpz) by lia.
    rewrite Z.div_add by exact Hfpz.
    now rewrite Z.mod_add.
Qed.

Lemma current_position_periods_witness :
  exists pos pos_rotation pos_sectors,
    calculate_current_position
      (mkProcessor 2.5 (Some 30%Q) 24 2 true 88 (Some (725, 60))) 10
      = Ok (mkProcessor 2.5 (Some 30%Q) 24 2 true 88 (Some (725, 60)), pos) /\
    calculate_current_position
      (mkProcessor 2.5 (Some 30%Q) 24 2 true 88 (Some (725, 60))) (10 + 1 * 725)
      = Ok (mkProcessor 2.5 (Some 30%Q) 24 2 true 88 (Some (725, 60)), pos_rotation) /\
    calculate_current_position
      (mkProcessor 2.5 (Some 30%Q) 24 2 true 88 (Some (725, 60))) (10 + 1 * (12 * 60))
      = Ok (mkProcessor 2.5 (Some 30%Q) 24 2 true 88 (Some (725, 60)), pos_sectors) /\
    rotation_progress pos_rotation = rotation_progress pos /\
    angle_degrees pos_rotation = angle_degrees pos /\
    zodiac_section pos_sectors = zodiac_section pos.
Proof.
  apply (current_position_periods
           (mkProcessor 2.5 (Some 30%Q) 24 2 true 88 (Some (725, 60))) 725 60 10 1).
  - reflexivity.
  - lia.
  - lia.
Defined.

(** ** Note names *)

Lemma string_length_app_one s c :
  String.length (s ++ String c EmptyString) = S (String.length s).
Proof.
  induction s as [|b s IH]; simpl; [reflexivity|]. now rewrite IH.
Qed.

Lemma string_get_app_one s c :
  String.get (String.length s) (s ++ String c EmptyString) = Some c.
Proof.
  induction s as [|b s IH]; simpl; [reflexivity|apply IH].
Qed.

Lemma substring_app_prefix s1 s2 :
  substring 0 (String.length s1) (s1 ++ s2) = s1.
Proof.
  induction s1 as [|b s1 IH]; simpl.
  - destruct s2; reflexivity.
  - now rewrite IH.
Qed.

Lemma int_of_digit d :
  0 <= d <= 9 -> int_of_char (ascii_of_nat (48 + Z.to_nat d)) = Ok d.
Proof.
  intros Hd.
  assert (Hc : d = 0 \/ d = 1 \/ d = 2 \/ d = 3 \/ d = 4 \/ d = 5 \/ d = 6
               \/ d = 7 \/ d = 8 \/ d = 9) by lia.
  repeat (destruct Hc as [->|Hc]; [reflexivity|]). subst d. reflexivity.
Qed.

(** A name followed by an octave digit: the digit is read, then the name is
    looked up. *)
Lemma str2midi_app_digit name d :
  name <> EmptyString -> 0 <= d <= 9 ->
  str2midi (name ++ digit_string d) =
    match dict_get note_map name with
    | Some pitch_class => Ok (Z.max 0 (Z.min 127 (pitch_class + (d + 1) * 12)))
    | None => Ok 60
    end.
Proof.
  intros Hne Hd. unfold str2midi, digit_string.
  rewrite string_length_app_one.
  destruct name as [|a rest]; [congruence|].
  cbn [String.length Nat.ltb Nat.leb].
  replace (S (S (String.length rest)) - 1)%nat
    with (String.length (String a rest)) by (simpl; lia).
  rewrite string_get_app_one, substring_app_prefix, int_of_digit by assumption.
  reflexivity.
Qed.

(** X6. [str2midi] returns a MIDI number in 0..127 or raises ValueError (an
    octave character that is not a digit); it returns 60 for a string shorter
    than two characters and for a note name it does not know. *)
Theorem str2midi_range (note_str : string) :
  match str2midi note_str with
  | Ok n => 0 <= n <= 127
  | Raise e => e = ValueError
  end /\
  ((String.length note_str < 2)%nat -> str2midi note_str = Ok 60) /\
  (forall d, 0 <= d <= 9 -> note_str <> EmptyString ->
     dict_get note_map note_str = None ->
     str2midi (note_str ++ digit_string d) = Ok 60).
Proof.
  split; [|split].
  - unfold str2midi.
    destruct (String.length note_str <? 2)%nat; [lia|].
    destruct (String.get _ _) as [c|]; [|lia].
    unfold int_of_char. destruct (_ && _)%bool; cbn [bind]; [|reflexivity].
    destruct (dict_get note_map _); lia.
  - intros H. unfold str2midi.
    destruct (String.length note_str <? 2)%nat eqn:E; [reflexivity|].
    apply Nat.ltb_ge in E. lia.
  - intros d Hd Hne Hnone.
    rewrite str2midi_app_digit by assumption. now rewrite Hnone.
Qed.

Lemma str2midi_range_witness :
  str2midi "H" = Ok 60 /\ str2midi "H4" = Ok 60.
Proof.
  split.
  - apply (proj1 (proj2 (str2midi_range "H"))). simpl. lia.
  - apply (proj2 (proj2 (str2midi_range "H")) 4); [lia|discriminate|reflexivity].
Defined.

(** X7. For each of the twelve note names and each octave digit d, the note
    name followed by the digit is the MIDI number pitch_class + 12 * (d + 1),
    capped at 127; so A0 is 21, C4 is 60 and C8 is 108. *)
Theorem str2midi_of_name_and_octave (name : string) (pitch_class d : Z) :
  In (name, pitch_class) note_map -> 0 <= d <= 9 ->
  str2midi (name ++ digit_string d) = Ok (Z.min 127 (pitch_class + 12 * (d + 1))).
Proof.
  intros Hin Hd.
  assert (H : name <> EmptyString /\ dict_get note_map name = Some pitch_class /\
              0 <= pitch_class <= 11).
  { unfold note_map in Hin. simpl in Hin.
    repeat (destruct Hin as [[= <- <-]|Hin];
            [split; [discriminate|split; [reflexivity|lia]]|]).
    contradiction. }
  destruct H as (Hne & Hget & Hpc).
  rewrite str2midi_app_digit by assumption. rewrite Hget. f_equal. lia.
Qed.

Lemma str2midi_of_name_and_octave_witness :
  str2midi "A0" = Ok 21 /\ str2midi "C4" = Ok 60 /\ str2midi "C8" = Ok 108 /\
  str2midi "G9" = Ok 127.
Proof.
  split; [|split; [|split]].
  - apply (str2midi_of_name_and_octave "A" 9 0); [simpl; tauto|lia].
  - apply (str2midi_of_name_and_octave "C" 0 4); [simpl; tauto|lia].
  - apply (str2midi_of_name_and_octave "C" 0 8); [simpl; tauto|lia].
  - apply (str2midi_of_name_and_octave "G" 7 9); [simpl; tauto|lia].
Defined.

(** ** Scales *)

Lemma stable_insert_le_sorted x s :
  StronglySorted Z.le s -> StronglySorted Z.le (stable_insert Z.ltb x s).
Proof.
  induction s as [|y s IH]; intros Hs; simpl.
  - repeat constructor.
  - inversion Hs as [|? ? Hs' Hall]; subst.
    destruct (y <? x) eqn:E.
    + apply Z.ltb_lt in E. constructor; [now apply IH|].
      rewrite Forall_forall in *. intros z Hz.
      apply (Permutation_in _ (stable_insert_perm Z.ltb x s)) in Hz.
      destruct Hz as [<-|Hz]; [lia|now apply Hall].
    + apply Z.ltb_ge in E. constructor; [assumption|].
      constructor; [assumption|].
      rewrite Forall_forall in *. intros z Hz. specialize (Hall z Hz). lia.
Qed.

Lemma stable_sort_le_sorted l : StronglySorted Z.le (stable_sort Z.ltb l).
Proof.
  induction l as [|x l IH]; simpl; [constructor|].
  now apply stable_insert_le_sorted.
Qed.

Lemma sorted_nodup_strict l :
  StronglySorted Z.le l -> NoDup l -> StronglySorted Z.lt l.
Proof.
  induction l as [|x l IH]; intros Hs Hn; [constructor|].
  inversion Hs as [|? ? Hs' Hall]; subst.
  inversion Hn as [|? ? Hx Hn']; subst.
  constructor; [now apply IH|].
  rewrite Forall_forall in *. intros z Hz.
  specialize (Hall z Hz).
  assert (x <> z) by (intros ->; contradiction). lia.
Qed.

Lemma sorted_set_In l n : In n (sorted_set l) <-> In n l.
Proof.
  unfold sorted_set. split; intros H.
  - apply (Permutation_in _ (stable_sort_perm Z.ltb _)) in H.
    now apply nodup_In in H.
  - apply (Permutation_in _ (Permutation_sym (stable_sort_perm Z.ltb _))).
    now apply nodup_In.
Qed.

Lemma sorted_set_strict l : StronglySorted Z.lt (sorted_set l).
Proof.
  unfold sorted_set. apply sorted_nodup_strict.
  - apply stable_sort_le_sorted.
  - apply (Permutation_NoDup (Permutation_sym (stable_sort_perm Z.ltb _))).
    apply NoDup_nodup.
Qed.

(** X8. [get_scale_notes] returns its notes in strictly increasing order (so
    without repetition), all of them MIDI numbers in 0..127. *)
Theorem get_scale_notes_sorted_in_range (scale_name : string)
    (base_octave num_octaves : Z) :
  StronglySorted Z.lt (get_scale_notes scale_name base_octave num_octaves) /\
  Forall (fun n => 0 <= n <= 127) (get_scale_notes scale_name base_octave num_octaves).
Proof.
  unfold get_scale_notes. split; [apply sorted_set_strict|].
  apply Forall_forall. intros n Hn.
  apply (proj1 (sorted_set_In _ _)) in Hn. apply filter_In in Hn.
  destruct Hn as [_ Hn].
  apply andb_prop in Hn. destruct Hn as [H1 H2].
  apply Z.leb_le in H1. apply Z.leb_le in H2. lia.
Qed.

(** X9. The notes [get_scale_notes] returns are exactly the notes of the
    scale (C Pentatonic when the name is unknown) shifted by whole octaves,
    from base_octave octaves down to num_octaves - 1 octaves up, that are
    MIDI numbers in 0..127. *)
Theorem get_scale_notes_membership (scale_name : string)
    (base_octave num_octaves n : Z) :
  In n (get_scale_notes scale_name base_octave num_octaves) <->
  0 <= n <= 127 /\
  exists b k, In b (effective_scale scale_name) /\
              (- base_octave <= k < 0 \/ 0 <= k < num_octaves) /\
              n = b + 12 * k.
Proof.
  unfold get_scale_notes. rewrite sorted_set_In, filter_In, in_app_iff.
  rewrite !in_flat_map. split.
  - intros [Hin Hr]. apply andb_prop in Hr. destruct Hr as [H1 H2].
    apply Z.leb_le in H1. apply Z.leb_le in H2. split; [lia|].
    destruct Hin as [[i [Hi Hn]]|[i [Hi Hn]]].
    + apply in_map_iff in Hi. destruct Hi as [j [<- Hj]].
      apply Zrange_bounds in Hj.
      apply in_map_iff in Hn. destruct Hn as [b [<- Hb]].
      exists b, (- (j + 1)). split; [assumption|]. split; lia.
    + apply Zrange_bounds in Hi.
      apply in_map_iff in Hn. destruct Hn as [b [<- Hb]].
      exists b, i. split; [assumption|]. split; lia.
  - intros [Hr [b [k [Hb [Hk ->]]]]]. split.
    + destruct Hk as [Hk|Hk].
      * left. exists (base_octave - (- k - 1)). split.
        -- apply in_map. apply Zrange_In. lia.
        -- apply in_map_iff. exists b. split; [lia|assumption].
      * right. exists k. split.
        -- apply Zrange_In. lia.
        -- apply in_map_iff. exists b. split; [lia|assumption].
    + apply andb_true_intro. split; apply Z.leb_le; lia.
Qed.

(** The default call: C Pentatonic over octaves 0 to 7. *)
Lemma get_scale_notes_default :
  get_scale_notes "unknown" 4 4 = get_scale_notes "C Pentatonic" 4 4 /\
  length (get_scale_notes "C Pentatonic" 4 4) = 40%nat /\
  hd 0 (get_scale_notes "C Pentatonic" 4 4) = 12 /\
  last (get_scale_notes "C Pentatonic" 4 4) 0 = 105.
Proof.
  repeat split.
Qed.

(** ** Pixel-to-music mapper: the selection *)

Lemma NoDup_py_slice {A : Type} (l : list A) a b : NoDup l -> NoDup (py_slice l a b).
Proof.
  intros H. unfold py_slice.
  set (j := Z.to_nat (py_bound (Z.of_nat (length l)) a)).
  rewrite <- (firstn_skipn j l) in H. apply NoDup_app_remove_l in H.
  set (k := Z.to_nat _).
  rewrite <- (firstn_skipn k (skipn j l)) in H. now apply NoDup_app_remove_r in H.
Qed.

Lemma py_slice_map {A B : Type} (f : A -> B) (l : list A) a b :
  py_slice (map f l) a b = map f (py_slice l a b).
Proof.
  unfold py_slice. now rewrite length_map, skipn_map, firstn_map.
Qed.

Lemma StronglySorted_skipn {A : Type} (R : A -> A -> Prop) n : forall l,
  StronglySorted R l -> StronglySorted R (skipn n l).
Proof.
  induction n as [|n IH]; intros l H; [assumption|].
  destruct l as [|x l]; [constructor|]. simpl. apply IH.
  now inversion H.
Qed.

Lemma StronglySorted_firstn {A : Type} (R : A -> A -> Prop) n : forall l,
  StronglySorted R l -> StronglySorted R (firstn n l).
Proof.
  induction n as [|n IH]; intros l H; [constructor|].
  destruct l as [|x l]; [constructor|]. simpl.
  inversion H as [|? ? Hs Hall]; subst. constructor; [now apply IH|].
  rewrite Forall_forall in *. intros y Hy. apply Hall.
  now apply In_firstn in Hy.
Qed.

Lemma StronglySorted_py_slice {A : Type} (R : A -> A -> Prop) (l : list A) a b :
  StronglySorted R l -> StronglySorted R (py_slice l a b).
Proof.
  intros H. unfold py_slice.
  now apply StronglySorted_firstn, StronglySorted_skipn.
Qed.

Lemma StronglySorted_map {A B : Type} (R : A -> A -> Prop) (S : B -> B -> Prop)
    (f : A -> B) (l : list A) :
  (forall x y, R x y -> S (f x) (f y)) ->
  StronglySorted R l -> StronglySorted S (map f l).
Proof.
  intros Hf H. induction H as [|x l Hs IH Hall]; simpl; constructor;
    [assumption|].
  apply Forall_map. rewrite Forall_forall in *. intros y Hy. apply Hf, Hall, Hy.
Qed.

(** The candidates come out of the sort by velocity strongest first. *)
Lemma stable_insert_velocity_sorted x s :
  StronglySorted (fun a b : candidate => (snd b <= snd a)%Q) s ->
  StronglySorted (fun a b : candidate => (snd b <= snd a)%Q)
    (stable_insert velocity_gtb x s).
Proof.
  induction s as [|y s IH]; intros Hs; simpl.
  - repeat constructor.
  - inversion Hs as [|? ? Hs' Hall]; subst.
    unfold velocity_gtb at 1.
    destruct (Qle_bool (snd y) (snd x)) eqn:E; simpl.
    + apply Qle_bool_iff in E. constructor; [assumption|].
      constructor; [assumption|].
      rewrite Forall_forall in *. intros z Hz. specialize (Hall z Hz).
      simpl in Hall. lra.
    + apply Qle_bool_false in E. constructor; [now apply IH|].
      rewrite Forall_forall in *. intros z Hz.
      apply (Permutation_in _ (stable_insert_perm velocity_gtb x s)) in Hz.
      destruct Hz as [<-|Hz]; [lra|now apply Hall].
Qed.

Lemma stable_sort_velocity_sorted l :
  StronglySorted (fun a b : candidate => (snd b <= snd a)%Q)
    (stable_sort velocity_gtb l).
Proof.
  induction l as [|x l IH]; simpl; [constructor|].
  now apply stable_insert_velocity_sorted.
Qed.

(** The loop never enters a note twice. *)
Lemma add_candidate_nodup available vr th mags cs0 i cs :
  NoDup (map fst cs0) ->
  add_candidate available vr th mags (Ok cs0) i = Ok cs ->
  NoDup (map fst cs).
Proof.
  intros Hn. unfold add_candidate. simpl. cbv zeta.
  destruct (nth_error mags i) as [m|]; [|discriminate].
  destruct (Qle_bool th _); [|now intros [= <-]].
  destruct (existsb _ cs0) eqn:E; intros [= <-]; [assumption|].
  rewrite map_app. simpl. apply NoDup_app; [assumption|repeat constructor; auto|].
  intros a Ha [<-|[]].
  apply in_map_iff in Ha. destruct Ha as [c [Hc Hin]].
  assert (Hex : existsb (fun c0 : Z * Q => fst c0 =? mapped_note available i) cs0
                = true).
  { apply existsb_exists. exists c. split; [assumption|]. now apply Z.eqb_eq. }
  congruence.
Qed.

Lemma fold_candidates_nodup available vr th mags ixs : forall cs0 cs,
  NoDup (map fst cs0) ->
  fold_left (add_candidate available vr th mags) ixs (Ok cs0) = Ok cs ->
  NoDup (map fst cs).
Proof.
  induction ixs as [|i ixs IH]; intros cs0 cs Hn; cbn [fold_left].
  - now intros [= <-].
  - destruct (add_candidate available vr th mags (Ok cs0) i) as [cs1|e] eqn:E.
    + apply IH. now apply (add_candidate_nodup available vr th mags cs0 i).
    + intros H. exfalso. clear -H.
      induction ixs as [|j ixs IH]; [discriminate|]. now apply IH.
Qed.

Section MapperSelection.

Variable py_eval : string -> option (list Z).
Variable cv_resize_88 : list (list Z) -> list (list Z).
Variable random_shuffle : list candidate -> list candidate.
Variable random_uniform : nat -> Q.

Hypothesis resize_rows : forall a, length (cv_resize_88 a) = 88%nat.
Hypothesis shuffle_perm : forall l, Permutation (random_shuffle l) l.

Let generate := generate_midi_from_roi py_eval cv_resize_88 random_shuffle random_uniform.

(** The two ways the mapper ends: with the empty chord, or with the first
    [note_count_max] of the ordered candidates. *)
Lemma generate_midi_from_roi_cases roi cfg scale_notes :
  resolve_scale py_eval cfg = Ok scale_notes ->
  generate roi cfg = Ok empty_chord \/
  exists candidates,
    build_candidates (available_scale_notes scale_notes)
      (configured_velocity_range cfg) (configured_threshold cfg)
      (magnitudes_of cv_resize_88 roi) = Ok candidates /\
    generate roi cfg =
      Ok (chord_of_candidates random_uniform
            (py_take (if String.eqb (configured_mode cfg) "random"
                      then random_shuffle candidates
                      else stable_sort velocity_gtb candidates)
               (configured_max_notes cfg))).
Proof.
  intros Hscale. unfold generate, generate_midi_from_roi.
  destruct (size2 roi =? 0)%nat; [now left|].
  rewrite Hscale. cbn [bind].
  fold (configured_max_notes cfg) (configured_threshold cfg)
       (configured_velocity_range cfg) (configured_mode cfg).
  destruct (available_scale_notes scale_notes) as [|a0 av] eqn:Eav; [now left|].
  destruct (build_candidates (a0 :: av) _ _ _) as [cs|e] eqn:Ecs.
  - cbn [bind]. destruct cs as [|c0 cs']; [now left|].
    right. eexists. split; reflexivity.
  - exfalso.
    destruct (build_candidates_total (a0 :: av) (configured_velocity_range cfg)
                (configured_threshold cfg) (magnitudes_of cv_resize_88 roi))
      as [cs Hcs].
    + rewrite (magnitudes_of_length cv_resize_88 resize_rows). lia.
    + congruence.
Qed.

(** X10. The chord never holds the same note twice: rows that quantize to
    a pitch already taken are dropped. *)
Theorem chord_notes_distinct roi cfg scale_notes notes velocities durations :
  resolve_scale py_eval cfg = Ok scale_notes ->
  generate roi cfg = Ok (notes, velocities, durations) ->
  NoDup notes.
Proof.
  intros Hscale Hgen.
  destruct (generate_midi_from_roi_cases roi cfg scale_notes Hscale)
    as [He|[cs [Hcs Hg]]].
  - rewrite He in Hgen. injection Hgen as <- _ _. constructor.
  - rewrite Hg in Hgen. unfold chord_of_candidates in Hgen.
    injection Hgen as <- _ _.
    unfold py_take. rewrite <- py_slice_map. apply NoDup_py_slice.
    assert (Hn : NoDup (map fst cs)).
    { unfold build_candidates in Hcs.
      apply (fold_candidates_nodup _ _ _ _ _ [] cs) in Hcs; [assumption|constructor]. }
    destruct (String.eqb _ _).
    + apply (Permutation_NoDup
               (Permutation_map fst (Permutation_sym (shuffle_perm cs))) Hn).
    + apply (Permutation_NoDup
               (Permutation_map fst
                  (Permutation_sym (stable_sort_perm velocity_gtb cs))) Hn).
Qed.

(** X12. Unless the sampling mode is 'random', the velocities of the chord
    are in non-increasing order: the strongest rows are the ones kept. *)
Theorem importance_velocities_descending roi cfg scale_notes notes velocities
    durations :
  resolve_scale py_eval cfg = Ok scale_notes ->
  String.eqb (configured_mode cfg) "random" = false ->
  generate roi cfg = Ok (notes, velocities, durations) ->
  StronglySorted (fun a b => b <= a) velocities.
Proof.
  intros Hscale Hmode Hgen.
  destruct (generate_midi_from_roi_cases roi cfg scale_notes Hscale)
    as [He|[cs [Hcs Hg]]].
  - rewrite He in Hgen. injection Hgen as _ <- _. constructor.
  - rewrite Hg, Hmode in Hgen. unfold chord_of_candidates in Hgen.
    injection Hgen as _ <- _.
    apply (StronglySorted_map (fun a b : candidate => (snd b <= snd a)%Q)).
    + intros x y Hxy. now apply py_int_monotone.
    + apply StronglySorted_py_slice, stable_sort_velocity_sorted.
Qed.

End MapperSelection.

Lemma chord_notes_distinct_witness : NoDup [108; 107; 106; 105; 104].
Proof.
  apply (chord_notes_distinct eval_raises nearest_resize_88 shuffle_identity
           uniform_constant nearest_resize_88_rows shuffle_identity_perm
           [[10]; [200]; [90]] default_config full_piano
           [108; 107; 106; 105; 104] [120; 120; 120; 120; 120]
           [1000; 1000; 1000; 1000; 1000]%Q).
  - reflexivity.
  - reflexivity.
Defined.

Lemma importance_velocities_descending_witness :
  StronglySorted (fun a b => b <= a) [120; 120; 120; 120; 120].
Proof.
  apply (importance_velocities_descending eval_raises nearest_resize_88
           shuffle_identity uniform_constant nearest_resize_88_rows
           [[10]; [200]; [90]] default_config full_piano
           [108; 107; 106; 105; 104] [120; 120; 120; 120; 120]
           [1000; 1000; 1000; 1000; 1000]%Q).
  - reflexivity.
  - reflexivity.
  - reflexivity.
Defined.

Lemma np_interp_bounds x f0 f1 :
  (f0 <= f1)%Q ->
  (f0 <= np_interp x 100 255 f0 f1)%Q /\ (np_interp x 100 255 f0 f1 <= f1)%Q.
Proof.
  intros H. unfold np_interp.
  destruct (Qle_bool x 100) eqn:E1; [split; lra|].
  destruct (Qle_bool 255 x) eqn:E2; [split; lra|].
  apply Qle_bool_false in E1. apply Qle_bool_false in E2.
  set (t := ((x - 100) / 155)%Q).
  assert (Ht : ((f1 - f0) / (255 - 100) * (x - 100) + f0 == (f1 - f0) * t + f0)%Q)
    by (unfold t; field).
  assert (Ht0 : (0 <= t)%Q) by (unfold t; apply Qle_shift_div_l; lra).
  assert (Ht1 : (t <= 1)%Q) by (unfold t; apply Qle_shift_div_r; lra).
  rewrite Ht. split; nra.
Qed.

(** X11. When the configured velocity range is ordered, every velocity of
    the chord lies between its two bounds (truncated to integers) and is not
    below the truncated threshold. *)
Theorem chord_velocities_within_range
    (py_eval : string -> option (list Z))
    (cv_resize_88 : list (list Z) -> list (list Z))
    (random_shuffle : list candidate -> list candidate)
    (random_uniform : nat -> Q)
    (resize_rows : forall a, length (cv_resize_88 a) = 88%nat)
    (shuffle_perm : forall l, Permutation (random_shuffle l) l)
    (roi : list (list Z)) (cfg : config) (scale_notes notes velocities : list Z)
    (durations : list Q) :
  resolve_scale py_eval cfg = Ok scale_notes ->
  (fst (configured_velocity_range cfg) <= snd (configured_velocity_range cfg))%Q ->
  generate_midi_from_roi py_eval cv_resize_88 random_shuffle random_uniform roi cfg
    = Ok (notes, velocities, durations) ->
  Forall (fun v =>
            py_int (fst (configured_velocity_range cfg)) <= v /\
            v <= py_int (snd (configured_velocity_range cfg)) /\
            py_int (configured_threshold cfg) <= v)
         velocities.
Proof.
  intros Hscale Hvr Hgen.
  destruct (generate_midi_from_roi_spec py_eval cv_resize_88 random_shuffle
              random_uniform resize_rows shuffle_perm roi cfg scale_notes Hscale)
    as [final [Hg [Hok _]]].
  rewrite Hg in Hgen. injection Hgen as _ <- _.
  apply Forall_map. rewrite Forall_forall in *. intros c Hc.
  destruct (Hok c Hc) as [_ [m [_ [Hv Hth]]]].
  apply Qle_bool_iff in Hth.
  destruct (np_interp_bounds m _ _ Hvr) as [Hlo Hhi].
  rewrite <- Hv in Hlo, Hhi.
  repeat split; now apply py_int_monotone.
Qed.

Lemma chord_velocities_within_range_witness :
  Forall (fun v => 32 <= v /\ v <= 127 /\ 32 <= v) [120; 120; 120; 120; 120].
Proof.
  apply (chord_velocities_within_range eval_raises nearest_resize_88
           shuffle_identity uniform_constant nearest_resize_88_rows
           shuffle_identity_perm [[10]; [200]; [90]] default_config full_piano
           [108; 107; 106; 105; 104] [120; 120; 120; 120; 120]
           [1000; 1000; 1000; 1000; 1000]%Q).
  - reflexivity.
  - vm_compute. discriminate.
  - reflexivity.
Defined.

Lemma filter_nil_of_none {A : Type} (f : A -> bool) (l : list A) :
  (forall x, In x l -> f x = false) -> filter f l = [].
Proof.
  induction l as [|x l IH]; intros H; simpl; [reflexivity|].
  rewrite (H x (or_introl eq_refl)). apply IH. intros y Hy. apply H. now right.
Qed.

(** X13. "No notes this frame" is a result, not an error: the mapper
    returns the empty chord for an array without elements, for a scale that
    has no pitch in the piano range 21..108, and for a threshold above the
    upper velocity bound. *)
Theorem empty_chord_cases
    (py_eval : string -> option (list Z))
    (cv_resize_88 : list (list Z) -> list (list Z))
    (random_shuffle : list candidate -> list candidate)
    (random_uniform : nat -> Q)
    (resize_rows : forall a, length (cv_resize_88 a) = 88%nat)
    (shuffle_perm : forall l, Permutation (random_shuffle l) l)
    (roi : list (list Z)) (cfg : config) (scale_notes : list Z) :
  resolve_scale py_eval cfg = Ok scale_notes ->
  size2 roi = 0%nat \/
  (forall n, In n scale_notes -> n < 21 \/ 108 < n) \/
  ((fst (configured_velocity_range cfg) <= snd (configured_velocity_range cfg))%Q /\
   (snd (configured_velocity_range cfg) < configured_threshold cfg)%Q) ->
  generate_midi_from_roi py_eval cv_resize_88 random_shuffle random_uniform roi cfg
    = Ok empty_chord.
Proof.
  intros Hscale [Hsize|[Hdisjoint|[Hvr Hth]]].
  - unfold generate_midi_from_roi. now rewrite Hsize.
  - unfold generate_midi_from_roi.
    destruct (size2 roi =? 0)%nat; [reflexivity|].
    rewrite Hscale. cbn [bind].
    assert (Hav : available_scale_notes scale_notes = []).
    { unfold available_scale_notes. rewrite filter_nil_of_none; [reflexivity|].
      intros n Hn. apply piano_notes_range in Hn.
      destruct (Z_mem n scale_notes) eqn:E; [|reflexivity].
      apply Z_mem_In in E. destruct (Hdisjoint n E); lia. }
    now rewrite Hav.
  - destruct (generate_midi_from_roi_spec py_eval cv_resize_88 random_shuffle
                random_uniform resize_rows shuffle_perm roi cfg scale_notes Hscale)
      as [final [Hg [Hok _]]].
    rewrite Hg. destruct final as [|c final]; [reflexivity|exfalso].
    inversion Hok as [|? ? [_ [m [_ [Hv Hle]]]] _]; subst.
    apply Qle_bool_iff in Hle.
    destruct (np_interp_bounds m _ _ Hvr) as [_ Hhi].
    rewrite <- Hv in Hhi. lra.
Qed.

Lemma empty_chord_cases_witness :
  generate_midi_from_roi_inst [[10]; [200]; [90]]
    (mkConfig None
       (Some (mkScales (Some "Low"%string)
                (Some [("Low"%string, Notes [0; 12; 20; 109])]))))
  = Ok empty_chord.
Proof.
  apply (empty_chord_cases eval_raises nearest_resize_88 shuffle_identity
           uniform_constant nearest_resize_88_rows shuffle_identity_perm
           [[10]; [200]; [90]]
           (mkConfig None
              (Some (mkScales (Some "Low"%string)
                       (Some [("Low"%string, Notes [0; 12; 20; 109])]))))
           [0; 12; 20; 109]).
  - reflexivity.
  - right. left. intros n Hn. simpl in Hn.
    destruct Hn as [<-|[<-|[<-|[<-|[]]]]]; lia.
Defined.

(** ** Rotation recorder: recording and playing back *)

Lemma run_calls_app l1 : forall r l2,
  fst (run_calls r (l1 ++ l2)) = fst (run_calls (fst (run_calls r l1)) l2).
Proof.
  induction l1 as [|c l1 IH]; intros r l2; [reflexivity|].
  destruct c as [f n v d roi sec|f]; simpl.
  - apply IH.
  - destruct (check_rotation_complete r f) as [r' b].
    specialize (IH r' l2).
    destruct (run_calls r' (l1 ++ l2)) as [ra bsa].
    destruct (run_calls r' l1) as [rb bsb]. simpl in *. exact IH.
Qed.

(** While no check reaches the rotation length, the calls only extend the
    current rotation. *)
Lemma run_calls_before_completion s fpr calls : forall r ns rs,
  recording_since s fpr r ->
  rot_notes (sr_current_rotation r) = Some ns ->
  rot_raw_rois (sr_current_rotation r) = Some rs ->
  (forall f, In f (check_frames calls) -> f - s < fpr) ->
  let r1 := fst (run_calls r calls) in
  recording_since s fpr r1 /\
  rot_notes (sr_current_rotation r1) = Some (ns ++ added_notes s calls) /\
  rot_raw_rois (sr_current_rotation r1) = Some (rs ++ added_rois calls) /\
  sr_rotations r1 = sr_rotations r /\
  sr_written r1 = sr_written r /\
  sr_session_path r1 = sr_session_path r.
Proof.
  induction calls as [|c calls IH]; intros r ns rs Hrec Hns Hrs Hchk; cbv zeta.
  - simpl. rewrite !app_nil_r. split; [assumption|]. repeat split; auto.
  - destruct c as [f n v d roi sec|f]; simpl.
    + assert (Hstart : rot_frame_start (sr_current_rotation r) = Some s)
        by (destruct Hrec as (_ & _ & _ & _ & H); exact H).
      assert (Hon : sr_is_recording r = true) by (destruct Hrec; assumption).
      specialize (IH (add_notes r f n v d roi sec)
                    (ns ++ [mkNoteData (f - s) n v d]) (rs ++ [roi])).
      cbv zeta in IH. rewrite <- !app_assoc in IH. simpl in IH.
      assert (Hadd : exists secs,
                 add_notes r f n v d roi sec =
                 with_current r
                   (mkRotation (Some s)
                      (Some (ns ++ [mkNoteData (f - s) n v d])) secs
                      (Some (rs ++ [roi])))).
      { unfold add_notes. rewrite Hon. cbn [negb]. cbv zeta.
        unfold relative_frame. rewrite Hstart, Hns, Hrs. simpl.
        eexists. reflexivity. }
      destruct Hadd as [secs Hadd].
      destruct IH as (I1 & I2 & I3 & I4 & I5 & I6).
      * now apply add_notes_recording.
      * rewrite Hadd. reflexivity.
      * rewrite Hadd. reflexivity.
      * intros g Hg. apply Hchk. simpl. exact Hg.
      * split; [exact I1|]. repeat split; try assumption.
        -- rewrite I4, Hadd. reflexivity.
        -- rewrite I5, Hadd. reflexivity.
        -- rewrite I6, Hadd. reflexivity.
    + rewrite (check_before_completion s fpr r f Hrec)
        by (apply Hchk; simpl; now left).
      specialize (IH r ns rs Hrec Hns Hrs).
      cbv zeta in IH.
      destruct (run_calls r calls) as [r1 bs]. simpl in *.
      apply IH. intros g Hg. apply Hchk. now right.
Qed.

(** The check that completes the rotation: the current rotation becomes the
    last of [rotations], the recorder stops, and the files are written. *)
Lemma check_at_completion_state s fpr r f session :
  recording_since s fpr r -> fpr <= f - s ->
  sr_session_path r = Some session ->
  let r' := fst (check_rotation_complete r f) in
  sr_rotations r' = sr_rotations r ++ [sr_current_rotation r] /\
  sr_frames_per_rotation r' = fpr /\
  sr_is_recording r' = false /\
  sr_written r' =
    sr_written r ++
    match get_default (rot_raw_rois (sr_current_rotation r)) [] with
    | [] => []
    | roi :: rois => [VisualScore (roi :: rois)]
    end ++
    [ScoreJson (sr_rotations r ++ [sr_current_rotation r])].
Proof.
  intros (H1 & H2 & H3 & H4 & H5) Hge Hpath. cbv zeta.
  destruct r as [rpm fps rt fpr0 sc rm rots cur isrec recd maxr loaded path written].
  simpl in *. subst.
  unfold check_rotation_complete, relative_frame. simpl. rewrite H5. simpl.
  destruct (fpr <=? f - s) eqn:E; [|apply Z.leb_gt in E; lia].
  unfold save_visual_score. simpl.
  destruct (get_default (rot_raw_rois cur) []) as [|roi rois]; simpl.
  - repeat split; auto.
  - rewrite <- app_assoc. repeat split; auto.
Qed.

(** X14. Record, then play.  On a recorder that holds no rotation yet, start
    a recording at frame s, make any calls that do not complete it, and
    complete it with one check.  Playing back frame g then returns the chord
    of the first [add_notes] whose relative frame is g mod frames_per_rotation,
    and the empty chord when there is none; chords added at a relative frame
    outside [0, frames_per_rotation) are never played. *)
Theorem record_then_play (r : TurntableScoreRecorder) (s c g : Z)
    (scale mode session : string) (calls : list recorder_call) :
  sr_rotations r = [] ->
  sr_max_rotations r = 1 ->
  rot_notes (sr_current_rotation r) = Some [] ->
  rot_raw_rois (sr_current_rotation r) = Some [] ->
  0 < sr_frames_per_rotation r ->
  (forall f, In f (check_frames calls) -> f - s < sr_frames_per_rotation r) ->
  sr_frames_per_rotation r <= c - s ->
  get_playback_notes
    (fst (run_calls (start_recording r s scale mode session)
            (calls ++ [CallCheck c]))) g
  = Ok match find (fun nd => nd_frame nd =? g mod sr_frames_per_rotation r)
               (added_notes s calls) with
       | Some nd => chord_of_note_data nd
       | None => empty_chord
       end.
Proof.
  intros Hrot Hmax Hns Hrs Hfpr Hchk Hc.
  set (fpr := sr_frames_per_rotation r) in *.
  set (r0 := start_recording r s scale mode session).
  assert (Hrec0 : recording_since s fpr r0)
    by (apply start_recording_recording; assumption).
  destruct (run_calls_before_completion s fpr calls r0 [] [] Hrec0 Hns Hrs Hchk)
    as (Hrec1 & Hn1 & Hr1 & Hrot1 & Hw1 & Hp1).
  rewrite run_calls_app.
  set (r1 := fst (run_calls r0 calls)) in *.
  change (fst (run_calls r1 [CallCheck c]))
    with (fst (let '(r', b) := check_rotation_complete r1 c in (r', [(c, b)]))).
  assert (Hfst : fst (let '(r', b) := check_rotation_complete r1 c in (r', [(c, b)]))
                 = fst (check_rotation_complete r1 c))
    by (destruct (check_rotation_complete r1 c); reflexivity).
  rewrite Hfst.
  destruct (check_at_completion_state s fpr r1 c session Hrec1 Hc)
    as (Hrot2 & Hfpr2 & _ & _).
  { rewrite Hp1. reflexivity. }
  unfold get_playback_notes. rewrite Hrot2, Hrot1.
  change (sr_rotations r0) with (sr_rotations r). rewrite Hrot.
  cbn [app]. rewrite Hfpr2. unfold py_mod.
  destruct (fpr =? 0) eqn:E; [apply Z.eqb_eq in E; lia|]. cbn [bind].
  rewrite Hn1. cbn [app].
  destruct (find _ _); reflexivity.
Qed.

Lemma record_then_play_witness :
  get_playback_notes
    (fst (run_calls (start_recording recorder_720 100 "CPentatonic" "circular" "session")
            ([CallAdd 105 [60; 64] [90; 70] [1000; 1200]%Q (Scanline [0; 255]) (Some 1);
              CallCheck 105;
              CallAdd 820 [72] [50] [800%Q] (Scanline [9]) (Some 12)]
             ++ [CallCheck 820]))) (5 + 3 * 720)
  = Ok match find (fun nd => nd_frame nd =? (5 + 3 * 720) mod sr_frames_per_rotation recorder_720)
               (added_notes 100
                  [CallAdd 105 [60; 64] [90; 70] [1000; 1200]%Q (Scanline [0; 255]) (Some 1);
                   CallCheck 105;
                   CallAdd 820 [72] [50] [800%Q] (Scanline [9]) (Some 12)]) with
       | Some nd => chord_of_note_data nd
       | None => empty_chord
       end.
Proof.
  apply (record_then_play recorder_720 100 820 (5 + 3 * 720)).
  - reflexivity.
  - reflexivity.
  - reflexivity.
  - reflexivity.
  - reflexivity.
  - intros f Hf. simpl in Hf. destruct Hf as [<-|[]]. reflexivity.
  - vm_compute. discriminate.
Defined.

(** X15. Nothing is finalized before the rotation is complete, and it is
    finalized once: calls that do not complete the recording leave
    [rotations] as they were, write nothing and keep the recorder recording;
    the completing check appends exactly one rotation, which holds one note
    entry and one raw profile per [add_notes], and stops the recorder.
    (Which files the completing check manages to write is not part of the
    statement.) *)
Theorem recording_finalized_once (r : TurntableScoreRecorder) (s c : Z)
    (scale mode session : string) (calls : list recorder_call) :
  sr_max_rotations r = 1 ->
  rot_notes (sr_current_rotation r) = Some [] ->
  rot_raw_rois (sr_current_rotation r) = Some [] ->
  (forall f, In f (check_frames calls) -> f - s < sr_frames_per_rotation r) ->
  sr_frames_per_rotation r <= c - s ->
  let r0 := start_recording r s scale mode session in
  let r1 := fst (run_calls r0 calls) in
  let r2 := fst (check_rotation_complete r1 c) in
  (sr_rotations r1 = sr_rotations r /\ sr_written r1 = sr_written r /\
   sr_is_recording r1 = true) /\
  (exists finished,
      sr_rotations r2 = sr_rotations r ++ [finished] /\
      rot_frame_start finished = Some s /\
      rot_notes finished = Some (added_notes s calls) /\
      rot_raw_rois finished = Some (added_rois calls) /\
      length (added_notes s calls) = length (added_rois calls)) /\
  sr_is_recording r2 = false.
Proof.
  intros Hmax Hns Hrs Hchk Hc. cbv zeta.
  set (fpr := sr_frames_per_rotation r) in *.
  set (r0 := start_recording r s scale mode session).
  assert (Hrec0 : recording_since s fpr r0)
    by (apply start_recording_recording; assumption).
  destruct (run_calls_before_completion s fpr calls r0 [] [] Hrec0 Hns Hrs Hchk)
    as (Hrec1 & Hn1 & Hr1 & Hrot1 & Hw1 & Hp1).
  set (r1 := fst (run_calls r0 calls)) in *.
  destruct (check_at_completion_state s fpr r1 c session Hrec1 Hc)
    as (Hrot2 & _ & Hoff & Hw2).
  { rewrite Hp1. reflexivity. }
  cbn [app] in Hn1, Hr1.
  split; [|split].
  - repeat split; [exact Hrot1|exact Hw1|apply Hrec1].
  - exists (sr_current_rotation r1). rewrite Hrot2, Hrot1.
    split; [reflexivity|]. split; [apply Hrec1|].
    split; [exact Hn1|]. split; [exact Hr1|].
    clear. induction calls as [|[f n v d roi sec|f] calls IH]; simpl; auto.
  - exact Hoff.
Qed.

Lemma recording_finalized_once_witness :
  let r0 := start_recording recorder_720 100 "CPentatonic" "circular" "session" in
  let calls :=
    [CallAdd 105 [60; 64] [90; 70] [1000; 1200]%Q (Scanline [0; 255]) (Some 1);
     CallCheck 105] in
  let r1 := fst (run_calls r0 calls) in
  let r2 := fst (check_rotation_complete r1 820) in
  (sr_rotations r1 = sr_rotations recorder_720 /\
   sr_written r1 = sr_written recorder_720 /\
   sr_is_recording r1 = true) /\
  (exists finished,
      sr_rotations r2 = sr_rotations recorder_720 ++ [finished] /\
      rot_frame_start finished = Some 100 /\
      rot_notes finished = Some (added_notes 100 calls) /\
      rot_raw_rois finished = Some (added_rois calls) /\
      length (added_notes 100 calls) = length (added_rois calls)) /\
  sr_is_recording r2 = false.
Proof.
  apply (recording_finalized_once recorder_720 100 820).
  - reflexivity.
  - reflexivity.
  - reflexivity.
  - intros f Hf. simpl in Hf. destruct Hf as [<-|[]]. reflexivity.
  - vm_compute. discriminate.
Defined.

(** X16. After score.npy was loaded, [get_playback_notes] cannot play: the
    rotation built from the array has no 'notes' key, so the lookup raises
    KeyError (ZeroDivisionError when frames_per_rotation is 0). *)
Theorem playback_after_npy_load_raises (r : TurntableScoreRecorder)
    (score_array : list (list Z)) (g : Z) :
  get_playback_notes (load_score_npy r score_array) g =
    Raise (if sr_frames_per_rotation r =? 0 then ZeroDivisionError else KeyError).
Proof.
  unfold get_playback_notes, load_score_npy, py_mod. simpl.
  destruct (sr_frames_per_rotation r =? 0); reflexivity.
Qed.

(** ** Scanline extraction: shapes *)

Lemma py_slice_length_le {A : Type} (l : list A) a k :
  0 <= k -> Z.of_nat (length (py_slice l a (a + k))) <= k.
Proof.
  intros Hk. unfold py_slice.
  set (n := Z.of_nat (length l)).
  pose proof (firstn_le_length
                (Z.to_nat (py_bound n (a + k) - py_bound n a))
                (skipn (Z.to_nat (py_bound n a)) l)) as Hle.
  assert (Hn : 0 <= n) by (unfold n; lia).
  assert (Hd : py_bound n (a + k) - py_bound n a <= k).
  { unfold py_bound.
    destruct (a + k <? 0) eqn:E1; destruct (a <? 0) eqn:E2;
      try apply Z.ltb_lt in E1; try apply Z.ltb_ge in E1;
      try apply Z.ltb_lt in E2; try apply Z.ltb_ge in E2; lia. }
  lia.
Qed.

Lemma luma_range b g r :
  0 <= b <= 255 -> 0 <= g <= 255 -> 0 <= r <= 255 ->
  0 <= luma (b, g, r) <= 255.
Proof.
  intros Hb Hg Hr. unfold luma. apply py_int_between.
  - assert (H1 : (0 <= inject_Z b)%Q) by (change 0%Q with (inject_Z 0); now apply inject_Z_le).
    assert (H2 : (0 <= inject_Z g)%Q) by (change 0%Q with (inject_Z 0); now apply inject_Z_le).
    assert (H3 : (0 <= inject_Z r)%Q) by (change 0%Q with (inject_Z 0); now apply inject_Z_le).
    change (inject_Z 0) with 0%Q. lra.
  - assert (H1 : (inject_Z b <= 255)%Q) by (change 255%Q with (inject_Z 255); now apply inject_Z_le).
    assert (H2 : (inject_Z g <= 255)%Q) by (change 255%Q with (inject_Z 255); now apply inject_Z_le).
    assert (H3 : (inject_Z r <= 255)%Q) by (change 255%Q with (inject_Z 255); now apply inject_Z_le).
    change (inject_Z 255) with 255%Q. lra.
Qed.

Lemma filter_length_all {A : Type} (f : A -> bool) (l : list A) :
  (forall x, In x l -> f x = true) -> filter f l = l.
Proof.
  induction l as [|x l IH]; intros H; simpl; [reflexivity|].
  rewrite (H x (or_introl eq_refl)). f_equal. apply IH. intros y Hy. apply H. now right.
Qed.

Section ScanlineShapes.

Variable cos_deg sin_deg : Q -> Q.
Variable np_sqrt : Q -> Q.
Variable cvtColor_gray : pixel -> Z.
Variable cv2_rotate : frame -> frame.

Lemma extract_radial_scanline_eq (f : frame) (cx cy : Z) (angle m : Q) :
  extract_radial_scanline cos_deg sin_deg np_sqrt f cx cy angle (Some m) =
    Ok (map (fun xy => luma (pixel_at f (snd xy) (fst xy)))
          (filter (in_frame f)
             (map (polar_point cos_deg sin_deg cx cy angle)
                (Zrange 0 (Z.to_nat (py_int m)))))).
Proof.
  unfold extract_radial_scanline. destruct (filter _ _); reflexivity.
Qed.

(** X19. [extract_radial_scanline] returns at most int(max_radius) samples,
    exactly that many when every point of the ray is inside the frame, and on
    a frame of 8-bit pixels every sample is a grey level in 0..255. *)
Theorem extract_radial_scanline_shape (f : frame) (cx cy : Z) (angle m : Q)
    (scan : list Z) :
  extract_radial_scanline cos_deg sin_deg np_sqrt f cx cy angle (Some m) = Ok scan ->
  (length scan <= Z.to_nat (py_int m))%nat /\
  ((forall r, 0 <= r < py_int m ->
      in_frame f (polar_point cos_deg sin_deg cx cy angle r) = true) ->
   length scan = Z.to_nat (py_int m)) /\
  (Forall (Forall (fun p : pixel =>
                     0 <= fst (fst p) <= 255 /\ 0 <= snd (fst p) <= 255 /\
                     0 <= snd p <= 255)) f ->
   Forall (fun v => 0 <= v <= 255) scan).
Proof.
  intros H. pose proof (extract_radial_scanline_length cos_deg sin_deg np_sqrt
                          f cx cy angle m scan H) as Hlen.
  split; [|split].
  - rewrite Hlen.
    pose proof (filter_length (in_frame f)
                  (map (polar_point cos_deg sin_deg cx cy angle)
                     (Zrange 0 (Z.to_nat (py_int m))))) as Hf.
    rewrite length_map, Zrange_length in Hf. lia.
  - intros Hall. rewrite Hlen. rewrite filter_length_all.
    + now rewrite length_map, Zrange_length.
    + intros xy Hxy. apply in_map_iff in Hxy. destruct Hxy as [r [<- Hr]].
      apply Hall. apply Zrange_bounds in Hr. lia.
  - intros Hpix. rewrite extract_radial_scanline_eq in H. injection H as <-.
    apply Forall_map. apply Forall_forall. intros p _.
    unfold pixel_at.
    set (row := nth (Z.to_nat (snd p)) f []).
    assert (Hrow : Forall (fun p : pixel =>
                             0 <= fst (fst p) <= 255 /\ 0 <= snd (fst p) <= 255 /\
                             0 <= snd p <= 255) row).
    { unfold row. destruct (nth_in_or_default (Z.to_nat (snd p)) f []) as [Hin| ->].
      - rewrite Forall_forall in Hpix. now apply Hpix.
      - constructor. }
    destruct (nth_in_or_default (Z.to_nat (fst p)) row (0, 0, 0)) as [Hin|Hd].
    + rewrite Forall_forall in Hrow. specialize (Hrow _ Hin).
      destruct (nth (Z.to_nat (fst p)) row (0, 0, 0)) as [[b g] r].
      simpl in Hrow. destruct Hrow as (Hb & Hg & Hr). now apply luma_range.
    + rewrite Hd. apply luma_range; lia.
Qed.

(** X20. In the zodiac mode [extract_roi_pixels] reads the strip of one of
    twelve bands: when it returns, the region it reports is
    (x, y + k * zodiac_range, 1, zodiac_range) for a band k in 0..11, and the
    profile has at most zodiac_range rows of at most one pixel. *)
Theorem extract_roi_pixels_band (ap : AudioProcessor) (f : frame)
    (x y w h frame_count fps : Z) (roi_gray : list (list Z)) (region : Z * Z * Z * Z) :
  ap_zodiac_mode ap = true -> 0 <= ap_zodiac_range ap ->
  extract_roi_pixels cvtColor_gray cv2_rotate ap f (x, y, w, h) frame_count fps
    = Ok (roi_gray, region) ->
  (exists k, 0 <= k <= 11 /\
             k = (frame_count / (fps * ap_time_per_zodiac ap)) mod 12 /\
             region = (x, y + k * ap_zodiac_range ap, 1, ap_zodiac_range ap)) /\
  Z.of_nat (length roi_gray) <= ap_zodiac_range ap /\
  Forall (fun row => (length row <= 1)%nat) roi_gray.
Proof.
  intros Hmode Hzr. unfold extract_roi_pixels. rewrite Hmode.
  unfold py_floordiv.
  destruct (fps * ap_time_per_zodiac ap =? 0); cbn [bind]; [discriminate|].
  destruct (size2 _ =? 0)%nat; [discriminate|].
  intros [= <- <-].
  set (k := (frame_count / (fps * ap_time_per_zodiac ap)) mod 12).
  split; [|split].
  - exists k. split; [|split; reflexivity].
    pose proof (Z.mod_pos_bound (frame_count / (fps * ap_time_per_zodiac ap)) 12
                  ltac:(lia)). unfold k. lia.
  - unfold slice2. rewrite !length_map. now apply py_slice_length_le.
  - unfold slice2. rewrite map_map. apply Forall_map. apply Forall_forall.
    intros row _. rewrite length_map.
    pose proof (py_slice_length_le row x 1 ltac:(lia)). lia.
Qed.

End ScanlineShapes.

Lemma extract_radial_scanline_shape_witness :
  (length [21%Z; 21%Z] <= Z.to_nat (py_int 5))%nat /\
  ((forall r, 0 <= r < py_int 5 ->
      in_frame frame_2x2 (polar_point cos_at_0 sin_at_0 0 0 0 r) = true) ->
   length [21; 21] = Z.to_nat (py_int 5)) /\
  (Forall (Forall (fun p : pixel =>
                     0 <= fst (fst p) <= 255 /\ 0 <= snd (fst p) <= 255 /\
                     0 <= snd p <= 255)) frame_2x2 ->
   Forall (fun v => 0 <= v <= 255) [21; 21]).
Proof.
  apply (extract_radial_scanline_shape cos_at_0 sin_at_0 sqrt_unused frame_2x2 0 0 0 5).
  reflexivity.
Defined.

Lemma extract_roi_pixels_band_witness :
  (exists k, 0 <= k <= 11 /\
             k = (0 / (30 * ap_time_per_zodiac AudioProcessor_init)) mod 12 /\
             (0, 0, 1, 88) =
               (0, 0 + k * ap_zodiac_range AudioProcessor_init, 1,
                ap_zodiac_range AudioProcessor_init)) /\
  Z.of_nat (length [[21%Z]; [21%Z]]) <= ap_zodiac_range AudioProcessor_init /\
  Forall (fun row : list Z => (length row <= 1)%nat) [[21]; [21]].
Proof.
  apply (extract_roi_pixels_band gray_stand_in no_rotation AudioProcessor_init
           frame_2x2 0 0 0 0 0 30 [[21]; [21]] (0, 0, 1, 88)).
  - reflexivity.
  - simpl. lia.
  - reflexivity.
Defined.

(** ** Rotation estimator: degraded frames and bounds *)

Lemma angle_delta_bounds angle last :
  (-180 <= angle)%Q -> (angle <= 180)%Q -> (-180 <= last)%Q -> (last <= 180)%Q ->
  (-180 <= angle_delta angle last)%Q /\ (angle_delta angle last <= 180)%Q.
Proof.
  intros Ha1 Ha2 Hl1 Hl2. unfold angle_delta.
  destruct (Qle_bool (angle - last) 180) eqn:E1; cbn [negb].
  - destruct (Qle_bool (-180) (angle - last)) eqn:E2; cbn [negb].
    + apply Qle_bool_iff in E1. apply Qle_bool_iff in E2. now split.
    + apply Qle_bool_false in E2. split; lra.
  - apply Qle_bool_false in E1. split; lra.
Qed.

Lemma rpm_of_delta_bounds fps delta :
  (0 <= fps)%Q -> (-180 <= delta)%Q -> (delta <= 180)%Q ->
  (0 <= rpm_of_delta fps delta)%Q /\ (rpm_of_delta fps delta <= 30 * fps)%Q.
Proof.
  intros Hf H1 H2. unfold rpm_of_delta. split; [apply Qabs_nonneg|].
  apply Qabs_Qle_condition.
  assert (E : (delta * fps / 6 == delta * fps * (1 # 6))%Q) by field.
  rewrite E. split; nra.
Qed.

Lemma deque_append_length maxlen buffer x :
  (length (deque_append maxlen buffer x) <= maxlen)%nat /\
  ((0 < maxlen)%nat -> (0 < length (deque_append maxlen buffer x))%nat).
Proof.
  unfold deque_append. rewrite length_skipn, length_app. simpl. lia.
Qed.

Lemma deque_append_Forall (P : Q -> Prop) maxlen buffer x :
  Forall P buffer -> P x -> Forall P (deque_append maxlen buffer x).
Proof.
  intros Hb Hx. unfold deque_append. apply Forall_forall. intros y Hy.
  apply In_skipn in Hy. apply in_app_or in Hy.
  destruct Hy as [Hy|[<-|[]]]; [|assumption].
  rewrite Forall_forall in Hb. now apply Hb.
Qed.

Lemma sum_bounds (B : Q) l :
  Forall (fun x => (0 <= x)%Q /\ (x <= B)%Q) l ->
  (0 <= fold_right Qplus 0 l)%Q /\
  (fold_right Qplus 0 l <= inject_Z (Z.of_nat (length l)) * B)%Q.
Proof.
  induction l as [|x l IH]; intros H.
  - cbn [fold_right length Z.of_nat]. change (inject_Z 0) with 0%Q. split; lra.
  - inversion H as [|? ? [Hx0 HxB] Hl]; subst. destruct (IH Hl) as [I0 IB].
    cbn [fold_right length]. rewrite Nat2Z.inj_succ. unfold Z.succ.
    rewrite inject_Z_plus. change (inject_Z 1) with 1%Q. split; lra.
Qed.

Lemma np_mean_Q_bounds (B : Q) l :
  (0 < length l)%nat ->
  Forall (fun x => (0 <= x)%Q /\ (x <= B)%Q) l ->
  (0 <= np_mean_Q l)%Q /\ (np_mean_Q l <= B)%Q.
Proof.
  intros Hlen H. destruct (sum_bounds B l H) as [S0 SB]. unfold np_mean_Q.
  assert (Hn : (0 < inject_Z (Z.of_nat (length l)))%Q).
  { change 0%Q with (inject_Z 0). apply inject_Z_lt. lia. }
  split.
  - apply Qle_shift_div_l; lra.
  - apply Qle_shift_div_r; [assumption|]. lra.
Qed.

Lemma calculate_timing_parameters_defined (rpm fps : Q) (k : Z) :
  (0 < rpm)%Q -> 1 <= k -> (inject_Z k <= 60 / rpm * fps)%Q ->
  exists t,
    calculate_timing_parameters rpm fps = Ok t /\
    frames_per_rotation t = py_int (60 / rpm * fps) /\
    k <= frames_per_rotation t /\ t_rpm t = rpm.
Proof.
  intros Hrpm Hk Hx. unfold calculate_timing_parameters.
  rewrite py_div_ok by lra. cbn [bind].
  set (x := (60 / rpm * fps)%Q) in *.
  assert (Hx0 : (0 <= x)%Q).
  { assert (H0 : (inject_Z 0 <= inject_Z k)%Q) by (apply inject_Z_le; lia).
    change (inject_Z 0) with 0%Q in H0. lra. }
  assert (Hfl : k <= Qfloor x) by (apply Qfloor_lower; exact Hx).
  rewrite (py_int_nonneg x Hx0).
  rewrite py_div_ok.
  2:{ intros E. assert (Hlt : (inject_Z 0 < inject_Z (Qfloor x))%Q)
        by (apply inject_Z_lt; lia).
      change (inject_Z 0) with 0%Q in Hlt. lra. }
  cbn [bind]. eexists. split; [reflexivity|].
  cbn [frames_per_rotation t_rpm]. repeat split. exact Hfl.
Qed.

Section RotationFacts.

Variable cvtColor_gray : pixel -> Z.
Variable detectAndCompute :
  list (list Z) -> option circle_mask -> list keypoint * option (list descriptor).
Variable bf_match : list descriptor -> list descriptor -> list dmatch.
Variable estimateAffinePartial2D :
  list keypoint -> list keypoint -> option ((Q * Q * Q) * (Q * Q * Q)).
Variable arctan2_degrees : Q -> Q -> Q.

(** The range of arctan2 in degrees. *)
Hypothesis arctan2_range :
  forall y x, (-180 <= arctan2_degrees y x)%Q /\ (arctan2_degrees y x <= 180)%Q.

Let rpm_of := calculate_rpm cvtColor_gray detectAndCompute bf_match
                estimateAffinePartial2D arctan2_degrees.

(** X21. A frame that cannot be used does not disturb the estimate: without
    a reference or without a frame [calculate_rpm] answers 0.0, and with no
    descriptors, fewer than 10 descriptors or fewer than 10 matches it
    answers the stored RPM; in all these cases the detector (last angle and
    buffer included) stays as it was. *)
Theorem calculate_rpm_holds_last_value (d : RotationDetector) (f : frame) :
  (reference_des d = None -> rpm_of d (Some f) = (d, 0%Q)) /\
  rpm_of d None = (d, 0%Q) /\
  (forall ref_des,
     reference_des d = Some ref_des ->
     match snd (detectAndCompute (map (map cvtColor_gray) f) None) with
     | None => True
     | Some cur_des =>
         (length cur_des < 10)%nat \/ (length (bf_match ref_des cur_des) < 10)%nat
     end ->
     rpm_of d (Some f) = (d, rd_rpm d)).
Proof.
  unfold rpm_of, calculate_rpm. split; [|split].
  - intros H. now rewrite H.
  - destruct (reference_des d); reflexivity.
  - intros ref_des Href Hcase. rewrite Href.
    destruct (detectAndCompute _ _) as [kp [cur_des|]]; [|reflexivity].
    simpl in Hcase.
    destruct (length cur_des <? 10)%nat eqn:E1; [reflexivity|].
    apply Nat.ltb_ge in E1. destruct Hcase as [Hc|Hc]; [lia|].
    match goal with
    | |- context [firstn 25 ?l] =>
        assert (Hlen : length (firstn 25 l) = Nat.min 25 (length (bf_match ref_des cur_des)))
          by (rewrite length_firstn; f_equal;
              apply Permutation_length, stable_sort_perm)
    end.
    rewrite Hlen.
    destruct (Nat.min 25 _ <? 10)%nat eqn:E2; [reflexivity|].
    apply Nat.ltb_ge in E2. lia.
Qed.

Lemma calculate_rpm_bounds (d : RotationDetector) (f : option frame) :
  (0 < rd_buffer_size d)%nat -> detector_ok d ->
  detector_ok (fst (rpm_of d f)) /\
  (0 <= snd (rpm_of d f))%Q /\ (snd (rpm_of d f) <= 31 * rd_fps d)%Q.
Proof.
  intros Hsize (Hfps & Hfmax & Hl1 & Hl2 & Hlen & Hcapacity & Hbuf & Hr0 & Hr1).
  assert (Hd : detector_ok d) by (unfold detector_ok; auto 12).
  assert (Hzero : (0 <= 31 * rd_fps d)%Q) by lra.
  split; [|split].
  all: unfold rpm_of, calculate_rpm.
  all: destruct (reference_des d) as [ref_des|]; [|simpl; auto; lra].
  all: destruct f as [f|]; [|simpl; auto; lra].
  all: destruct (detectAndCompute _ _) as [kp [cur_des|]]; [|simpl; auto].
  all: destruct (length cur_des <? 10)%nat; [simpl; auto|].
  all: destruct (length _ <? 10)%nat; [simpl; auto|].
  all: destruct (estimateAffinePartial2D _ _) as [[row0 row1]|]; [|simpl; auto].
  all: cbn [fst snd].
  all: set (angle := arctan2_degrees (fst (fst row1)) (fst (fst row0))).
  all: destruct (arctan2_range (fst (fst row1)) (fst (fst row0))) as [Ha1 Ha2].
  all: fold angle in Ha1, Ha2.
  all: destruct (angle_delta_bounds angle (last_angle d) Ha1 Ha2 Hl1 Hl2) as [Hd1 Hd2].
  all: destruct (rpm_of_delta_bounds (rd_fps d) _ Hfps Hd1 Hd2) as [Hs0 Hs1].
  all: set (sample := rpm_of_delta (rd_fps d) (angle_delta angle (last_angle d))) in *.
  all: assert (Hs2 : (sample <= (61 # 2) * rd_fps d)%Q) by lra.
  all: destruct (deque_append_length (rd_buffer_size d) (rpm_buffer d) sample)
         as [Hcap Hpos].
  all: pose proof (deque_append_Forall
                     (fun x => (0 <= x)%Q /\ (x <= (61 # 2) * rd_fps d)%Q)
                     (rd_buffer_size d) (rpm_buffer d) sample Hbuf (conj Hs0 Hs2))
         as Hall.
  all: destruct (np_mean_Q_bounds ((61 # 2) * rd_fps d) _ (Hpos Hsize) Hall)
         as [Hm0 Hm1].
  - unfold detector_ok. cbn [rd_fps last_angle rpm_buffer rd_buffer_size rd_rpm].
    repeat split; try assumption. lra.
  - exact Hm0.
  - lra.
Qed.

(** X22. The estimate stays within physical bounds.  With arctan2 in
    [-180, 180] and a positive buffer capacity, [detector_ok] is an invariant
    of the detector: it holds of a fresh detector with the same frame rate
    and capacity, and a detector that satisfies it still does after
    [calculate_rpm] and after [set_reference_frame]; the RPM that
    [calculate_rpm] returns then lies between 0 and 31 * fps, whatever the
    matcher and the transform estimate deliver.  (Half a turn per frame is
    30 * fps; the bound 31 * fps holds of the rounded products too.  Matched
    indexes are read with a default, as in the definition of
    [calculate_rpm].) *)
Theorem rpm_estimate_bounded (d : RotationDetector) (f g : option frame) :
  (0 < rd_buffer_size d)%nat -> detector_ok d ->
  detector_ok (fst (rpm_of d f)) /\
  (0 <= snd (rpm_of d f))%Q /\ (snd (rpm_of d f) <= 31 * rd_fps d)%Q /\
  detector_ok (fst (set_reference_frame cvtColor_gray detectAndCompute d g)) /\
  detector_ok (RotationDetector_init (rd_fps d) (rd_buffer_size d)).
Proof.
  intros Hsize Hd.
  destruct (calculate_rpm_bounds d f Hsize Hd) as (H1 & H2 & H3).
  destruct Hd as (Hfps & Hfmax & Hl1 & Hl2 & Hlen & Hcapacity & Hbuf & Hr0 & Hr1).
  assert (Hd : detector_ok d) by (unfold detector_ok; auto 12).
  split; [exact H1|]. split; [exact H2|]. split; [exact H3|]. split.
  - unfold set_reference_frame. destruct g as [g|]; [|exact Hd].
    destruct (detectAndCompute _ _) as [kp [des|]]; cbn [fst];
      unfold detector_ok;
      cbn [rd_fps last_angle rpm_buffer rd_buffer_size rd_rpm length];
      (split; [assumption|]); (split; [assumption|]); (split; [lra|]);
      (split; [lra|]); (split; [lia|]); (split; [assumption|]);
      (split; [constructor|]); split; assumption.
  - unfold detector_ok, RotationDetector_init.
    cbn [rd_fps last_angle rpm_buffer rd_buffer_size rd_rpm length].
    (split; [assumption|]); (split; [assumption|]); (split; [lra|]);
    (split; [lra|]); (split; [lia|]); (split; [assumption|]);
    (split; [constructor|]); split; lra.
Qed.

(** X23. The detected RPM never breaks the timing.  In the main loop the
    RPM returned by [calculate_rpm] replaces the timing parameters when it
    exceeds 0.5; the detector was created with the frame rate of the camera,
    so the RPM is at most 31 * fps and [calculate_timing_parameters] does not
    divide by zero on it: the update returns, and either nothing changed or
    the new timing and the recorder agree on a rotation of at least one
    frame.  (Exactly, the rotation has at least 60/31 frames, which the
    rounding of the float product cannot bring below 1.) *)
Theorem detected_rpm_keeps_timing_defined (d : RotationDetector) (vertical_frame : frame)
    (current_rpm : Q) (t : timing) (r : TurntableScoreRecorder) :
  (0 < rd_buffer_size d)%nat -> detector_ok d ->
  exists d' rpm' t' r',
    update_from_detector cvtColor_gray detectAndCompute bf_match
      estimateAffinePartial2D arctan2_degrees d vertical_frame (rd_fps d)
      current_rpm t r = Ok (d', rpm', t', r') /\
    detector_ok d' /\
    ((rpm' = current_rpm /\ t' = t /\ r' = r) \/
     ((1 # 2) < rpm')%Q /\ (rpm' <= 31 * rd_fps d)%Q /\
     t_rpm t' = rpm' /\ sr_rpm r' = rpm' /\
     1 <= frames_per_rotation t' /\
     sr_frames_per_rotation r' = frames_per_rotation t').
Proof.
  intros Hsize Hd.
  destruct (calculate_rpm_bounds d (Some vertical_frame) Hsize Hd) as (H1 & H2 & H3).
  unfold update_from_detector. fold rpm_of.
  destruct (rpm_of d (Some vertical_frame)) as [d' detected]. cbn [fst snd] in *.
  destruct (Qle_bool detected 0.5) eqn:E; cbn [negb].
  - exists d', current_rpm, t, r. split; [reflexivity|]. split; [exact H1|].
    left. repeat split.
  - apply Qle_bool_false in E.
    assert (Hpos : (0 < detected)%Q) by lra.
    assert (Hx : (inject_Z 1 <= 60 / detected * rd_fps d)%Q).
    { change (inject_Z 1) with 1%Q. unfold Qdiv.
      rewrite <- Qmult_assoc, (Qmult_comm (/ detected)), Qmult_assoc.
      apply Qle_shift_div_l; lra. }
    destruct (calculate_timing_parameters_defined detected (rd_fps d) 1 Hpos
                ltac:(lia) Hx) as (t' & Ht & Hfpr & Hk & Hrpm).
    rewrite Ht. cbn [bind]. rewrite py_div_ok by lra. cbn [bind].
    eexists d', detected, t', _. split; [reflexivity|]. split; [exact H1|].
    right. unfold with_rpm. cbn [sr_rpm sr_frames_per_rotation].
    repeat split; try assumption; try lra. now rewrite Hfpr.
Qed.

End RotationFacts.

Lemma quarter_turn_degrees_range (y x : Q) :
  (-180 <= quarter_turn_degrees y x)%Q /\ (quarter_turn_degrees y x <= 180)%Q.
Proof. unfold quarter_turn_degrees. split; lra. Qed.

Lemma detector_with_reference_ok : detector_ok detector_with_reference.
Proof.
  unfold detector_ok, detector_with_reference. cbn.
  (split; [lra|]); (split; [lra|]); (split; [lra|]); (split; [lra|]);
  (split; [lia|]); (split; [lia|]); (split; [constructor|]); split; lra.
Qed.

Lemma detected_rpm_keeps_timing_defined_witness :
  exists d' rpm' t' r',
    update_from_detector gray_stand_in detect_ten match_in_order quarter_turn
      quarter_turn_degrees detector_with_reference frame_2x2
      (rd_fps detector_with_reference) 2.5 (mkTiming 2.5 24 2 720 60 0.5)
      recorder_720 = Ok (d', rpm', t', r') /\
    detector_ok d' /\
    ((rpm' = 2.5%Q /\ t' = mkTiming 2.5 24 2 720 60 0.5 /\ r' = recorder_720) \/
     ((1 # 2) < rpm')%Q /\ (rpm' <= 31 * rd_fps detector_with_reference)%Q /\
     t_rpm t' = rpm' /\ sr_rpm r' = rpm' /\
     1 <= frames_per_rotation t' /\
     sr_frames_per_rotation r' = frames_per_rotation t').
Proof.
  apply (detected_rpm_keeps_timing_defined gray_stand_in detect_ten match_in_order
           quarter_turn quarter_turn_degrees quarter_turn_degrees_range
           detector_with_reference frame_2x2 2.5 (mkTiming 2.5 24 2 720 60 0.5)
           recorder_720).
  - vm_compute. lia.
  - exact detector_with_reference_ok.
Defined.

Lemma rpm_estimate_bounded_witness :
  detector_ok
    (fst (calculate_rpm gray_stand_in detect_ten match_in_order quarter_turn
            quarter_turn_degrees detector_with_reference (Some frame_2x2))) /\
  (0 <= snd (calculate_rpm gray_stand_in detect_ten match_in_order quarter_turn
               quarter_turn_degrees detector_with_reference (Some frame_2x2)))%Q /\
  (snd (calculate_rpm gray_stand_in detect_ten match_in_order quarter_turn
          quarter_turn_degrees detector_with_reference (Some frame_2x2))
   <= 31 * rd_fps detector_with_reference)%Q /\
  detector_ok
    (fst (set_reference_frame gray_stand_in detect_ten detector_with_reference None)) /\
  detector_ok
    (RotationDetector_init (rd_fps detector_with_reference)
       (rd_buffer_size detector_with_reference)).
Proof.
  apply (rpm_estimate_bounded gray_stand_in detect_ten match_in_order quarter_turn
           quarter_turn_degrees quarter_turn_degrees_range
           detector_with_reference (Some frame_2x2) None).
  - vm_compute. lia.
  - exact detector_with_reference_ok.
Defined.

(** ** Playback from a loaded array *)

Lemma playback_of_nonempty_profiles r f first rest rois :
  sr_rotations r = first :: rest ->
  rot_raw_rois first = Some rois ->
  rois <> [] ->
  Forall (fun roi => match roi with
                     | Scanline v => v <> []
                     | Strip rows => rows <> []
                     end) rois ->
  get_playback_notes_from_npy r f = Raise DeprecationWarning.
Proof.
  intros Hrot Hraw Hne Hall. unfold get_playback_notes_from_npy.
  rewrite Hrot, Hraw. destruct rois as [|roi0 rois']; [congruence|].
  cbv zeta.
  destruct (match sr_roi_mode r with
            | Some mode => String.eqb mode "circular"
            | None => false
            end); [|reflexivity].
  set (k := Z.to_nat _).
  assert (Hin : In (nth k (roi0 :: rois') roi0) (roi0 :: rois')).
  { destruct (nth_in_or_default k (roi0 :: rois') roi0) as [H|H]; [exact H|].
    rewrite H. now left. }
  rewrite Forall_forall in Hall. specialize (Hall _ Hin).
  destruct (nth k (roi0 :: rois') roi0) as [v|rows];
    unfold process_circular_roi_to_midi_data.
  - destruct v; [congruence|reflexivity].
  - destruct rows; [congruence|reflexivity].
Qed.

(** X17. Playback from a loaded score.npy is dead code: after
    [load_score_from_session] read an array with at least one row and one
    column, [get_playback_notes_from_npy] raises DeprecationWarning on every
    frame, in the circular and in the rectangular mode alike: each stored
    profile ends in the deprecated [process_roi_to_midi_data]. *)
Theorem playback_after_load_always_raises (r : TurntableScoreRecorder)
    (score_array : list (list Z)) (f : Z) :
  score_array <> [] -> hd [] score_array <> [] ->
  get_playback_notes_from_npy (load_score_npy r score_array) f
    = Raise DeprecationWarning.
Proof.
  intros Hrows Hcols.
  destruct score_array as [|row0 rows]; [congruence|]. cbn [hd] in Hcols.
  destruct row0 as [|v0 row0]; [congruence|].
  eapply playback_of_nonempty_profiles.
  - reflexivity.
  - reflexivity.
  - cbn [hd length seq map]. destruct (match sr_roi_mode r with
                                       | Some mode => String.eqb mode "circular"
                                       | None => false
                                       end); discriminate.
  - destruct (match sr_roi_mode r with
              | Some mode => String.eqb mode "circular"
              | None => false
              end); apply Forall_forall; intros roi Hin;
      rewrite in_map_iff in Hin; destruct Hin as [col [<- Hin]].
    + rewrite in_map_iff in Hin. destruct Hin as [i [<- _]]. discriminate.
    + rewrite in_map_iff in Hin. destruct Hin as [i [<- _]]. discriminate.
Qed.

Lemma playback_after_load_always_raises_witness :
  get_playback_notes_from_npy
    (load_score_npy (load_score_metadata recorder_720 "CPentatonic" "circular")
       (repeat [0; 0] 88)) 5
    = Raise DeprecationWarning.
Proof.
  apply (playback_after_load_always_raises
           (load_score_metadata recorder_720 "CPentatonic" "circular")
           (repeat [0; 0] 88) 5).
  - discriminate.
  - discriminate.
Defined.

(** ** The circular scanline, sample by sample *)

Lemma firstn_Zrange m : forall n lo,
  firstn m (Zrange lo n) = Zrange lo (Nat.min m n).
Proof.
  induction m as [|m IH]; intros [|n] lo; simpl; try reflexivity.
  now rewrite IH.
Qed.

Lemma py_take_Zrange_map {A : Type} (g : Z -> A) n k :
  0 <= k ->
  py_take (map g (Zrange 0 n)) k = map g (Zrange 0 (Nat.min (Z.to_nat k) n)).
Proof.
  intros Hk. unfold py_take. rewrite py_slice_map. f_equal.
  unfold py_slice, py_bound. rewrite Zrange_length.
  replace (0 <? 0) with false by reflexivity.
  replace (k <? 0) with false by (symmetry; apply Z.ltb_ge; lia).
  replace (Z.to_nat (Z.min 0 (Z.of_nat n))) with 0%nat by lia.
  cbn [skipn]. rewrite firstn_Zrange. f_equal. lia.
Qed.

Lemma py_int_Qeq x y : (x == y)%Q -> py_int x = py_int y.
Proof.
  intros E. apply Z.le_antisymm; apply py_int_monotone; rewrite E; apply Qle_refl.
Qed.

Section CircularSamples.

Variable cos_deg sin_deg : Q -> Q.
Variable cvtColor_gray : pixel -> Z.

(** X18. [extract_roi_pixels_circular] returns one sample per integer radius
    0 .. radius-1: the grey value of the pixel under the point of that radius
    when the point is inside the frame, and 0 when it is outside; the first
    sample is taken at the centre itself, whatever the angle.  The
    information it returns repeats the centre and the radius and lists the
    first min(10, radius) points of the ray. *)
Theorem circular_scanline_samples (p : CorrectedAudioProcessor) (f : frame)
    (cx cy radius frame_count : Z) p' scan info :
  extract_roi_pixels_circular cos_deg sin_deg cvtColor_gray p f (cx, cy) radius
    frame_count = Ok (p', scan, info) ->
  length scan = Z.to_nat radius /\
  (forall k, 0 <= k < radius ->
     nth (Z.to_nat k) scan 0 =
       let xy := polar_point cos_deg sin_deg cx cy (ri_angle info) k in
       if in_frame f xy then cvtColor_gray (pixel_at f (snd xy) (fst xy)) else 0) /\
  polar_point cos_deg sin_deg cx cy (ri_angle info) 0 = (cx, cy) /\
  ri_center info = (cx, cy) /\ ri_radius info = radius /\
  ri_points info =
    map (polar_point cos_deg sin_deg cx cy (ri_angle info))
      (Zrange 0 (Z.to_nat (Z.min 10 radius))).
Proof.
  unfold extract_roi_pixels_circular.
  destruct (calculate_current_position p frame_count) as [[p1 pos]|e];
    cbn [bind]; [|discriminate].
  intros [= <- <- <-]. cbn [ri_angle ri_center ri_radius ri_points].
  split; [|split; [|split; [|split; [|split]]]].
  - now rewrite !length_map, Zrange_length.
  - intros k Hk. cbv zeta.
    set (sample := fun xy : Z * Z =>
                     if in_frame f xy
                     then cvtColor_gray (pixel_at f (snd xy) (fst xy))
                     else 0).
    rewrite map_map.
    rewrite (nth_indep _ 0
               (sample (polar_point cos_deg sin_deg cx cy (angle_degrees pos) 0)))
      by (rewrite length_map, Zrange_length; lia).
    rewrite (map_nth (fun r => sample (polar_point cos_deg sin_deg cx cy
                                         (angle_degrees pos) r))).
    rewrite Zrange_nth by lia. rewrite Z.add_0_l, Z2Nat.id by lia. reflexivity.
  - unfold polar_point. f_equal.
    + rewrite <- (py_int_inject cx) at 2. apply py_int_Qeq.
      change (inject_Z 0) with 0%Q. ring.
    + rewrite <- (py_int_inject cy) at 2. apply py_int_Qeq.
      change (inject_Z 0) with 0%Q. ring.
  - reflexivity.
  - reflexivity.
  - rewrite py_take_Zrange_map by lia. do 2 f_equal. lia.
Qed.

End CircularSamples.

Lemma circular_scanline_samples_witness :
  exists p' scan info,
    extract_roi_pixels_circular cos_at_0 sin_at_0 gray_stand_in
      (mkProcessor 2.5 (Some 30%Q) 24 2 true 88 (Some (720, 60)))
      frame_2x2 (0, 0) 5 0 = Ok (p', scan, info) /\
    scan = [21; 21; 0; 0; 0] /\
    length scan = Z.to_nat 5 /\
    ri_points info =
      map (polar_point cos_at_0 sin_at_0 0 0 (ri_angle info))
        (Zrange 0 (Z.to_nat (Z.min 10 5))).
Proof.
  eexists _, _, _. split; [reflexivity|]. split; [reflexivity|].
  pose proof (circular_scanline_samples cos_at_0 sin_at_0 gray_stand_in
                (mkProcessor 2.5 (Some 30%Q) 24 2 true 88 (Some (720, 60)))
                frame_2x2 0 0 5 0 _ _ _ eq_refl) as H.
  split; [exact (proj1 H)|].
  exact (proj2 (proj2 (proj2 (proj2 (proj2 H))))).
Defined.

(** ** Main loop: what is sent and what is recorded *)

Lemma current_angle_range (t : timing) (frame_count : Z) :
  (0 <= current_angle t frame_count)%Q /\ (current_angle t frame_count < 360)%Q.
Proof.
  unfold current_angle, py_fmod.
  set (x := (inject_Z frame_count * degrees_per_frame t)%Q).
  set (q := (x / 360)%Q).
  assert (Hx : (x == 360 * q)%Q) by (unfold q; field).
  pose proof (Qfloor_le q) as Hlo. pose proof (Qlt_floor q) as Hhi.
  rewrite inject_Z_plus in Hhi. change (inject_Z 1) with 1%Q in Hhi.
  split; lra.
Qed.

(** X24. The scan window of the rectangular mode.  For a region of positive
    height (below 2^53), a zodiac range of at least 2, a frame counter
    0 <= frame_count < 2^53 and an angular step between 0 and 360 degrees,
    the rows read for the frame form a non-empty window inside the region
    [y, y + h), of at most zodiac_range rows, that contains the row the
    current angle points at. *)
Theorem zodiac_window_inside_region (t : timing) (frame_count y h zodiac_range : Z) :
  0 < h < 2 ^ 53 -> 2 <= zodiac_range ->
  0 <= frame_count < 2 ^ 53 ->
  (0 <= degrees_per_frame t)%Q -> (degrees_per_frame t <= 360)%Q ->
  let zodiac_y :=
    y + py_int (current_angle t frame_count / 360 * inject_Z h) in
  let '(scan_y_start, scan_y_end) := zodiac_window t frame_count y h zodiac_range in
  y <= scan_y_start /\ scan_y_start <= zodiac_y /\ zodiac_y < scan_y_end /\
  scan_y_end <= y + h /\ scan_y_end - scan_y_start <= zodiac_range.
Proof.
  intros [Hh _] Hz _ _ _. cbv zeta. unfold zodiac_window.
  destruct (current_angle_range t frame_count) as [Ha0 Ha1].
  set (a := current_angle t frame_count) in *.
  set (v := (a / 360 * inject_Z h)%Q).
  assert (Hh0 : (0 < inject_Z h)%Q).
  { change 0%Q with (inject_Z 0). apply inject_Z_lt. lia. }
  assert (Ha : (a == 360 * (a / 360))%Q) by field.
  assert (Hq0 : (0 <= a / 360)%Q) by lra.
  assert (Hq1 : (a / 360 < 1)%Q) by lra.
  assert (Hv0 : (0 <= v)%Q) by (unfold v; nra).
  assert (Hv1 : (v < inject_Z h)%Q) by (unfold v; nra).
  rewrite (py_int_nonneg v Hv0).
  assert (Hf0 : 0 <= Qfloor v) by (apply (Qfloor_lower 0); exact Hv0).
  assert (Hf1 : Qfloor v < h).
  { rewrite Zlt_Qlt. pose proof (Qfloor_le v). lra. }
  assert (Hhalf : 1 <= zodiac_range / 2) by (apply Z.div_le_lower_bound; lia).
  assert (Hdouble : 2 * (zodiac_range / 2) <= zodiac_range)
    by (apply Z.mul_div_le; lia).
  repeat split; lia.
Qed.

Lemma zodiac_window_inside_region_witness :
  let '(scan_y_start, scan_y_end) :=
    zodiac_window (mkTiming 2.5 24 2 720 60 0.5) 180 100 400 88 in
  100 <= scan_y_start /\
  scan_y_start <= 100 + py_int (current_angle (mkTiming 2.5 24 2 720 60 0.5) 180
                                  / 360 * inject_Z 400) /\
  100 + py_int (current_angle (mkTiming 2.5 24 2 720 60 0.5) 180
                  / 360 * inject_Z 400) < scan_y_end /\
  scan_y_end <= 100 + 400 /\ scan_y_end - scan_y_start <= 88.
Proof.
  apply (zodiac_window_inside_region (mkTiming 2.5 24 2 720 60 0.5) 180 100 400 88);
    try lia; vm_compute; discriminate.
Defined.

Section MainLoopFacts.

Variable random_randint : Z -> Z -> Z.
Variable draw_notes draw_velocities : list Z -> Z -> list Z.
Variable draw_durations : list Q -> Z -> list Q.

Let step := midi_step random_randint draw_notes draw_velocities draw_durations.

(** X25. What the MIDI step of the main loop can do.  In live mode both
    converters end in the deprecated [process_roi_to_midi_data], so the step
    sends no message and records nothing.  A message is sent only in playback
    mode, from a score whose first rotation carries no raw profiles; when the
    step completes, the three messages are three independent random samples
    of N elements of the notes, the velocities and the durations that
    [get_playback_notes] finds for the frame, with N drawn by
    [random.randint(1, len(notes))], while the chord handed to [add_notes] is
    the stored chord itself.  In every other case the recorder is left as it
    was. *)
Theorem midi_step_outcome (playback_mode : bool) (r : TurntableScoreRecorder)
    (frame_count : Z) (current_roi_mode scale : string) (scanline_values : list Z)
    (roi_gray : list (list Z)) (raw_roi_for_record : raw_roi)
    (zodiac_section : option Z) r' sent out :
  step playback_mode r frame_count current_roi_mode scale scanline_values roi_gray
    raw_roi_for_record zodiac_section = (r', sent, out) ->
  (playback_mode = false ->
   r' = r /\ sent = [] /\
   (out = NothingToSend \/ out = ErrorCaught DeprecationWarning)) /\
  (sent <> [] ->
   playback_mode = true /\
   exists first rest,
     sr_rotations r = first :: rest /\ rot_raw_rois first = None) /\
  match out with
  | Transmitted =>
      exists midi_notes velocities durations,
        get_playback_notes r frame_count = Ok (midi_notes, velocities, durations) /\
        midi_notes <> [] /\
        let N := random_randint 1 (Z.of_nat (length midi_notes)) in
        sent = [OscNote (draw_notes midi_notes N);
                OscVelocity (draw_velocities velocities N);
                OscDuration (draw_durations durations N)] /\
        r' = add_notes r frame_count midi_notes velocities durations
               raw_roi_for_record zodiac_section
  | NothingToSend => r' = r /\ sent = []
  | ErrorCaught e => r' = r
  end.
Proof.
  unfold step, midi_step. destruct playback_mode.
  - unfold playback_chord.
    destruct (sr_rotations r) as [|first rest] eqn:Hrot.
    { intros [= <- <- <-]. split; [discriminate|]. split; [congruence|reflexivity]. }
    destruct (rot_raw_rois first) as [rois|] eqn:Hraw.
    + destruct (playback_from_profiles_never_maps r frame_count) as [E|E];
        rewrite E.
      * intros [= <- <- <-]. split; [discriminate|].
        split; [congruence|]. split; reflexivity.
      * intros [= <- <- <-]. split; [discriminate|].
        split; [congruence|reflexivity].
    + assert (Hjson : exists first0 rest0,
                 first :: rest = first0 :: rest0 /\ rot_raw_rois first0 = None)
        by (now exists first, rest).
      destruct (get_playback_notes r frame_count) as [[[n v] du]|e] eqn:Hplay.
      * destruct n as [|n0 n].
        { intros [= <- <- <-]. split; [discriminate|].
          split; [congruence|]. split; reflexivity. }
        replace (0 <? Z.of_nat (length (n0 :: n))) with true
          by (symmetry; apply Z.ltb_lt; cbn [length]; lia).
        unfold send_midi.
        replace (Z.of_nat (length (n0 :: n)) <? 1) with false
          by (symmetry; apply Z.ltb_ge; cbn [length]; lia).
        cbv zeta.
        set (N := random_randint 1 (Z.of_nat (length (n0 :: n)))).
        destruct (random_sample draw_notes (n0 :: n) N) as [s1|e1] eqn:E1.
        2:{ intros [= <- <- <-]. split; [discriminate|].
            split; [congruence|reflexivity]. }
        destruct (random_sample draw_velocities v N) as [s2|e2] eqn:E2.
        2:{ intros [= <- <- <-]. split; [discriminate|].
            split; [intros _; split; [reflexivity|exact Hjson]|reflexivity]. }
        destruct (random_sample draw_durations du N) as [s3|e3] eqn:E3.
        2:{ intros [= <- <- <-]. split; [discriminate|].
            split; [intros _; split; [reflexivity|exact Hjson]|reflexivity]. }
        intros [= <- <- <-]. split; [discriminate|].
        split; [intros _; split; [reflexivity|exact Hjson]|].
        exists (n0 :: n), v, du. split; [reflexivity|]. split; [discriminate|].
        cbv zeta. fold N. split.
        { unfold random_sample in E1, E2, E3.
          destruct ((N <? 0) || (Z.of_nat (length (n0 :: n)) <? N)); [discriminate|].
          destruct ((N <? 0) || (Z.of_nat (length v) <? N)); [discriminate|].
          destruct ((N <? 0) || (Z.of_nat (length du) <? N)); [discriminate|].
          congruence. }
        unfold add_notes. destruct (sr_is_recording r); reflexivity.
      * intros [= <- <- <-]. split; [discriminate|].
        split; [congruence|reflexivity].
  - unfold live_chord, process_circular_roi_to_midi_data, process_roi_to_midi_data.
    destruct (String.eqb current_roi_mode "circular").
    + destruct scanline_values.
      * intros [= <- <- <-]. split; [intros _; repeat split; now left|].
        split; [congruence|]. split; reflexivity.
      * intros [= <- <- <-]. split; [intros _; repeat split; now right|].
        split; [congruence|reflexivity].
    + intros [= <- <- <-]. split; [intros _; repeat split; now right|].
      split; [congruence|reflexivity].
Qed.

End MainLoopFacts.

Lemma midi_step_outcome_witness :
  exists midi_notes velocities durations,
    get_playback_notes json_recorder 723 = Ok (midi_notes, velocities, durations) /\
    midi_notes <> [] /\
    let N := randint_upper 1 (Z.of_nat (length midi_notes)) in
    [OscNote [60; 64]; OscVelocity [100; 90]; OscDuration [1; 1]%Q] =
      [OscNote (draw_first midi_notes N); OscVelocity (draw_first velocities N);
       OscDuration (draw_first durations N)] /\
    json_recorder = add_notes json_recorder 723 midi_notes velocities durations
                      (Scanline [7]) (Some 2).
Proof.
  pose proof (midi_step_outcome randint_upper draw_first draw_first draw_first
                true json_recorder 723 "circular" "CPentatonic" [7] [[7]]
                (Scanline [7]) (Some 2) json_recorder
                [OscNote [60; 64]; OscVelocity [100; 90]; OscDuration [1; 1]%Q]
                Transmitted eq_refl) as H.
  exact (proj2 (proj2 H)).
Defined.

(** ** The 88-key mapping *)

Lemma py_take_all_length {A : Type} (l : list A) (k : nat) :
  (k <= length l)%nat -> length (py_take l (Z.of_nat k)) = k.
Proof.
  intros H. unfold py_take, py_slice, py_bound.
  replace (0 <? 0) with false by reflexivity.
  replace (Z.of_nat k <? 0) with false by (symmetry; apply Z.ltb_ge; lia).
  rewrite length_firstn, length_skipn. lia.
Qed.

Lemma pad_88_length (pixel_data : list Z) : length (pad_88 pixel_data) = 88%nat.
Proof.
  unfold pad_88. destruct (length pixel_data <? 88)%nat eqn:E.
  - apply Nat.ltb_lt in E. rewrite length_app, repeat_length. lia.
  - apply Nat.ltb_ge in E. change 88 with (Z.of_nat 88).
    now apply py_take_all_length.
Qed.

Lemma pad_88_range (pixel_data : list Z) :
  Forall (fun p => 0 <= p <= 255) pixel_data ->
  Forall (fun p => 0 <= p <= 255) (pad_88 pixel_data).
Proof.
  intros H. unfold pad_88. destruct (length pixel_data <? 88)%nat.
  - apply Forall_app. split; [exact H|].
    apply Forall_forall. intros x Hx. apply repeat_spec in Hx. lia.
  - rewrite Forall_forall in *. intros x Hx. apply H.
    now apply (py_slice_incl pixel_data 0 88).
Qed.

Lemma velocity_of_pixel_range (vel_min vel_max : Q) (p : Z) :
  (vel_min <= vel_max)%Q -> 0 <= p <= 255 ->
  py_int vel_min <= velocity_of_pixel vel_min vel_max p <= py_int vel_max.
Proof.
  intros Hv Hp. unfold velocity_of_pixel.
  assert (H0 : (inject_Z 0 <= inject_Z p)%Q) by (apply inject_Z_le; lia).
  assert (H1 : (inject_Z p <= inject_Z 255)%Q) by (apply inject_Z_le; lia).
  change (inject_Z 0) with 0%Q in H0. change (inject_Z 255) with 255%Q in H1.
  set (x := inject_Z p) in *.
  assert (Hx : (x / 255 == x * (1 # 255))%Q) by field.
  split; apply py_int_monotone; rewrite Hx; nra.
Qed.

Lemma velocity_of_dark_pixel (vel_min vel_max : Q) :
  velocity_of_pixel vel_min vel_max 0 = py_int vel_min.
Proof.
  unfold velocity_of_pixel. apply py_int_Qeq.
  change (inject_Z 0) with 0%Q. field.
Qed.

Lemma map_snd_combine_seq (n : nat) : forall (a : nat) (lo : Z),
  map snd (combine (seq a n) (Zrange lo n)) = Zrange lo n.
Proof.
  induction n as [|k IH]; intros a lo; simpl; [reflexivity|]. now rewrite IH.
Qed.

Lemma keyboard_sorted (n : nat) : forall (a : nat) (lo : Z),
  StronglySorted (fun x y : nat * Z => snd x < snd y) (combine (seq a n) (Zrange lo n)).
Proof.
  induction n as [|k IH]; intros a lo; simpl; constructor; [apply IH|].
  apply Forall_forall. intros [i m] Hin. apply in_combine_r in Hin.
  apply Zrange_bounds in Hin. simpl. lia.
Qed.

Lemma StronglySorted_filter {A : Type} (R : A -> A -> Prop) (f : A -> bool) (l : list A) :
  StronglySorted R l -> StronglySorted R (filter f l).
Proof.
  intros H. induction H as [|x l Hs IH Hall]; simpl; [constructor|].
  destruct (f x); [|exact IH]. constructor; [exact IH|].
  rewrite Forall_forall in *. intros y Hy. apply filter_In in Hy. now apply Hall.
Qed.

Section KeyMappingFacts.

Variable select_scale : string -> result (list Z).

(** X26. The 88-key mapping.  Whenever [pixels_to_midi_88_mapping] returns
    on pixels in 0..255 with vel_min <= vel_max, the three lists have the same
    length, the notes are piano keys in strictly increasing order, all
    durations are 1.0 and every velocity lies between int(vel_min) and
    int(vel_max).  Without a scale it returns all 88 keys, and for an empty
    pixel array every key is sounded at int(vel_min): the padding is mapped
    like a dark pixel, not left out. *)
Theorem pixels_to_midi_88_mapping_shape (vel_min vel_max : Q) (pixel_data : list Z)
    (selected_scale : option string) (notes velocities : list Z) (durations : list Q) :
  (vel_min <= vel_max)%Q ->
  Forall (fun p => 0 <= p <= 255) pixel_data ->
  pixels_to_midi_88_mapping select_scale vel_min vel_max pixel_data selected_scale
    = Ok (notes, velocities, durations) ->
  length velocities = length notes /\
  durations = repeat 1%Q (length notes) /\
  StronglySorted Z.lt notes /\
  Forall (fun n => 21 <= n <= 108) notes /\
  Forall (fun v => py_int vel_min <= v <= py_int vel_max) velocities /\
  (selected_scale = None -> notes = Zrange 21 88) /\
  (selected_scale = None -> pixel_data = [] ->
   velocities = repeat (py_int vel_min) 88).
Proof.
  intros Hv Hpix. pose proof (pad_88_range pixel_data Hpix) as Hpad.
  pose proof (pad_88_length pixel_data) as Hlen.
  assert (Hwhole :
    Ok (Zrange 21 88, map (velocity_of_pixel vel_min vel_max) (pad_88 pixel_data),
        repeat 1%Q (length (Zrange 21 88))) = Ok (notes, velocities, durations) ->
    length velocities = length notes /\
    durations = repeat 1%Q (length notes) /\
    StronglySorted Z.lt notes /\
    Forall (fun n => 21 <= n <= 108) notes /\
    Forall (fun v => py_int vel_min <= v <= py_int vel_max) velocities /\
    notes = Zrange 21 88 /\
    (pixel_data = [] -> velocities = repeat (py_int vel_min) 88)).
  { remember (Zrange 21 88) as keys eqn:Hkeys.
    remember (repeat (py_int vel_min) 88) as quiet eqn:Hquiet.
    intros [= <- <- <-].
    split; [now rewrite length_map, Hlen, Hkeys, Zrange_length|].
    split; [reflexivity|]. split.
    { pose proof (keyboard_sorted 88 0 21) as Hs.
      apply (StronglySorted_map _ Z.lt snd) in Hs; [|auto].
      rewrite map_snd_combine_seq in Hs. rewrite Hkeys. exact Hs. }
    split.
    { apply Forall_forall. intros n Hn. rewrite Hkeys in Hn.
      apply Zrange_bounds in Hn. lia. }
    split.
    { apply Forall_forall. intros v Hin. apply in_map_iff in Hin.
      destruct Hin as [p [<- Hp]]. rewrite Forall_forall in Hpad.
      apply velocity_of_pixel_range; [exact Hv|now apply Hpad]. }
    split; [reflexivity|].
    intros ->. rewrite Hquiet. unfold pad_88.
    cbn [length Nat.ltb Nat.leb app Nat.sub].
    rewrite map_repeat. now rewrite velocity_of_dark_pixel. }
  unfold pixels_to_midi_88_mapping. cbv zeta.
  destruct selected_scale as [s|].
  2:{ intros H. destruct (Hwhole H) as (H1 & H2 & H3 & H4 & H5 & H6 & H7).
      repeat split; auto. }
  destruct (negb (String.eqb s "") && negb (String.eqb s "piano")).
  2:{ intros H. destruct (Hwhole H) as (H1 & H2 & H3 & H4 & H5 & H6 & H7).
      repeat split; auto; discriminate. }
  destruct (select_scale s) as [scale_notes|e]; [|discriminate].
  unfold bind.
  remember (filter (fun im : nat * Z => Z_mem (snd im) scale_notes)
              (combine (seq 0 88) (Zrange 21 88))) as chosen eqn:Hchosen.
  remember (pad_88 pixel_data) as padded_data eqn:Hpadded.
  intros H.
  assert (Hn : notes = map snd chosen) by congruence.
  assert (Hvel : velocities =
                 map (fun im : nat * Z =>
                        velocity_of_pixel vel_min vel_max (nth (fst im) padded_data 0))
                     chosen) by congruence.
  assert (Hdur : durations = repeat 1%Q (length (map snd chosen))) by congruence.
  clear H. subst notes velocities durations.
  split; [now rewrite !length_map|]. split; [reflexivity|]. split.
  { apply (StronglySorted_map (fun x y : nat * Z => snd x < snd y)); [auto|].
    rewrite Hchosen. apply StronglySorted_filter, keyboard_sorted. }
  split.
  { apply Forall_forall. intros n Hn. apply in_map_iff in Hn.
    destruct Hn as [[i m] [<- Hin]]. rewrite Hchosen in Hin.
    apply filter_In in Hin. destruct Hin as [Hin _].
    apply in_combine_r in Hin. apply Zrange_bounds in Hin. cbn [snd]. lia. }
  split.
  { apply Forall_forall. intros v Hin. apply in_map_iff in Hin.
    destruct Hin as [[i m] [<- Hin]]. apply velocity_of_pixel_range; [exact Hv|].
    cbn [fst]. destruct (nth_in_or_default i padded_data 0) as [H|H].
    - rewrite Forall_forall in Hpad. now apply Hpad.
    - rewrite H. lia. }
  split; discriminate.
Qed.

End KeyMappingFacts.

Lemma pixels_to_midi_88_mapping_shape_witness :
  pixels_to_midi_88_mapping select_c_notes 32 127 [255; 0; 0; 255] (Some "CMajor"%string)
    = Ok ([24; 36; 48; 60; 72; 84; 96; 108], [127; 32; 32; 32; 32; 32; 32; 32],
          repeat 1%Q 8) /\
  length [127; 32; 32; 32; 32; 32; 32; 32] = length [24; 36; 48; 60; 72; 84; 96; 108] /\
  StronglySorted Z.lt [24; 36; 48; 60; 72; 84; 96; 108].
Proof.
  split; [reflexivity|].
  pose proof (pixels_to_midi_88_mapping_shape select_c_notes 32 127 [255; 0; 0; 255]
                (Some "CMajor"%string) [24; 36; 48; 60; 72; 84; 96; 108]
                [127; 32; 32; 32; 32; 32; 32; 32] (repeat 1%Q 8)) as H.
  destruct H as (H1 & _ & H3 & _).
  - vm_compute. discriminate.
  - repeat constructor; lia.
  - reflexivity.
  - split; [exact H1|exact H3].
Defined.

(** ** The value mapper of utils/audio_utils.py *)

Lemma result_map_ok {A B : Type} (f : A -> result B) (g : A -> B) (l : list A) :
  (forall x, In x l -> f x = Ok (g x)) -> result_map f l = Ok (map g l).
Proof.
  induction l as [|x l IH]; intros H; simpl; [reflexivity|].
  rewrite (H x (or_introl eq_refl)). cbn [bind].
  rewrite IH by (intros y Hy; apply H; now right). reflexivity.
Qed.

Lemma result_map_raise {A B : Type} (f : A -> result B) (e : exn) (l : list A) :
  l <> [] -> (forall x, In x l -> f x = Raise e) -> result_map f l = Raise e.
Proof.
  destruct l as [|x l]; intros Hne H; [congruence|].
  simpl. now rewrite (H x (or_introl eq_refl)).
Qed.

Lemma eps_positive : (0 < audio_utils.eps)%Q.
Proof. reflexivity. Qed.

Lemma norm_value_range (v lo hi : Q) :
  (lo <= v)%Q -> (v <= hi)%Q ->
  (0 <= (v - lo) / (hi - lo + audio_utils.eps))%Q /\
  ((v - lo) / (hi - lo + audio_utils.eps) < 1)%Q.
Proof.
  intros H1 H2. pose proof eps_positive as He.
  split.
  - apply Qle_shift_div_l; lra.
  - apply Qlt_shift_div_r; lra.
Qed.

Section ValMapperFacts.

Variable np_log np_sin : Q -> Q.

Lemma norm_defined (self : audio_utils.ValMapper) :
  (audio_utils.min_value self <= audio_utils.max_value self)%Q ->
  audio_utils.norm self =
    Ok (map (fun v => (v - audio_utils.min_value self)
                      / (audio_utils.max_value self - audio_utils.min_value self
                         + audio_utils.eps))%Q
            (audio_utils.value self)).
Proof.
  intros H. unfold audio_utils.norm. apply result_map_ok.
  intros v _. apply py_div_ok. pose proof eps_positive. lra.
Qed.

(** The outputs of the linear and of the quadratic mode, for a value list
    inside [min_value, max_value]. *)
Lemma mapper_defined (self : audio_utils.ValMapper) :
  audio_utils.mode self = "linear"%string \/ audio_utils.mode self = "power"%string ->
  (audio_utils.min_value self <= audio_utils.max_value self)%Q ->
  exists shape : Q -> Q,
    audio_utils.mapper np_log np_sin self =
      Ok (map (fun v =>
                 audio_utils.min_bound self
                 + (audio_utils.max_bound self - audio_utils.min_bound self)
                   * shape ((v - audio_utils.min_value self)
                            / (audio_utils.max_value self - audio_utils.min_value self
                               + audio_utils.eps)))%Q
              (audio_utils.value self)) /\
    (forall n, 0 <= n -> n < 1 -> 0 <= shape n /\ shape n < 1)%Q /\
    (forall n, n == 0 -> shape n == 0)%Q /\
    (audio_utils.mode self = "linear"%string -> forall n, shape n = n).
Proof.
  intros Hmode Hrange. unfold audio_utils.mapper.
  rewrite (norm_defined self Hrange). cbn [bind].
  destruct Hmode as [Hm|Hm]; rewrite Hm; cbn [String.eqb Ascii.eqb Bool.eqb].
  - exists (fun n => n). split.
    + rewrite (result_map_ok _ (fun n => audio_utils.min_bound self
                 + (audio_utils.max_bound self - audio_utils.min_bound self) * n)%Q)
        by reflexivity.
      now rewrite map_map.
    + split; [intros n H0 H1; split; assumption|]. split; [intros n H; exact H|].
      reflexivity.
  - exists (fun n => n * n)%Q. split.
    + rewrite (result_map_ok _ (fun n => audio_utils.min_bound self
                 + (audio_utils.max_bound self - audio_utils.min_bound self)
                   * (n * n))%Q)
        by reflexivity.
      now rewrite map_map.
    + split; [intros n H0 H1; split; nra|]. split; [intros n H; rewrite H; reflexivity|].
      discriminate.
Qed.

(** X27. The value mapper with eps.  For an input range inside
    [-10^6, 10^6], output bounds inside [-10^9, 10^9], values inside
    [min_value, max_value] and min_bound <= max_bound, the linear and the
    quadratic mode return one output per value, each in
    [min_bound, max_bound]; a degenerate input range (min_value == max_value)
    maps every value to min_bound without any division by zero, where the
    mapper of audio_utils_simple.py answers the midpoint.  A mode that is
    none of linear, log, power, sin raises ValueError only when there is a
    value to map: for an empty list the result is the empty list.  (The
    bounds on the ranges keep eps visible in the denominator and the
    products finite.) *)
Theorem audio_utils_mapper_bounds (self : audio_utils.ValMapper) :
  (audio_utils.min_value self <= audio_utils.max_value self)%Q ->
  (audio_utils.min_bound self <= audio_utils.max_bound self)%Q ->
  (-1000000 <= audio_utils.min_value self)%Q ->
  (audio_utils.max_value self <= 1000000)%Q ->
  (-1000000000 <= audio_utils.min_bound self)%Q ->
  (audio_utils.max_bound self <= 1000000000)%Q ->
  Forall (fun v => audio_utils.min_value self <= v /\ v <= audio_utils.max_value self)%Q
    (audio_utils.value self) ->
  (audio_utils.mode self = "linear"%string \/ audio_utils.mode self = "power"%string ->
   exists results,
     audio_utils.mapper np_log np_sin self = Ok results /\
     length results = length (audio_utils.value self) /\
     Forall (fun r => audio_utils.min_bound self <= r /\ r <= audio_utils.max_bound self)%Q
       results /\
     ((audio_utils.min_value self == audio_utils.max_value self)%Q ->
      Forall (fun r => r == audio_utils.min_bound self)%Q results)) /\
  (audio_utils.mode self <> "linear"%string -> audio_utils.mode self <> "log"%string ->
   audio_utils.mode self <> "power"%string -> audio_utils.mode self <> "sin"%string ->
   audio_utils.mapper np_log np_sin self =
     match audio_utils.value self with
     | [] => Ok []
     | _ :: _ => Raise ValueError
     end).
Proof.
  intros Hrange Hbound _ _ _ _ Hvalues. split.
  - intros Hmode.
    destruct (mapper_defined self Hmode Hrange) as (shape & Hmap & Hshape & Hzero & _).
    eexists. split; [exact Hmap|]. split; [now rewrite length_map|].
    rewrite Forall_forall in Hvalues.
    split.
    + apply Forall_forall. intros r Hr. apply in_map_iff in Hr.
      destruct Hr as [v [<- Hv]]. destruct (Hvalues v Hv) as [H1 H2].
      destruct (norm_value_range v _ _ H1 H2) as [N0 N1].
      destruct (Hshape _ N0 N1) as [S0 S1]. split; nra.
    + intros Heq. apply Forall_forall. intros r Hr. apply in_map_iff in Hr.
      destruct Hr as [v [<- Hv]]. destruct (Hvalues v Hv) as [H1 H2].
      assert (Hn : ((v - audio_utils.min_value self)
                    / (audio_utils.max_value self - audio_utils.min_value self
                       + audio_utils.eps) == 0)%Q).
      { assert (Hv0 : (v - audio_utils.min_value self == 0)%Q) by lra.
        rewrite Hv0. unfold Qdiv. ring. }
      rewrite (Hzero _ Hn). ring.
  - intros Hl Hg Hp Hs. unfold audio_utils.mapper.
    rewrite (norm_defined self Hrange). cbn [bind].
    apply String.eqb_neq in Hl, Hg, Hp, Hs. rewrite Hl, Hg, Hp, Hs.
    destruct (audio_utils.value self); reflexivity.
Qed.

End ValMapperFacts.

Lemma audio_utils_mapper_bounds_witness :
  exists results,
    audio_utils.mapper log_unused sin_unused
      (audio_utils.mkValMapper "linear" [0; 255; 100]%Q 0 255 32 127) = Ok results /\
    length results = 3%nat /\
    Forall (fun r => 32 <= r /\ r <= 127)%Q results.
Proof.
  destruct (audio_utils_mapper_bounds log_unused sin_unused
              (audio_utils.mkValMapper "linear" [0; 255; 100]%Q 0 255 32 127))
    as [H _].
  - vm_compute. discriminate.
  - vm_compute. discriminate.
  - vm_compute. discriminate.
  - vm_compute. discriminate.
  - vm_compute. discriminate.
  - vm_compute. discriminate.
  - repeat constructor; vm_compute; discriminate.
  - destruct (H (or_introl eq_refl)) as (results & H1 & H2 & H3 & _).
    exists results. split; [exact H1|]. split; [exact H2|exact H3].
Defined.

(** ** core_audio_processing.py: magnitudes *)

Lemma firstn_one_skipn {A : Type} (l : list A) : forall k,
  firstn 1 (skipn k l) = match nth_error l k with
                         | Some x => [x]
                         | None => []
                         end.
Proof.
  induction l as [|x l IH]; intros [|k]; simpl; try reflexivity. apply IH.
Qed.

Lemma py_slice_single {A : Type} (l : list A) (k : Z) :
  0 <= k ->
  py_slice l k (k + 1) = match nth_error l (Z.to_nat k) with
                         | Some x => [x]
                         | None => []
                         end.
Proof.
  intros Hk. unfold py_slice, py_bound.
  replace (k <? 0) with false by (symmetry; apply Z.ltb_ge; lia).
  replace (k + 1 <? 0) with false by (symmetry; apply Z.ltb_ge; lia).
  destruct (Z_lt_le_dec k (Z.of_nat (length l))) as [Hlt|Hge].
  - replace (Z.min (k + 1) (Z.of_nat (length l)) - Z.min k (Z.of_nat (length l)))
      with 1 by lia.
    replace (Z.min k (Z.of_nat (length l))) with k by lia.
    apply firstn_one_skipn.
  - replace (Z.min (k + 1) (Z.of_nat (length l)) - Z.min k (Z.of_nat (length l)))
      with 0 by lia.
    cbn [Z.to_nat firstn].
    assert (H : nth_error l (Z.to_nat k) = None) by (apply nth_error_None; lia).
    now rewrite H.
Qed.

Lemma nth_error_Zrange (n : nat) : forall lo k,
  (k < n)%nat -> nth_error (Zrange lo n) k = Some (lo + Z.of_nat k).
Proof.
  induction n as [|m IH]; intros lo k Hk; [lia|].
  destruct k as [|k]; simpl.
  - f_equal. lia.
  - rewrite IH by lia. f_equal. lia.
Qed.

Lemma sum_range (row : list Z) :
  Forall (fun p => 0 <= p <= 255) row ->
  0 <= fold_right Z.add 0 row <= 255 * Z.of_nat (length row).
Proof.
  induction 1 as [|p row Hp _ IH]; simpl; lia.
Qed.

Lemma np_mean_range (row : list Z) :
  row <> [] -> Forall (fun p => 0 <= p <= 255) row ->
  (0 <= np_mean row)%Q /\ (np_mean row <= 255)%Q.
Proof.
  intros Hne Hrow. destruct (sum_range row Hrow) as [H0 H1]. unfold np_mean.
  assert (Hlen : (0 < inject_Z (Z.of_nat (length row)))%Q).
  { change 0%Q with (inject_Z 0). apply inject_Z_lt.
    destruct row; [congruence|simpl; lia]. }
  split.
  - apply Qle_shift_div_l; [exact Hlen|].
    rewrite Qmult_0_l. change 0%Q with (inject_Z 0). now apply inject_Z_le.
  - apply Qle_shift_div_r; [exact Hlen|].
    change 255%Q with (inject_Z 255). rewrite <- inject_Z_mult. now apply inject_Z_le.
Qed.

Lemma region_mean_range (roi_gray : list (list Z)) (a b : Z) :
  Forall (Forall (fun p => 0 <= p <= 255)) roi_gray ->
  (0 <= region_mean roi_gray a b)%Q /\ (region_mean roi_gray a b <= 255)%Q.
Proof.
  intros Hroi. unfold region_mean.
  destruct (size2 (py_slice roi_gray a b) =? 0)%nat eqn:E; [split; lra|].
  apply Nat.eqb_neq in E. apply np_mean_range.
  - unfold size2 in E. destruct (py_slice roi_gray a b) as [|row rest]; [simpl in E; lia|].
    destruct row; [simpl in E; lia|]. discriminate.
  - apply Forall_concat. rewrite Forall_forall in *. intros row Hrow.
    apply Hroi. now apply (py_slice_incl roi_gray a b).
Qed.

Lemma region_mean_empty (roi_gray : list (list Z)) (a : Z) :
  region_mean roi_gray a a = 0%Q.
Proof.
  unfold region_mean. now rewrite py_slice_empty.
Qed.

Lemma region_mean_row (roi_gray : list (list Z)) (k : nat) :
  region_mean roi_gray (Z.of_nat k) (Z.of_nat k + 1) =
    match nth_error roi_gray k with
    | Some (p :: row) => np_mean (p :: row)
    | _ => 0%Q
    end.
Proof.
  unfold region_mean. rewrite py_slice_single by lia. rewrite Nat2Z.id.
  destruct (nth_error roi_gray k) as [[|p row]|]; try reflexivity.
  unfold size2. cbn [length hd Nat.mul Nat.add Nat.eqb concat].
  now rewrite app_nil_r.
Qed.

(** X28. The magnitudes of a grey strip with pixels in 0..255.  In zodiac
    mode [pixels_to_magnitudes] returns exactly zodiac_range magnitudes,
    whatever the height of the strip: magnitude k is the mean of row k, and 0
    when the strip has no row k or the row is empty.  In any other mode it
    raises ZeroDivisionError for an empty note list and otherwise returns one
    magnitude per note, all of them 0 when the strip has fewer rows than
    there are notes.  Every magnitude lies in [0, 255]. *)
Theorem pixels_to_magnitudes_shape (ap : AudioProcessor) (note_midis : list Z)
    (roi_gray : list (list Z)) (processing_mode : string) :
  Forall (Forall (fun p => 0 <= p <= 255)) roi_gray ->
  (processing_mode = "zodiac"%string ->
   exists magnitudes data,
     pixels_to_magnitudes ap note_midis roi_gray processing_mode
       = Ok (magnitudes, data) /\
     length magnitudes = Z.to_nat (ap_zodiac_range ap) /\
     length data = length magnitudes /\
     Forall (fun m => 0 <= m /\ m <= 255)%Q magnitudes /\
     forall k, (k < Z.to_nat (ap_zodiac_range ap))%nat ->
       nth_error magnitudes k =
         Some match nth_error roi_gray k with
              | Some (p :: row) => np_mean (p :: row)
              | _ => 0%Q
              end) /\
  (processing_mode <> "zodiac"%string ->
   (note_midis = [] ->
    pixels_to_magnitudes ap note_midis roi_gray processing_mode
      = Raise ZeroDivisionError) /\
   (note_midis <> [] ->
    exists magnitudes data,
      pixels_to_magnitudes ap note_midis roi_gray processing_mode
        = Ok (magnitudes, data) /\
      length magnitudes = length note_midis /\
      length data = length magnitudes /\
      Forall (fun m => 0 <= m /\ m <= 255)%Q magnitudes /\
      ((length roi_gray < length note_midis)%nat ->
       magnitudes = repeat 0%Q (length note_midis)))).
Proof.
  intros Hroi. split.
  - intros ->. unfold pixels_to_magnitudes. cbn [String.eqb Ascii.eqb Bool.eqb].
    cbv zeta. eexists _, _. split; [reflexivity|].
    rewrite !length_map, Zrange_length. split; [reflexivity|]. split; [reflexivity|].
    split.
    + apply Forall_forall. intros m Hm. rewrite map_map in Hm.
      apply in_map_iff in Hm. destruct Hm as [idx [<- _]]. cbn [d_magnitude].
      apply region_mean_range. exact Hroi.
    + intros k Hk. rewrite map_map. rewrite nth_error_map.
      rewrite nth_error_Zrange by exact Hk. cbn [option_map d_magnitude].
      rewrite Z.add_0_l, !Z.mul_1_r. f_equal. apply region_mean_row.
  - intros Hmode. apply String.eqb_neq in Hmode.
    unfold pixels_to_magnitudes. rewrite Hmode. split.
    + intros ->. reflexivity.
    + intros Hne. unfold py_floordiv.
      assert (Hn : (Z.of_nat (length note_midis) =? 0) = false).
      { apply Z.eqb_neq. destruct note_midis; [congruence|simpl; lia]. }
      rewrite Hn. cbn [bind]. cbv zeta. eexists _, _. split; [reflexivity|].
      rewrite !length_map, Zrange_length.
      split; [reflexivity|]. split; [reflexivity|]. split.
      * apply Forall_forall. intros m Hm. rewrite map_map in Hm.
        apply in_map_iff in Hm. destruct Hm as [idx [<- _]]. cbn [d_magnitude].
        apply region_mean_range. exact Hroi.
      * intros Hshort. rewrite map_map. cbn [d_magnitude].
        rewrite Z.div_small by lia.
        rewrite <- (Zrange_length (length note_midis) 0) at 2.
        rewrite <- map_const. apply map_ext. intros idx.
        rewrite !Z.mul_0_r. apply region_mean_empty.
Qed.

Lemma pixels_to_magnitudes_shape_witness :
  exists magnitudes data,
    pixels_to_magnitudes (mkAudioProcessor true 3 30) [60; 62] [[10]; [200]] "zodiac"
      = Ok (magnitudes, data) /\
    length magnitudes = 3%nat /\
    nth_error magnitudes 1 = Some (np_mean [200]) /\
    nth_error magnitudes 2 = Some 0%Q.
Proof.
  destruct (pixels_to_magnitudes_shape (mkAudioProcessor true 3 30) [60; 62]
              [[10]; [200]] "zodiac") as [H _].
  - repeat constructor; lia.
  - destruct (H eq_refl) as (magnitudes & data & H1 & H2 & _ & _ & H5).
    exists magnitudes, data. split; [exact H1|]. split; [exact H2|].
    split; [apply (H5 1%nat)|apply (H5 2%nat)]; simpl; lia.
Defined.

(** ** core_audio_processing.py: from magnitudes to MIDI *)

Lemma fold_min_spec (l : list Q) : forall m,
  let r := fold_left (fun m y => if Qle_bool m y then m else y) l m in
  (r <= m)%Q /\ Forall (fun x => r <= x)%Q l /\ (r = m \/ In r l).
Proof.
  induction l as [|y l IH]; intros m; cbn [fold_left].
  - split; [apply Qle_refl|]. split; [constructor|now left].
  - cbv zeta. destruct (Qle_bool m y) eqn:E.
    + apply Qle_bool_iff in E. destruct (IH m) as (H1 & H2 & H3).
      split; [exact H1|]. split.
      * constructor; [lra|exact H2].
      * destruct H3 as [H3|H3]; [now left|right; now right].
    + apply Qle_bool_false in E. destruct (IH y) as (H1 & H2 & H3).
      split; [lra|]. split.
      * constructor; [exact H1|exact H2].
      * right. destruct H3 as [H3|H3]; [left; now symmetry|now right].
Qed.

Lemma fold_max_spec (l : list Q) : forall m,
  let r := fold_left (fun m y => if Qle_bool y m then m else y) l m in
  (m <= r)%Q /\ Forall (fun x => x <= r)%Q l /\ (r = m \/ In r l).
Proof.
  induction l as [|y l IH]; intros m; cbn [fold_left].
  - split; [apply Qle_refl|]. split; [constructor|now left].
  - cbv zeta. destruct (Qle_bool y m) eqn:E.
    + apply Qle_bool_iff in E. destruct (IH m) as (H1 & H2 & H3).
      split; [exact H1|]. split.
      * constructor; [lra|exact H2].
      * destruct H3 as [H3|H3]; [now left|right; now right].
    + apply Qle_bool_false in E. destruct (IH y) as (H1 & H2 & H3).
      split; [lra|]. split.
      * constructor; [exact H1|exact H2].
      * right. destruct H3 as [H3|H3]; [left; now symmetry|now right].
Qed.

Lemma np_min_max_spec (a : list Q) :
  a <> [] ->
  exists lowest highest,
    np_min a = Ok lowest /\ np_max a = Ok highest /\
    In lowest a /\ In highest a /\
    Forall (fun x => lowest <= x /\ x <= highest)%Q a.
Proof.
  destruct a as [|x a]; intros Hne; [congruence|]. cbn [np_min np_max].
  destruct (fold_min_spec a x) as (L1 & L2 & L3).
  destruct (fold_max_spec a x) as (U1 & U2 & U3).
  eexists _, _. split; [reflexivity|]. split; [reflexivity|].
  split; [destruct L3 as [->|L3]; [now left|now right]|].
  split; [destruct U3 as [->|U3]; [now left|now right]|].
  constructor; [split; assumption|].
  rewrite Forall_forall in *. intros y Hy. split; [now apply L2|now apply U2].
Qed.

Lemma round_half_even_monotone (x y : Q) :
  (x <= y)%Q -> round_half_even x <= round_half_even y.
Proof.
  intros Hxy. unfold round_half_even.
  pose proof (Qfloor_resp_le x y Hxy) as Hf.
  pose proof (Qfloor_le x) as Hx0. pose proof (Qlt_floor x) as Hx1.
  pose proof (Qfloor_le y) as Hy0. pose proof (Qlt_floor y) as Hy1.
  rewrite inject_Z_plus in Hx1, Hy1. change (inject_Z 1) with 1%Q in Hx1, Hy1.
  destruct (Z.eq_dec (Qfloor x) (Qfloor y)) as [E|Hne].
  - rewrite E in *. set (f := Qfloor y) in *.
    destruct (Qle_bool (x - inject_Z f) (1 # 2)) eqn:A1;
      destruct (Qeq_bool (x - inject_Z f) (1 # 2)) eqn:A2;
      destruct (Qle_bool (y - inject_Z f) (1 # 2)) eqn:B1;
      destruct (Qeq_bool (y - inject_Z f) (1 # 2)) eqn:B2;
      repeat match goal with
             | H : Qle_bool _ _ = true |- _ => apply Qle_bool_iff in H
             | H : Qle_bool _ _ = false |- _ => apply Qle_bool_false in H
             | H : Qeq_bool _ _ = true |- _ => apply Qeq_bool_iff in H
             | H : Qeq_bool _ _ = false |- _ => apply Qeq_bool_neq in H
             end;
      destruct (Z.even f); try lia; try (exfalso; lra);
      match goal with
      | H : ~ (_ == _)%Q |- _ => exfalso; apply H; lra
      end.
  - assert (Hlt : Qfloor x + 1 <= Qfloor y) by lia.
    destruct (Qle_bool (x - inject_Z (Qfloor x)) (1 # 2));
      destruct (Qeq_bool (x - inject_Z (Qfloor x)) (1 # 2));
      destruct (Z.even (Qfloor x));
      destruct (Qle_bool (y - inject_Z (Qfloor y)) (1 # 2));
      destruct (Qeq_bool (y - inject_Z (Qfloor y)) (1 # 2));
      destruct (Z.even (Qfloor y)); lia.
Qed.

Lemma py_round1_monotone (x y : Q) : (x <= y)%Q -> (py_round1 x <= py_round1 y)%Q.
Proof.
  intros H. unfold py_round1.
  assert (Hr : round_half_even (x * 10) <= round_half_even (y * 10))
    by (apply round_half_even_monotone; lra).
  apply inject_Z_le in Hr. unfold Qdiv.
  apply Qmult_le_compat_r; [exact Hr|discriminate].
Qed.

Lemma py_round1_Qeq (x y : Q) : (x == y)%Q -> (py_round1 x == py_round1 y)%Q.
Proof.
  intros H. apply Qle_antisym; apply py_round1_monotone; rewrite H; apply Qle_refl.
Qed.

Section PipelineFacts.

Variable cvtColor_gray : pixel -> Z.
Variable cv2_rotate : frame -> frame.
Variable np_log np_sin : Q -> Q.
Variable randint : Z -> Z -> nat -> list Z.

(** [np.random.randint(low, high, n)] draws [n] values. *)
Hypothesis randint_length : forall low high n, length (randint low high n) = n.

Lemma linear_map_bounds (a : list Q) (low high : Q) :
  a <> [] -> (low <= high)%Q ->
  exists lowest highest results,
    np_min a = Ok lowest /\ np_max a = Ok highest /\
    audio_utils.mapper np_log np_sin
      (audio_utils.mkValMapper "linear" a lowest highest low high) = Ok results /\
    length results = length a /\
    Forall (fun r => low <= r /\ r <= high)%Q results /\
    ((forall m, In m a -> m == hd 0 a)%Q -> Forall (fun r => r == low)%Q results).
Proof.
  intros Hne Hbound.
  destruct (np_min_max_spec a Hne) as (lowest & highest & Hmin & Hmax & Hlo & Hhi & Hall).
  assert (Hrange : (lowest <= highest)%Q).
  { rewrite Forall_forall in Hall. now destruct (Hall lowest Hlo). }
  set (self := audio_utils.mkValMapper "linear" a lowest highest low high).
  destruct (mapper_defined np_log np_sin self (or_introl eq_refl) Hrange)
    as (shape & Hmap & _ & _ & Hlin).
  exists lowest, highest. eexists. split; [exact Hmin|]. split; [exact Hmax|].
  split; [exact Hmap|]. cbn [audio_utils.value audio_utils.min_value
    audio_utils.max_value audio_utils.min_bound audio_utils.max_bound self].
  split; [now rewrite length_map|].
  rewrite Forall_forall in Hall. split.
  - apply Forall_forall. intros r Hr. apply in_map_iff in Hr.
    destruct Hr as [v [<- Hv]]. destruct (Hall v Hv) as [H1 H2].
    destruct (norm_value_range v _ _ H1 H2) as [N0 N1].
    rewrite (Hlin eq_refl). split; nra.
  - intros Hsame. apply Forall_forall. intros r Hr. apply in_map_iff in Hr.
    destruct Hr as [v [<- Hv]]. rewrite (Hlin eq_refl).
    assert (Hv0 : (v - lowest == 0)%Q).
    { rewrite (Hsame v Hv), (Hsame lowest Hlo). ring. }
    rewrite Hv0. unfold Qdiv. ring.
Qed.

Lemma magnitudes_to_midi_defined (vel_min vel_max dur_min dur_max : Q)
    (note_midis : list Z) (magnitudes : list Q) (add_variation : bool) :
  (vel_min <= vel_max)%Q -> (dur_min <= dur_max)%Q -> magnitudes <> [] ->
  exists velocities durations,
    magnitudes_to_midi np_log np_sin randint vel_min vel_max dur_min dur_max
      note_midis magnitudes add_variation = Ok (velocities, durations, note_midis) /\
    length velocities = length magnitudes /\
    length durations = length magnitudes /\
    Forall (fun v => py_round1 vel_min <= v /\ v <= py_round1 vel_max)%Q velocities /\
    Forall (fun d => py_round1 dur_min <= d /\ d <= py_round1 dur_max)%Q durations /\
    ((forall m, In m magnitudes -> m == hd 0 magnitudes)%Q ->
     Forall (fun v => v == py_round1 vel_min)%Q velocities).
Proof.
  intros Hvel Hdur Hne. unfold magnitudes_to_midi.
  destruct (linear_map_bounds magnitudes vel_min vel_max Hne Hvel)
    as (lowest & highest & vels & Hmin & Hmax & Hmap & Hlen & Hin & Hsame).
  rewrite Hmin, Hmax. cbn [bind]. rewrite Hmap. cbn [bind]. cbv zeta.
  set (varied := if add_variation
                 then map (fun ml : Q * Z => (fst ml + inject_Z (snd ml))%Q)
                        (combine magnitudes (randint (- (20)) 20 (length magnitudes)))
                 else magnitudes).
  assert (Hvlen : length varied = length magnitudes).
  { unfold varied. destruct add_variation; [|reflexivity].
    rewrite length_map, length_combine, randint_length. apply Nat.min_id. }
  assert (Hvne : varied <> []).
  { intros E. rewrite E in Hvlen. destruct magnitudes; [congruence|discriminate]. }
  destruct (linear_map_bounds varied dur_min dur_max Hvne Hdur)
    as (vlowest & vhighest & durs & Hvmin & Hvmax & Hvmap & Hdlen & Hdin & _).
  rewrite Hvmin, Hvmax. cbn [bind]. rewrite Hvmap. cbn [bind].
  eexists _, _. split; [reflexivity|]. rewrite !length_map.
  split; [exact Hlen|]. split; [congruence|].
  split; [|split].
  - apply Forall_forall. intros v Hv. apply in_map_iff in Hv.
    destruct Hv as [r [<- Hr]]. rewrite Forall_forall in Hin.
    destruct (Hin r Hr). split; now apply py_round1_monotone.
  - apply Forall_forall. intros v Hv. apply in_map_iff in Hv.
    destruct Hv as [r [<- Hr]]. rewrite Forall_forall in Hdin.
    destruct (Hdin r Hr). split; now apply py_round1_monotone.
  - intros Hall. specialize (Hsame Hall). apply Forall_forall. intros v Hv.
    apply in_map_iff in Hv. destruct Hv as [r [<- Hr]].
    rewrite Forall_forall in Hsame. apply py_round1_Qeq. now apply Hsame.
Qed.

(** X29. From magnitudes to MIDI.  On an empty array [magnitudes_to_midi]
    raises ValueError (the minimum of an empty array).  Otherwise, with
    vel_min <= vel_max and dur_min <= dur_max, it returns one velocity and
    one duration per magnitude, the velocities between the rounded bounds of
    the velocity range and the durations between those of the duration
    range, with or without the random variation; the notes are the whole
    scale whatever the number of magnitudes; and when all magnitudes are
    equal, every velocity is the lower bound. *)
Theorem magnitudes_to_midi_bounds (vel_min vel_max dur_min dur_max : Q)
    (note_midis : list Z) (magnitudes : list Q) (add_variation : bool) :
  (vel_min <= vel_max)%Q -> (dur_min <= dur_max)%Q ->
  match magnitudes with
  | [] =>
      magnitudes_to_midi np_log np_sin randint vel_min vel_max dur_min dur_max
        note_midis magnitudes add_variation = Raise ValueError
  | _ :: _ =>
      exists velocities durations,
        magnitudes_to_midi np_log np_sin randint vel_min vel_max dur_min dur_max
          note_midis magnitudes add_variation = Ok (velocities, durations, note_midis) /\
        length velocities = length magnitudes /\
        length durations = length magnitudes /\
        Forall (fun v => py_round1 vel_min <= v /\ v <= py_round1 vel_max)%Q velocities /\
        Forall (fun d => py_round1 dur_min <= d /\ d <= py_round1 dur_max)%Q durations /\
        ((forall m, In m magnitudes -> m == hd 0 magnitudes)%Q ->
         Forall (fun v => v == py_round1 vel_min)%Q velocities)
  end.
Proof.
  intros Hvel Hdur. destruct magnitudes as [|m magnitudes]; [reflexivity|].
  apply magnitudes_to_midi_defined; [exact Hvel|exact Hdur|discriminate].
Qed.

(** X30. The frame pipeline in zodiac mode, for an integer frame counter
    and integer region coordinates.  [process_frame_to_audio] never lets an
    exception out.  With an integer fps it fails with ZeroDivisionError when
    fps * time_per_zodiac is 0 and otherwise only with ValueError (empty
    strip); with a float fps it always fails, with ZeroDivisionError on a
    zero product and with the TypeError of the slice otherwise.  When it
    succeeds, the notes are the whole scale while velocities, durations and
    magnitudes number zodiac_range each, so that notes and velocities pair
    up only for a scale of zodiac_range notes; the sector reported is 1..12
    and the region read is the band of that sector. *)
Theorem process_frame_to_audio_zodiac (ap : AudioProcessor)
    (vel_min vel_max dur_min dur_max : Q) (note_midis : list Z) (f : frame)
    (x y w h frame_count : Z) (fps : py_number) :
  ap_zodiac_mode ap = true -> (vel_min <= vel_max)%Q -> (dur_min <= dur_max)%Q ->
  match process_frame_to_audio cvtColor_gray cv2_rotate np_log np_sin randint ap
          vel_min vel_max dur_min dur_max note_midis f (x, y, w, h) frame_count fps with
  | Success processing_region magnitudes notes velocities durations zodiac_hour =>
      (exists z, fps = PyInt z) /\
      notes = note_midis /\
      length magnitudes = Z.to_nat (ap_zodiac_range ap) /\
      length velocities = Z.to_nat (ap_zodiac_range ap) /\
      length durations = Z.to_nat (ap_zodiac_range ap) /\
      exists k, 0 <= k <= 11 /\ zodiac_hour = Some (k + 1) /\
                processing_region =
                  (x, y + k * ap_zodiac_range ap, 1, ap_zodiac_range ap)
  | Failure e =>
      match fps with
      | PyInt z =>
          (e = ZeroDivisionError /\ z * ap_time_per_zodiac ap = 0) \/
          (e = ValueError /\ z * ap_time_per_zodiac ap <> 0)
      | PyFloat q =>
          (e = ZeroDivisionError /\ (q * inject_Z (ap_time_per_zodiac ap) == 0)%Q) \/
          (e = TypeError /\ ~ (q * inject_Z (ap_time_per_zodiac ap) == 0)%Q)
      end
  end.
Proof.
  intros Hmode Hvel Hdur.
  unfold process_frame_to_audio, extract_roi_pixels_at.
  destruct fps as [fps|q].
  2:{ rewrite Hmode.
      destruct (Qeq_bool (q * inject_Z (ap_time_per_zodiac ap)) 0) eqn:E; cbn [bind].
      - apply Qeq_bool_iff in E. left. now split.
      - apply Qeq_bool_neq in E. right. now split. }
  unfold extract_roi_pixels.
  rewrite Hmode. unfold py_floordiv.
  destruct (fps * ap_time_per_zodiac ap =? 0) eqn:Ediv.
  { apply Z.eqb_eq in Ediv. cbn [bind]. left. now split. }
  apply Z.eqb_neq in Ediv. cbn [bind].
  set (k := (frame_count / (fps * ap_time_per_zodiac ap)) mod 12).
  assert (Hk : 0 <= k <= 11) by (pose proof (Z.mod_pos_bound
    (frame_count / (fps * ap_time_per_zodiac ap)) 12 ltac:(lia)); unfold k; lia).
  destruct (size2 _ =? 0)%nat; cbn [bind]; [right; now split|].
  set (roi_gray := map (map cvtColor_gray) _).
  unfold pixels_to_magnitudes. cbn [String.eqb Ascii.eqb Bool.eqb bind]. cbv zeta.
  set (data := map _ (Zrange 0 (Z.to_nat (ap_zodiac_range ap)))).
  assert (Hlen : length (map d_magnitude data) = Z.to_nat (ap_zodiac_range ap))
    by (unfold data; now rewrite !length_map, Zrange_length).
  destruct (map d_magnitude data) as [|m magnitudes] eqn:Emag.
  { cbn [magnitudes_to_midi np_min bind]. right. now split. }
  destruct (magnitudes_to_midi_defined vel_min vel_max dur_min dur_max note_midis
              (m :: magnitudes) true Hvel Hdur ltac:(discriminate))
    as (velocities & durations & Hmidi & Hlv & Hld & _).
  rewrite Hmidi. cbn [bind].
  split; [now exists fps|].
  split; [reflexivity|]. split; [exact Hlen|].
  split; [congruence|]. split; [congruence|].
  exists k. split; [exact Hk|]. split; reflexivity.
Qed.

End PipelineFacts.

Lemma no_variation_length (low high : Z) (n : nat) :
  length (no_variation low high n) = n.
Proof. apply repeat_length. Qed.

Lemma magnitudes_to_midi_bounds_witness :
  exists velocities durations,
    magnitudes_to_midi log_unused sin_unused no_variation 32 127 (4 # 5) (9 # 5)
      [60; 62] [0; 255; 255]%Q true = Ok (velocities, durations, [60; 62]) /\
    length velocities = length [0; 255; 255]%Q /\
    length durations = length [0; 255; 255]%Q /\
    Forall (fun v => py_round1 32 <= v /\ v <= py_round1 127)%Q velocities /\
    Forall (fun d => py_round1 (4 # 5) <= d /\ d <= py_round1 (9 # 5))%Q durations /\
    ((forall m, In m [0; 255; 255]%Q -> m == hd 0 [0; 255; 255]%Q)%Q ->
     Forall (fun v => v == py_round1 32)%Q velocities).
Proof.
  apply (magnitudes_to_midi_bounds log_unused sin_unused no_variation
           no_variation_length 32 127 (4 # 5) (9 # 5) [60; 62] [0; 255; 255]%Q true);
    vm_compute; discriminate.
Defined.

Lemma process_frame_to_audio_zodiac_witness :
  exists region magnitudes velocities durations hour,
    process_frame_to_audio gray_stand_in no_rotation log_unused sin_unused
      no_variation (mkAudioProcessor true 2 30) 32 127 (4 # 5) (9 # 5)
      [60; 62; 64] frame_2x2 (0, 0, 1, 2) 0 (PyInt 30)
      = Success region magnitudes [60; 62; 64] velocities durations hour /\
    length velocities = 2%nat.
Proof.
  assert (Hvel : (32 <= 127)%Q) by (vm_compute; discriminate).
  assert (Hdur : ((4 # 5) <= (9 # 5))%Q) by (vm_compute; discriminate).
  pose proof (process_frame_to_audio_zodiac gray_stand_in no_rotation log_unused
                sin_unused no_variation no_variation_length
                (mkAudioProcessor true 2 30) 32 127 (4 # 5) (9 # 5) [60; 62; 64]
                frame_2x2 0 0 1 2 0 (PyInt 30) eq_refl Hvel Hdur) as H.
  destruct (process_frame_to_audio gray_stand_in no_rotation log_unused sin_unused
              no_variation (mkAudioProcessor true 2 30) 32 127 (4 # 5) (9 # 5)
              [60; 62; 64] frame_2x2 (0, 0, 1, 2) 0 (PyInt 30))
    as [region magnitudes notes velocities durations hour|e] eqn:E.
  - destruct H as (_ & Hn & _ & Hv & _). subst notes.
    exists region, magnitudes, velocities, durations, hour.
    split; [reflexivity|exact Hv].
  - vm_compute in E. discriminate.
Defined.
